(** * shadcn-scaffolder: the resumable step pipeline, embedded and verified

    A shallow embedding of [shadcn-scaffolder] (lib/utils.js, lib/state.js,
    lib/validator.js, lib/executor.js and index.js) together with the
    properties its specification states about checkpointing, resuming,
    the component installer and interrupt handling.

    Modelling conventions.
    - The process is a state-and-error monad over a [Machine]: the
      in-memory state object (index.js shares one object between [main]
      and the signal handler), the file system, the clock and the trace
      of system calls made so far.
    - [process.exit] and a thrown exception are the two abnormal results
      of a computation; [try]/[catch] is [try_catch].
    - The file system is a finite map from absolute, normalised paths to
      nodes.  The errors modelled are those that follow from the shape of
      the tree (a missing parent directory, a directory where a file is
      expected); permission and device faults are not modelled, except
      for the write-access probe of the validator and for the recursive
      removal of the project directory, which are answered by the
      runtime.
    - The JavaScript runtime and the outside world are a parameter
      ([Runtime]): JSON (de)serialisation, the access probe, the faults
      of a recursive removal and the behaviour of spawned commands.
    - Console output ([log], [printUsage]) is not modelled;
      [printSummary] is modelled by the lines it prints.  [parseArgs] of
      node is outside the embedding: [parseCLIArgs] starts from what it
      returns, and [main] from the parsed arguments. *)

From stdpp Require Import base option list gmap strings pretty.
From Stdlib Require Import ZArith Lia Ascii.

Local Open Scope string_scope.
Local Open Scope list_scope.
Local Open Scope Z_scope.

(** ** lib/utils.js *)

Definition REGISTRY_URL : string :=
  "https://raw.githubusercontent.com/CBDB-Code/UI_Shadcn/main/registry.json".

Record Template := { description : string; t_components : list string }.

(** The own properties of the [TEMPLATES] object, in insertion order. *)
Definition TEMPLATES : list (string * Template) :=
  [ ("minimal",
     {| description := "Basic UI primitives (4 components)";
        t_components := ["button"; "card"; "badge"; "input"] |});
    ("form",
     {| description := "Form-focused layout (10 components)";
        t_components := ["button"; "card"; "input"; "label"; "form";
                         "select"; "checkbox"; "radio-group"; "textarea"; "switch"] |});
    ("dashboard",
     {| description := "Full dashboard with charts and navigation (12 components)";
        t_components := ["button"; "card"; "badge"; "input"; "tabs"; "table";
                         "chart"; "sidebar"; "dropdown-menu"; "avatar";
                         "separator"; "skeleton"] |}) ].

Module TIMEOUTS.
Definition viteCreate : Z := 120000.
Definition npmInstall : Z := 120000.
Definition shadcnInit : Z := 60000.
Definition componentInstall : Z := 300000.
End TIMEOUTS.

Module EXIT_CODES.
Definition SUCCESS : Z := 0.
Definition FAILURE : Z := 1.
End EXIT_CODES.

Definition STATE_FILENAME : string := ".scaffolder-state.json".

(** [Math.round(ms / 1000)] rounds half up; [%] is the truncating
    remainder. *)
Definition formatDuration (ms : Z) : string :=
  let totalSeconds := (ms + 500) / 1000 in
  let minutes := totalSeconds / 60 in
  let seconds := Z.rem totalSeconds 60 in
  if minutes =? 0 then pretty seconds +:+ "s"
  else pretty minutes +:+ "m " +:+ pretty seconds +:+ "s".

(** ** Strings and paths *)

(** The double-quote character, for the messages that quote a name. *)
Definition dq : string := String (Ascii.ascii_of_nat 34) EmptyString.

Definition quoted (s : string) : string := dq +:+ s +:+ dq.

(** [Array.prototype.join]. *)
Fixpoint join (sep : string) (l : list string) : string :=
  match l with
  | [] => ""
  | [x] => x
  | x :: l' => x +:+ sep +:+ join sep l'
  end.

(** [path.join dir name] for a normalised [dir] and a single segment. *)
Definition path_join (dir name : string) : string := dir +:+ "/" +:+ name.

(** The directory part of a path up to its last separator, [None] when
    the path has no separator. *)
Fixpoint parent_of (p : string) : option string :=
  match p with
  | EmptyString => None
  | String c p' =>
      match parent_of p' with
      | Some d => Some (String c d)
      | None => if Ascii.eqb c "/"%char then Some EmptyString else None
      end
  end.

Definition parent (p : string) : string := default "." (parent_of p).

(** ** The data model (lib/state.js) *)

Inductive Status := pending | running | done | failed.

#[global] Instance Status_eq_dec : EqDecision Status.
Proof. solve_decision. Defined.

Module Step.
Inductive name := viteCreate | npmInstall | shadcnInit | componentInstall | verification.

(** [Object.keys(state.steps)], in insertion order. *)
Definition all : list name :=
  [viteCreate; npmInstall; shadcnInit; componentInstall; verification].

#[global] Instance name_eq_dec : EqDecision name.
Proof. solve_decision. Defined.
End Step.

Record StepTable := {
  s_viteCreate : Status;
  s_npmInstall : Status;
  s_shadcnInit : Status;
  s_componentInstall : Status;
  s_verification : Status }.

Definition step_get (t : StepTable) (k : Step.name) : Status :=
  match k with
  | Step.viteCreate => s_viteCreate t
  | Step.npmInstall => s_npmInstall t
  | Step.shadcnInit => s_shadcnInit t
  | Step.componentInstall => s_componentInstall t
  | Step.verification => s_verification t
  end.

Definition step_set (t : StepTable) (k : Step.name) (v : Status) : StepTable :=
  match k with
  | Step.viteCreate =>
      {| s_viteCreate := v; s_npmInstall := s_npmInstall t; s_shadcnInit := s_shadcnInit t;
         s_componentInstall := s_componentInstall t; s_verification := s_verification t |}
  | Step.npmInstall =>
      {| s_viteCreate := s_viteCreate t; s_npmInstall := v; s_shadcnInit := s_shadcnInit t;
         s_componentInstall := s_componentInstall t; s_verification := s_verification t |}
  | Step.shadcnInit =>
      {| s_viteCreate := s_viteCreate t; s_npmInstall := s_npmInstall t; s_shadcnInit := v;
         s_componentInstall := s_componentInstall t; s_verification := s_verification t |}
  | Step.componentInstall =>
      {| s_viteCreate := s_viteCreate t; s_npmInstall := s_npmInstall t;
         s_shadcnInit := s_shadcnInit t; s_componentInstall := v;
         s_verification := s_verification t |}
  | Step.verification =>
      {| s_viteCreate := s_viteCreate t; s_npmInstall := s_npmInstall t;
         s_shadcnInit := s_shadcnInit t; s_componentInstall := s_componentInstall t;
         s_verification := v |}
  end.

(** Timestamps are instants in milliseconds; their ISO rendering is the
    serialiser's business. *)
Record ScaffoldState := {
  version : Z;
  projectName : string;
  projectPath : string;
  template : string;
  components : list string;
  startedAt : Z;
  updatedAt : Z;
  freshCreation : bool;
  steps : StepTable;
  installedComponents : list string;
  failedComponents : list string;
  error : option string }.

Definition set_updatedAt (t : Z) (s : ScaffoldState) : ScaffoldState :=
  {| version := version s; projectName := projectName s; projectPath := projectPath s;
     template := template s; components := components s; startedAt := startedAt s;
     updatedAt := t; freshCreation := freshCreation s; steps := steps s;
     installedComponents := installedComponents s;
     failedComponents := failedComponents s; error := error s |}.

Definition set_freshCreation (b : bool) (s : ScaffoldState) : ScaffoldState :=
  {| version := version s; projectName := projectName s; projectPath := projectPath s;
     template := template s; components := components s; startedAt := startedAt s;
     updatedAt := updatedAt s; freshCreation := b; steps := steps s;
     installedComponents := installedComponents s;
     failedComponents := failedComponents s; error := error s |}.

Definition set_steps (t : StepTable) (s : ScaffoldState) : ScaffoldState :=
  {| version := version s; projectName := projectName s; projectPath := projectPath s;
     template := template s; components := components s; startedAt := startedAt s;
     updatedAt := updatedAt s; freshCreation := freshCreation s; steps := t;
     installedComponents := installedComponents s;
     failedComponents := failedComponents s; error := error s |}.

Definition set_error (e : option string) (s : ScaffoldState) : ScaffoldState :=
  {| version := version s; projectName := projectName s; projectPath := projectPath s;
     template := template s; components := components s; startedAt := startedAt s;
     updatedAt := updatedAt s; freshCreation := freshCreation s; steps := steps s;
     installedComponents := installedComponents s;
     failedComponents := failedComponents s; error := e |}.

Definition set_results (inst fl : list string) (s : ScaffoldState) : ScaffoldState :=
  {| version := version s; projectName := projectName s; projectPath := projectPath s;
     template := template s; components := components s; startedAt := startedAt s;
     updatedAt := updatedAt s; freshCreation := freshCreation s; steps := steps s;
     installedComponents := inst; failedComponents := fl; error := error s |}.

Definition set_step (k : Step.name) (v : Status) (s : ScaffoldState) : ScaffoldState :=
  set_steps (step_set (steps s) k v) s.

Definition status_of (s : ScaffoldState) (k : Step.name) : Status := step_get (steps s) k.

Definition createInitialState (name path tmpl : string) (comps : list string) (now : Z)
  : ScaffoldState :=
  {| version := 1; projectName := name; projectPath := path; template := tmpl;
     components := comps; startedAt := now; updatedAt := now; freshCreation := true;
     steps := {| s_viteCreate := pending; s_npmInstall := pending; s_shadcnInit := pending;
                 s_componentInstall := pending; s_verification := pending |};
     installedComponents := []; failedComponents := []; error := None |}.

(** ** The file system *)

Inductive Node := Dir | File (content : string).

Abbreviation FS := (gmap string Node).

Definition existsSync (fs : FS) (p : string) : bool :=
  match fs !! p with Some _ => true | None => false end.

Definition isDirectory (fs : FS) (p : string) : bool :=
  match fs !! p with Some Dir => true | _ => false end.

Definition enoent (p : string) : string := "ENOENT: no such file or directory, " +:+ p.
Definition eisdir (p : string) : string := "EISDIR: illegal operation on a directory, " +:+ p.
Definition enotdir (p : string) : string := "ENOTDIR: not a directory, " +:+ p.

Definition fs_readFile (fs : FS) (p : string) : string + string :=
  match fs !! p with
  | Some (File d) => inr d
  | Some Dir => inl (eisdir p)
  | None => inl (enoent p)
  end.

(** Creating or replacing the file [p] needs its directory. *)
Definition fs_writeFile (fs : FS) (p data : string) : string + FS :=
  match fs !! p with
  | Some Dir => inl (eisdir p)
  | _ =>
      match fs !! parent p with
      | Some Dir => inr (<[p := File data]> fs)
      | Some (File _) => inl (enotdir p)
      | None => inl (enoent p)
      end
  end.

(** Renaming a file onto [new], replacing a file there atomically.  Only
    files are renamed by the program. *)
Definition fs_rename (fs : FS) (old new : string) : string + FS :=
  match fs !! old with
  | None => inl (enoent old)
  | Some Dir => inl (eisdir old)
  | Some (File d) =>
      match fs !! new with
      | Some Dir => inl (eisdir new)
      | _ =>
          match fs !! parent new with
          | Some Dir => inr (<[new := File d]> (delete old fs))
          | Some (File _) => inl (enotdir new)
          | None => inl (enoent new)
          end
      end
  end.

Definition fs_unlink (fs : FS) (p : string) : string + FS :=
  match fs !! p with
  | Some (File _) => inr (delete p fs)
  | Some Dir => inl (eisdir p)
  | None => inl (enoent p)
  end.

Definition inside (root p : string) : bool :=
  String.eqb p root || String.prefix (root +:+ "/") p.

(** [fs.rmSync(p, {recursive: true, force: true})] when it goes
    through: [p] and everything beneath it are gone. *)
Definition fs_rmTree (fs : FS) (p : string) : FS :=
  filter (λ kv, inside p kv.1 = false) fs.

(** What the same call leaves when it fails on the way: [p] itself is
    still there, and so are the entries beneath it that [kept]
    accepts. *)
Definition fs_rmPart (fs : FS) (p : string) (kept : string → bool) : FS :=
  filter (λ kv, inside p kv.1 = false ∨ kv.1 = p ∨ kept kv.1 = true) fs.

(** The states of the file system an observer can see while [data] is
    being written to [p]: the file is created or truncated, then grows
    by prefixes of [data]. *)
Definition partial_writes (fs : FS) (p data : string) : list FS :=
  (λ n, <[p := File (String.substring 0 n data)]> fs) <$> seq 0 (S (String.length data)).
Arguments partial_writes : simpl never.

(** ** The runtime and the machine *)

Record Command := {
  command : string;
  args : list string;
  cwd : string;
  timeout : Z }.

(** How a spawned child ends: the ['close'] event with its exit code and
    signal, or the ['error'] event when it could not be spawned. *)
Inductive Termination :=
  | Closed (code : option Z) (signal : option string)
  | SpawnError (message : string).

(** What running a command does: how it ends, the file system it leaves
    and the time it took. *)
Record Outcome := { o_term : Termination; o_fs : FS; o_elapsed : N }.

Class Runtime := {
  JSON_stringify : ScaffoldState → string;
  (** [None]: [JSON.parse] throws; [Some None]: the document is a falsy
      value ([null], [false], [0]); [Some (Some s)]: a state object. *)
  JSON_parse : string → option (option ScaffoldState);
  (** [fs.accessSync(p, W_OK)] returns normally. *)
  access_W_OK : string → bool;
  (** [fs.rmSync(p, {recursive: true, force: true})] on the tree [fs]:
      [None] when the removal goes through; [Some (e, kept)] when it
      throws [e] (a permission fault, a busy entry), having removed the
      entries beneath [p] that [kept] rejects. *)
  rm_fault : FS → string → option (string * (string → bool));
  (** The child process run by [spawn], from the file system and the
      time at which it starts. *)
  spawn : Command → FS → Z → Outcome }.

(** The system calls of a run, in order.  [EvThrown call] records a call
    that raised an error; it had no effect, unless it is a removal, which
    may have removed part of the tree before it failed. *)
Inductive Event :=
  | EvSpawn (c : Command)
  | EvWriteFile (p data : string)
  | EvRename (old new : string)
  | EvUnlink (p : string)
  | EvRm (p : string)
  | EvThrown (call : Event).

#[global] Instance Command_eq_dec : EqDecision Command.
Proof. solve_decision. Defined.

#[global] Instance Event_eq_dec : EqDecision Event.
Proof. solve_decision. Defined.

Record Machine := {
  m_state : ScaffoldState;
  m_fs : FS;
  m_now : Z;
  m_trace : list Event }.

Inductive Res (A : Type) :=
  | Ok (a : A)
  | Exit (code : Z)
  | Throw (message : string).
Arguments Ok {A} a.
Arguments Exit {A} code.
Arguments Throw {A} message.

Definition M (A : Type) : Type := Machine → Res A * Machine.

Definition M_ret {A} (a : A) : M A := λ m, (Ok a, m).

Definition M_bind {A B} (c : M A) (k : A → M B) : M B :=
  λ m, match c m with
       | (Ok a, m') => k a m'
       | (Exit code, m') => (Exit code, m')
       | (Throw e, m') => (Throw e, m')
       end.

#[global] Instance M_mret : MRet M := @M_ret.
#[global] Instance M_mbind : MBind M := λ A B k c, M_bind c k.

Definition exit {A} (code : Z) : M A := λ m, (Exit code, m).
Definition throw {A} (e : string) : M A := λ m, (Throw e, m).

Definition try_catch {A} (c : M A) (h : string → M A) : M A :=
  λ m, match c m with
       | (Throw e, m') => h e m'
       | r => r
       end.

Definition get_state : M ScaffoldState := λ m, (Ok (m_state m), m).
Definition get_fs : M FS := λ m, (Ok (m_fs m), m).
Definition clock : M Z := λ m, (Ok (m_now m), m).

Definition with_state (f : ScaffoldState → ScaffoldState) (m : Machine) : Machine :=
  {| m_state := f (m_state m); m_fs := m_fs m; m_now := m_now m; m_trace := m_trace m |}.

Definition modify_state (f : ScaffoldState → ScaffoldState) : M unit :=
  λ m, (Ok tt, with_state f m).

(** A system call on the file system: it takes effect and is recorded,
    or it throws and is recorded as thrown. *)
Definition syscall (ev : Event) (op : FS → string + FS) : M unit :=
  λ m, match op (m_fs m) with
       | inr fs' => (Ok tt, {| m_state := m_state m; m_fs := fs'; m_now := m_now m;
                               m_trace := m_trace m ++ [ev] |})
       | inl e => (Throw e, {| m_state := m_state m; m_fs := m_fs m; m_now := m_now m;
                               m_trace := m_trace m ++ [EvThrown ev] |})
       end.

Definition writeFileSync (p data : string) : M unit :=
  syscall (EvWriteFile p data) (λ fs, fs_writeFile fs p data).
Definition renameSync (old new : string) : M unit :=
  syscall (EvRename old new) (λ fs, fs_rename fs old new).
Definition unlinkSync (p : string) : M unit :=
  syscall (EvUnlink p) (λ fs, fs_unlink fs p).
Definition rmSync `{rt : Runtime} (p : string) : M unit :=
  λ m, match rm_fault (m_fs m) p with
       | None => (Ok tt, {| m_state := m_state m; m_fs := fs_rmTree (m_fs m) p;
                            m_now := m_now m; m_trace := m_trace m ++ [EvRm p] |})
       | Some (e, kept) =>
           (Throw e, {| m_state := m_state m; m_fs := fs_rmPart (m_fs m) p kept;
                        m_now := m_now m; m_trace := m_trace m ++ [EvThrown (EvRm p)] |})
       end.

Section Program.
Context `{rt : Runtime}.

(** ** lib/state.js *)

Definition stateFilePath (projectPath : string) : string :=
  path_join projectPath STATE_FILENAME.

Definition saveState (projectPath : string) : M unit :=
  t ← clock;
  modify_state (set_updatedAt t);;
  let filePath := stateFilePath projectPath in
  let tmpPath := filePath +:+ ".tmp" in
  state ← get_state;
  writeFileSync tmpPath (JSON_stringify state);;
  renameSync tmpPath filePath.

(** The optional [extra] argument of [updateStep]: the object literals
    the callers pass. *)
Inductive Extra :=
  | NoExtra
  | ExtraError (e : string)
  | ExtraComponents (installed failed : list string).

Definition assign (extra : Extra) (s : ScaffoldState) : ScaffoldState :=
  match extra with
  | NoExtra => s
  | ExtraError e => set_error (Some e) s
  | ExtraComponents i f => set_results i f s
  end.

Definition updateStep (projectPath : string) (stepName : Step.name) (status : Status)
    (extra : Extra) : M unit :=
  modify_state (set_step stepName status);;
  modify_state (assign extra);;
  saveState projectPath.

Definition removeState (projectPath : string) : M unit :=
  let filePath := stateFilePath projectPath in
  fs ← get_fs;
  if existsSync fs filePath then unlinkSync filePath else mret tt.

(** ** lib/executor.js *)

Record RunResult := { code : option Z; signal : option string; timedOut : bool }.

Definition runCommand (c : Command) : M RunResult :=
  λ m, let o := spawn c (m_fs m) (m_now m) in
       let m' := {| m_state := m_state m; m_fs := o_fs o;
                    m_now := m_now m + Z.of_N (o_elapsed o);
                    m_trace := m_trace m ++ [EvSpawn c] |} in
       match o_term o with
       | Closed code signal =>
           (Ok {| code := code; signal := signal;
                  timedOut := bool_decide (signal = Some "SIGTERM") && bool_decide (code = None) |},
            m')
       | SpawnError e =>
           (Throw ("Failed to spawn " +:+ quoted (command c) +:+ ": " +:+ e), m')
       end.

Inductive StepResult := Success | Failure (error : string).

(** A number or [null] inside a template literal. *)
Definition show_code (c : option Z) : string :=
  match c with Some z => pretty z | None => "null" end.

(** The three commands of the all-or-nothing steps. *)
Definition vite_command (projectName targetDir : string) (timeout : Z) : Command :=
  {| command := "npx";
     args := ["create-vite@latest"; projectName; "--template"; "react-ts"];
     cwd := targetDir; timeout := timeout |}.

Definition npm_command (projectPath : string) (timeout : Z) : Command :=
  {| command := "npm"; args := ["install"]; cwd := projectPath; timeout := timeout |}.

Definition init_command (projectPath : string) (timeout : Z) : Command :=
  {| command := "npx";
     args := ["shadcn@latest"; "init"; "--yes"; "--defaults"; "--force"; "--cwd"; projectPath];
     cwd := projectPath; timeout := timeout |}.

Definition createViteProject (projectName targetDir : string) : M StepResult :=
  let timeout := TIMEOUTS.viteCreate in
  try_catch
    (result ← runCommand (vite_command projectName targetDir timeout);
     if timedOut result then
       mret (Failure ("Vite creation timed out after " +:+ formatDuration timeout))
     else if negb (bool_decide (code result = Some 0)) then
       mret (Failure ("Vite creation failed with exit code " +:+ show_code (code result)))
     else
       let projectPath := path_join targetDir projectName in
       fs ← get_fs;
       if negb (existsSync fs (path_join projectPath "package.json")) then
         mret (Failure "Vite created but package.json not found")
       else mret Success)
    (λ err, mret (Failure err)).

Definition npmInstall (projectPath : string) : M StepResult :=
  let timeout := TIMEOUTS.npmInstall in
  try_catch
    (result ← runCommand (npm_command projectPath timeout);
     if timedOut result then
       mret (Failure ("npm install timed out after " +:+ formatDuration timeout))
     else if negb (bool_decide (code result = Some 0)) then
       mret (Failure ("npm install failed with exit code " +:+ show_code (code result)))
     else
       fs ← get_fs;
       if negb (existsSync fs (path_join projectPath "node_modules")) then
         mret (Failure "npm install completed but node_modules not found")
       else mret Success)
    (λ err, mret (Failure err)).

Definition initShadcn (projectPath : string) : M StepResult :=
  let timeout := TIMEOUTS.shadcnInit in
  try_catch
    (result ← runCommand (init_command projectPath timeout);
     if timedOut result then
       mret (Failure ("shadcn init timed out after " +:+ formatDuration timeout))
     else if negb (bool_decide (code result = Some 0)) then
       mret (Failure ("shadcn init failed with exit code " +:+ show_code (code result)))
     else mret Success)
    (λ err, mret (Failure err)).

(** The [shadcn add] command for the given names. *)
Definition add_command (projectPath : string) (names : list string) (timeout : Z) : Command :=
  {| command := "npx";
     args := ["shadcn@latest"; "add"; "--registry"; REGISTRY_URL; "--yes"; "--overwrite";
              "--cwd"; projectPath] ++ names;
     cwd := projectPath; timeout := timeout |}.

(** One [try] block around a [shadcn add] call, as written for the batch
    and for each individual install: [true] when the command exits with
    code 0, [false] when it exits otherwise or cannot be spawned. *)
Definition try_add (projectPath : string) (names : list string) (timeout : Z) : M bool :=
  try_catch
    (result ← runCommand (add_command projectPath names timeout);
     mret (bool_decide (code result = Some 0)))
    (λ _, mret false).

(** The individual fallback loop of [installComponents], over the names
    still to visit, with the two arrays built so far. *)
Fixpoint fallback (projectPath : string) (timeout startTime : Z) (names : list string)
    (installed failed : list string) : M (list string * list string) :=
  match names with
  | [] => mret (installed, failed)
  | name :: rest =>
      t ← clock;
      let elapsed := t - startTime in
      let remaining := timeout - elapsed in
      if remaining <=? 5000 then
        fallback projectPath timeout startTime rest installed (failed ++ [name])
      else
        let perComponentTimeout := Z.min 60000 remaining in
        ok ← try_add projectPath [name] perComponentTimeout;
        if ok : bool then
          fallback projectPath timeout startTime rest (installed ++ [name]) failed
        else
          fallback projectPath timeout startTime rest installed (failed ++ [name])
  end.

Record InstallResult := { success : bool; installed : list string; failed_ : list string }.

Definition installComponents_with (timeout : Z) (projectPath : string)
    (components : list string) : M InstallResult :=
  if bool_decide (components = []) then
    mret {| success := true; installed := []; failed_ := [] |}
  else
    startTime ← clock;
    batchOk ← try_add projectPath components timeout;
    if batchOk : bool then
      mret {| success := true; installed := components; failed_ := [] |}
    else
      r ← fallback projectPath timeout startTime components [] [];
      mret {| success := bool_decide (r.2 = []); installed := r.1; failed_ := r.2 |}.

Definition installComponents : string → list string → M InstallResult :=
  installComponents_with TIMEOUTS.componentInstall.

Record VerifyResult := { v_valid : bool; missing : list string; warnings : list string }.

Definition verifyProject (fs : FS) (projectPath : string) (expectedComponents : list string)
  : VerifyResult :=
  let absent rel := negb (existsSync fs (path_join projectPath rel)) in
  let missing := filter (λ rel, absent rel = true)
                   ["package.json"; "node_modules"; "src"; "vite.config.ts"] in
  let warnings1 := (λ rel, "Expected not found: " +:+ rel) <$>
                   filter (λ rel, absent rel = true)
                     ["components.json"; "src/lib/utils.ts"; "src/components/ui"] in
  let uiDir := path_join projectPath "src/components/ui" in
  let warnings2 :=
    if existsSync fs uiDir then
      (λ name, "Component file not found: src/components/ui/" +:+ name +:+ ".tsx") <$>
      filter (λ name, existsSync fs (path_join uiDir (name +:+ ".tsx")) = false)
        expectedComponents
    else [] in
  {| v_valid := bool_decide (missing = []); missing := missing;
     warnings := warnings1 ++ warnings2 |}.

Definition cleanup (projectPath : string) : M unit :=
  try_catch
    (fs ← get_fs;
     if existsSync fs projectPath then rmSync projectPath else mret tt)
    (λ _, mret tt).

(** ** lib/validator.js *)

Definition is_lower (c : ascii) : bool :=
  let n := nat_of_ascii c in (97 <=? n)%nat && (n <=? 122)%nat.
Definition is_upper (c : ascii) : bool :=
  let n := nat_of_ascii c in (65 <=? n)%nat && (n <=? 90)%nat.
Definition is_digit (c : ascii) : bool :=
  let n := nat_of_ascii c in (48 <=? n)%nat && (n <=? 57)%nat.

Fixpoint all_chars (ok : ascii → bool) (s : string) : bool :=
  match s with
  | EmptyString => true
  | String c s' => ok c && all_chars ok s'
  end.

(** [/^[a-zA-Z][a-zA-Z0-9._-]*$/.test(s)] *)
Definition project_name_ok (s : string) : bool :=
  match s with
  | EmptyString => false
  | String c s' =>
      (is_lower c || is_upper c) &&
      all_chars (λ d, is_lower d || is_upper d || is_digit d ||
                      Ascii.eqb d "."%char || Ascii.eqb d "_"%char || Ascii.eqb d "-"%char) s'
  end.

(** [/^[a-z][a-z0-9-]*$/.test(s)] *)
Definition component_name_ok (s : string) : bool :=
  match s with
  | EmptyString => false
  | String c s' =>
      is_lower c && all_chars (λ d, is_lower d || is_digit d || Ascii.eqb d "-"%char) s'
  end.

(** [[...new Set(l)]]: the distinct elements in order of first
    occurrence. *)
Definition set_of (l : list string) : list string :=
  foldl (λ seen x, if bool_decide (x ∈ seen) then seen else seen ++ [x]) [] l.

(** The properties every object inherits from [Object.prototype]. *)
Definition object_prototype_keys : list string :=
  ["constructor"; "__defineGetter__"; "__defineSetter__"; "hasOwnProperty";
   "__lookupGetter__"; "__lookupSetter__"; "isPrototypeOf"; "propertyIsEnumerable";
   "toString"; "valueOf"; "__proto__"; "toLocaleString"].

Inductive Property := Own (t : Template) | Inherited | Undefined.

(** [TEMPLATES[key]] *)
Definition TEMPLATES_get (key : string) : Property :=
  match list_find (λ kv, kv.1 = key) TEMPLATES with
  | Some (_, (_, t)) => Own t
  | None => if bool_decide (key ∈ object_prototype_keys) then Inherited else Undefined
  end.

Record Args := {
  a_projectName : string;
  a_template : string;
  a_components : list string;
  a_targetDir : string }.

Record Validation := {
  valid : bool;
  errors : list string;
  v_projectPath : string;
  resolvedComponents : list string;
  existingState : option ScaffoldState }.

Definition err_duplicates : string := "Duplicate component names detected. Remove duplicates.".

(** Step 1: the project name. *)
Definition check_name (projectName : string) : list string :=
  if bool_decide (projectName = "") then ["Project name is required."]
  else if negb (project_name_ok projectName) then
    ["Invalid project name " +:+ quoted projectName +:+ ". " +:+
     "Must start with a letter, contain only letters, digits, dots, hyphens, underscores."]
  else [].

(** Step 2: the template. *)
Definition check_template (template : string) : list string :=
  let validTemplates := (fst <$> TEMPLATES) ++ ["custom"] in
  if bool_decide (template ∈ validTemplates) then []
  else ["Invalid template " +:+ quoted template +:+ ". Must be one of: " +:+
        join ", " validTemplates].

(** Step 3: the errors and the resolved list of a custom template. *)
Definition resolve_custom (components : list string) : list string * list string :=
  if bool_decide (components = []) then
    (["Custom template requires at least one component via --components."], [])
  else if (20 <? length components)%nat then
    (["Too many components (" +:+ pretty (length components) +:+ "). Maximum is 20."], [])
  else
    let bad := (λ name, "Invalid component name " +:+ quoted name +:+
                        ". Use lowercase letters, digits, hyphens.") <$>
               filter (λ name, component_name_ok name = false) components in
    let unique := set_of components in
    let dup := if bool_decide (length unique = length components) then []
               else [err_duplicates] in
    (bad ++ dup, unique).

(** Step 4: the target directory. *)
Definition check_target (fs : FS) (resolvedTargetDir : string) : list string :=
  if negb (existsSync fs resolvedTargetDir) then
    ["Target directory does not exist: " +:+ resolvedTargetDir]
  else
    (if isDirectory fs resolvedTargetDir then []
     else ["Target path is not a directory: " +:+ resolvedTargetDir]) ++
    (if access_W_OK resolvedTargetDir then []
     else ["Target directory is not writable: " +:+ resolvedTargetDir]).

(** Step 5: what already sits at the project path. *)
Definition check_existing (fs : FS) (projectPath : string)
  : list string * option ScaffoldState :=
  if existsSync fs projectPath then
    let stateFilePath := path_join projectPath STATE_FILENAME in
    if existsSync fs stateFilePath then
      match fs_readFile fs stateFilePath with
      | inr raw =>
          match JSON_parse raw with
          | Some parsed => ([], parsed)
          | None => (["State file exists but is corrupted: " +:+ stateFilePath +:+
                      ". Delete it to start fresh."], None)
          end
      | inl _ => (["State file exists but is corrupted: " +:+ stateFilePath +:+
                   ". Delete it to start fresh."], None)
      end
    else
      (["Directory already exists: " +:+ projectPath +:+ ". " +:+
        "Delete it or choose a different project name."], None)
  else ([], None).

(** [validateInputs]; [inl] is the [TypeError] raised when the template
    names an inherited property, whose [components] is undefined.  The
    target directory comes resolved from the argument parser, so
    [path.resolve] leaves it as it is. *)
Definition validateInputs (a : Args) (fs : FS) : string + Validation :=
  let projectName := a_projectName a in
  let template := a_template a in
  let errors1 := check_name projectName in
  let errors2 := check_template template in
  let resolved : string + (list string * list string) :=
    if bool_decide (template = "custom") then inr (resolve_custom (a_components a))
    else match TEMPLATES_get template with
         | Own t => inr ([], t_components t)
         | Inherited => inl "TypeError: undefined is not iterable"
         | Undefined => inr ([], [])
         end in
  match resolved with
  | inl e => inl e
  | inr (errors3, resolvedComponents) =>
      let resolvedTargetDir := a_targetDir a in
      let errors4 := check_target fs resolvedTargetDir in
      let projectPath :=
        path_join resolvedTargetDir
          (if bool_decide (projectName = "") then "unnamed" else projectName) in
      let '(errors5, existingState) := check_existing fs projectPath in
      let errors := errors1 ++ errors2 ++ errors3 ++ errors4 ++ errors5 in
      inr {| valid := bool_decide (errors = []);
             errors := errors;
             v_projectPath := projectPath;
             resolvedComponents := resolvedComponents;
             existingState := existingState |}
  end.

(** ** index.js: the signal handler *)

(** The loop over [Object.keys(_currentState.steps)]. *)
Definition relabel_running (s : ScaffoldState) : ScaffoldState :=
  foldl (λ st key, if bool_decide (status_of st key = running)
                   then set_step key failed st else st) s Step.all.

(** What the loop does to one status. *)
Definition relabel (v : Status) : Status := if decide (v = running) then failed else v.

(** The handler of SIGINT and SIGTERM.  [currentProjectPath] is the
    global [_currentProjectPath], [None] while it is still [null]; the
    global [_currentState] is the machine's state object, set by the same
    two assignments. *)
Definition handler (sig : string) (currentProjectPath : option string) : M unit :=
  match currentProjectPath with
  | Some p =>
      if bool_decide (p = "") then mret tt
      else
        modify_state relabel_running;;
        modify_state (set_error (Some ("Interrupted by " +:+ sig)));;
        try_catch (saveState p) (λ _, mret tt)
  | None => mret tt
  end;;
  exit EXIT_CODES.FAILURE.

(** ** index.js: the pipeline *)

Definition step_viteCreate (a : Args) (projectPath : string) : M unit :=
  state ← get_state;
  if negb (bool_decide (status_of state Step.viteCreate = done)) then
    viteResult ← createViteProject (a_projectName a) (a_targetDir a);
    match viteResult with
    | Failure e =>
        cleanup projectPath;;
        modify_state (set_step Step.viteCreate failed);;
        modify_state (set_error (Some e));;
        exit EXIT_CODES.FAILURE
    | Success => updateStep projectPath Step.viteCreate done NoExtra
    end
  else mret tt.

Definition step_npmInstall (projectPath : string) : M unit :=
  state ← get_state;
  if negb (bool_decide (status_of state Step.npmInstall = done)) then
    updateStep projectPath Step.npmInstall running NoExtra;;
    npmResult ← npmInstall projectPath;
    match npmResult with
    | Failure e =>
        updateStep projectPath Step.npmInstall failed (ExtraError e);;
        state ← get_state;
        (if freshCreation state then cleanup projectPath else mret tt);;
        exit EXIT_CODES.FAILURE
    | Success => updateStep projectPath Step.npmInstall done NoExtra
    end
  else mret tt.

Definition step_shadcnInit (projectPath : string) : M unit :=
  state ← get_state;
  if negb (bool_decide (status_of state Step.shadcnInit = done)) then
    updateStep projectPath Step.shadcnInit running NoExtra;;
    initResult ← initShadcn projectPath;
    match initResult with
    | Failure e =>
        updateStep projectPath Step.shadcnInit failed (ExtraError e);;
        state ← get_state;
        (if freshCreation state then cleanup projectPath else mret tt);;
        exit EXIT_CODES.FAILURE
    | Success => updateStep projectPath Step.shadcnInit done NoExtra
    end
  else mret tt.

Definition step_componentInstall (projectPath : string) : M unit :=
  state ← get_state;
  if negb (bool_decide (status_of state Step.componentInstall = done)) then
    updateStep projectPath Step.componentInstall running NoExtra;;
    state ← get_state;
    installResult ← installComponents projectPath (components state);
    updateStep projectPath Step.componentInstall done
      (ExtraComponents (installed installResult) (failed_ installResult))
  else mret tt.

Definition step_verification (projectPath : string) : M unit :=
  state ← get_state;
  if negb (bool_decide (status_of state Step.verification = done)) then
    updateStep projectPath Step.verification running NoExtra;;
    state ← get_state;
    fs ← get_fs;
    let verifyResult := verifyProject fs projectPath (installedComponents state) in
    if negb (v_valid verifyResult) then
      updateStep projectPath Step.verification failed
        (ExtraError ("Verification failed. Missing: " +:+ join ", " (missing verifyResult)));;
      exit EXIT_CODES.FAILURE
    else updateStep projectPath Step.verification done NoExtra
  else mret tt.

(** Step 5 of [main]: success. *)
Definition finish (projectPath : string) : M unit :=
  removeState projectPath;;
  exit EXIT_CODES.SUCCESS.

Definition run_step (a : Args) (projectPath : string) (k : Step.name) : M unit :=
  match k with
  | Step.viteCreate => step_viteCreate a projectPath
  | Step.npmInstall => step_npmInstall projectPath
  | Step.shadcnInit => step_shadcnInit projectPath
  | Step.componentInstall => step_componentInstall projectPath
  | Step.verification => step_verification projectPath
  end.

(** The steps of [ks] in order, then the success epilogue. *)
Fixpoint run_steps (a : Args) (projectPath : string) (ks : list Step.name) : M unit :=
  match ks with
  | [] => finish projectPath
  | k :: ks' => run_step a projectPath k;; run_steps a projectPath ks'
  end.

(** Steps 4a to 5 of [main]. *)
Definition pipeline (a : Args) (projectPath : string) : M unit :=
  step_viteCreate a projectPath;;
  step_npmInstall projectPath;;
  step_shadcnInit projectPath;;
  step_componentInstall projectPath;;
  step_verification projectPath;;
  finish projectPath.

(** How a run of the process ends. [crashed] marks the exit taken by
    [main().catch] after an unexpected exception. *)
Record RunEnd := {
  exit_code : Z;
  crashed : bool;
  end_validation : option Validation;
  end_machine : option Machine }.

Definition main (a : Args) (fs : FS) (now : Z) : RunEnd :=
  match validateInputs a fs with
  | inl _ =>
      {| exit_code := EXIT_CODES.FAILURE; crashed := true;
         end_validation := None; end_machine := None |}
  | inr validation =>
      if negb (valid validation) then
        {| exit_code := EXIT_CODES.FAILURE; crashed := false;
           end_validation := Some validation; end_machine := None |}
      else
        let projectPath := v_projectPath validation in
        let state :=
          match existingState validation with
          | Some existing => set_freshCreation false existing
          | None => createInitialState (a_projectName a) projectPath (a_template a)
                      (resolvedComponents validation) now
          end in
        let m0 := {| m_state := state; m_fs := fs; m_now := now; m_trace := [] |} in
        match pipeline a projectPath m0 with
        | (Exit c, m) =>
            {| exit_code := c; crashed := false;
               end_validation := Some validation; end_machine := Some m |}
        | (Throw _, m) =>
            {| exit_code := EXIT_CODES.FAILURE; crashed := true;
               end_validation := Some validation; end_machine := Some m |}
        | (Ok _, m) =>
            {| exit_code := EXIT_CODES.SUCCESS; crashed := false;
               end_validation := Some validation; end_machine := Some m |}
        end
  end.

End Program.

(** ** Vocabulary of the specification *)

Section Vocabulary.
Context `{rt : Runtime}.

(** The temporary file of a persist. *)
Definition tmpPath (projectPath : string) : string := stateFilePath projectPath +:+ ".tmp".

(** The two system calls of a persist of [s] that succeeds. *)
Definition persisted (projectPath : string) (s : ScaffoldState) : list Event :=
  [EvWriteFile (tmpPath projectPath) (JSON_stringify s);
   EvRename (tmpPath projectPath) (stateFilePath projectPath)].

(** The system calls of a persist of [s], successful or not. *)
Definition persist_attempt (projectPath : string) (s : ScaffoldState) (evs : list Event)
  : Prop :=
  evs = persisted projectPath s ∨
  evs = [EvThrown (EvWriteFile (tmpPath projectPath) (JSON_stringify s))] ∨
  evs = [EvWriteFile (tmpPath projectPath) (JSON_stringify s);
         EvThrown (EvRename (tmpPath projectPath) (stateFilePath projectPath))].

(** What an observer of the file system can see during
    [saveState projectPath] started in [m], in order: the initial state,
    the temporary file growing, and the state after the rename. *)
Definition saveState_observable (projectPath : string) (m : Machine) : list FS :=
  let data := JSON_stringify (set_updatedAt (m_now m) (m_state m)) in
  match fs_writeFile (m_fs m) (tmpPath projectPath) data with
  | inl _ => [m_fs m]
  | inr fs1 =>
      m_fs m :: partial_writes (m_fs m) (tmpPath projectPath) data ++
      match fs_rename fs1 (tmpPath projectPath) (stateFilePath projectPath) with
      | inr fs2 => [fs2]
      | inl _ => []
      end
  end.

End Vocabulary.

(** The step a spawned command belongs to, read off its command line. *)
Definition spawn_kind (c : Command) : option Step.name :=
  match command c, args c with
  | "npm", _ => Some Step.npmInstall
  | "npx", "create-vite@latest" :: _ => Some Step.viteCreate
  | "npx", "shadcn@latest" :: "init" :: _ => Some Step.shadcnInit
  | "npx", "shadcn@latest" :: "add" :: _ => Some Step.componentInstall
  | _, _ => None
  end.

Definition all_done (s : ScaffoldState) : Prop := ∀ k, status_of s k = done.

(** [evs] are the events appended to the trace between [m] and [m']. *)
Definition emitted (m m' : Machine) (evs : list Event) : Prop :=
  m_trace m' = m_trace m ++ evs.

Section Summaries.
Context `{rt : Runtime}.

(** What a persist of the state of [m] guarantees. *)
Definition saved (projectPath : string) (m : Machine) (r : Res unit) (m' : Machine) : Prop :=
  m_state m' = set_updatedAt (m_now m) (m_state m) ∧
  m_now m' = m_now m ∧
  (∃ evs, emitted m m' evs ∧ persist_attempt projectPath (m_state m') evs ∧
          (r = Ok tt ↔ evs = persisted projectPath (m_state m'))) ∧
  (r = Ok tt ∨ ∃ e, r = Throw e) ∧
  (r = Ok tt →
     m_fs m' !! stateFilePath projectPath = Some (File (JSON_stringify (m_state m'))) ∧
     m_fs m !! projectPath = Some Dir) ∧
  (∀ q, q ≠ stateFilePath projectPath → q ≠ tmpPath projectPath →
        m_fs m' !! q = m_fs m !! q).

(** What running the command [c] guarantees. *)
Definition spawned (c : Command) (m m' : Machine) : Prop :=
  m_state m' = m_state m ∧
  emitted m m' [EvSpawn c] ∧
  m_fs m' = o_fs (spawn c (m_fs m) (m_now m)) ∧
  m_now m' = m_now m + Z.of_N (o_elapsed (spawn c (m_fs m) (m_now m))).

(** An event that is an attempt to install components into the project. *)
Definition is_add_spawn (projectPath : string) (ev : Event) : Prop :=
  ∃ names t, ev = EvSpawn (add_command projectPath names t).

(** What the installer guarantees for the list [comps]: it returns, it
    leaves the state object alone, it only runs [shadcn add] commands,
    and the two lists it returns hold the elements of [comps]. *)
Definition installs (projectPath : string) (comps : list string) (m : Machine)
    (r : Res InstallResult) (m' : Machine) : Prop :=
  ∃ res evs,
    r = Ok res ∧
    m_state m' = m_state m ∧
    emitted m m' evs ∧
    Forall (is_add_spawn projectPath) evs ∧
    installed res ++ failed_ res ≡ₚ comps ∧
    success res = bool_decide (failed_ res = []).

End Summaries.

(** [wp c m Q]: the result and the final machine of [c] run from [m]
    satisfy [Q]. *)
Definition wp {A} (c : M A) (m : Machine) (Q : Res A → Machine → Prop) : Prop :=
  Q (c m).1 (c m).2.

(** The events a step may give rise to: commands of its own kind, and
    no removal of the checkpoint by [unlink]. *)
Definition event_of_step (k : Step.name) (ev : Event) : Prop :=
  match ev with
  | EvSpawn c => spawn_kind c = Some k
  | EvUnlink _ => False
  | _ => True
  end.

(** What every step guarantees: the statuses of the other steps, the
    state fields fixed at creation, the events, and the status it leaves
    for each way of ending. *)
Definition step_summary (k : Step.name) (m : Machine) (r : Res unit) (m' : Machine) : Prop :=
  (∀ k', k' ≠ k → status_of (m_state m') k' = status_of (m_state m) k') ∧
  components (m_state m') = components (m_state m) ∧
  freshCreation (m_state m') = freshCreation (m_state m) ∧
  (∃ evs, emitted m m' evs ∧ Forall (event_of_step k) evs) ∧
  match r with
  | Ok _ => status_of (m_state m') k = done
  | Exit c => c = EXIT_CODES.FAILURE ∧ status_of (m_state m') k = failed
  | Throw _ => True
  end.

(** The shape of a step that marks itself running before it acts.
    Either the first persist throws and nothing else happens, or the
    trace is: the persist of the state marked running, the events of
    the action (described by [action]), the persist of the final state,
    and possibly the removal of the project directory, which may fail;
    the final state has the step done, or failed with an error message
    attached. *)
Definition marked_run `{rt : Runtime} (projectPath : string) (k : Step.name)
    (action : list Event → Prop) (m : Machine) (r : Res unit) (m' : Machine) : Prop :=
  let s1 := set_updatedAt (m_now m) (set_step k running (m_state m)) in
  (∃ e first,
      r = Throw e ∧ emitted m m' first ∧ persist_attempt projectPath s1 first ∧
      first ≠ persisted projectPath s1 ∧ m_state m' = s1)
  ∨
  (∃ acts final cl,
      emitted m m' (persisted projectPath s1 ++ acts ++ final ++ cl) ∧
      action acts ∧
      persist_attempt projectPath (m_state m') final ∧
      (r = Ok tt → final = persisted projectPath (m_state m')) ∧
      (cl = [] ∨ cl = [EvRm projectPath] ∨ cl = [EvThrown (EvRm projectPath)]) ∧
      (status_of (m_state m') k = done ∧ cl = [] ∧ (r = Ok tt ∨ ∃ e, r = Throw e)
       ∨ status_of (m_state m') k = failed ∧ is_Some (error (m_state m')) ∧
         (r = Exit EXIT_CODES.FAILURE ∨ ∃ e, r = Throw e))).

(** The shape of the bootstrap step: the command comes first, with no
    mark and no persist before it; on success the state marked done is
    persisted, on failure the step is marked failed with the error in
    memory only, after the cleanup. *)
Definition bootstrap_run `{rt : Runtime} (a : Args) (projectPath : string)
    (m : Machine) (r : Res unit) (m' : Machine) : Prop :=
  let c := {| command := "npx";
              args := ["create-vite@latest"; a_projectName a; "--template"; "react-ts"];
              cwd := a_targetDir a; timeout := 120000 |} in
  (∃ final,
      emitted m m' (EvSpawn c :: final) ∧
      persist_attempt projectPath (m_state m') final ∧
      status_of (m_state m') Step.viteCreate = done ∧
      (r = Ok tt ∧ final = persisted projectPath (m_state m') ∨ ∃ e, r = Throw e))
  ∨
  (∃ cl,
      emitted m m' (EvSpawn c :: cl) ∧
      (cl = [] ∨ cl = [EvRm projectPath] ∨ cl = [EvThrown (EvRm projectPath)]) ∧
      status_of (m_state m') Step.viteCreate = failed ∧
      is_Some (error (m_state m')) ∧
      r = Exit EXIT_CODES.FAILURE).

(** The action of the component step is the Installer Strategy: [acts]
    are the events of [installComponents], run for the components of the
    state from the machine that the persist of the running mark leaves,
    and the two lists it returns are the ones of the final state.  With
    nothing to install it does nothing; otherwise its first event is the
    batch command for all the components, with the budget of 5
    minutes. *)
Definition installer_run `{rt : Runtime} (projectPath : string) (m : Machine)
    (acts : list Event) (m' : Machine) : Prop :=
  let m1 := (updateStep projectPath Step.componentInstall running NoExtra m).2 in
  let comps := components (m_state m) in
  ∃ res m2,
    installComponents projectPath comps m1 = (Ok res, m2) ∧
    emitted m1 m2 acts ∧
    installedComponents (m_state m') = installed res ∧
    failedComponents (m_state m') = failed_ res ∧
    (comps = [] → acts = []) ∧
    (comps ≠ [] →
     ∃ rest,
       acts = EvSpawn {| command := "npx";
                         args := ["shadcn@latest"; "add"; "--registry"; REGISTRY_URL;
                                  "--yes"; "--overwrite"; "--cwd"; projectPath] ++ comps;
                         cwd := projectPath; timeout := 300000 |} :: rest).

(** The shape of each step of the pipeline. *)
Definition step_shape `{rt : Runtime} (a : Args) (projectPath : string) (k : Step.name)
    (m : Machine) (r : Res unit) (m' : Machine) : Prop :=
  match k with
  | Step.viteCreate => bootstrap_run a projectPath m r m'
  | Step.npmInstall =>
      marked_run projectPath k
        (λ acts, acts = [EvSpawn {| command := "npm"; args := ["install"];
                                    cwd := projectPath; timeout := 120000 |}]) m r m'
  | Step.shadcnInit =>
      marked_run projectPath k
        (λ acts, acts = [EvSpawn {| command := "npx";
                                    args := ["shadcn@latest"; "init"; "--yes"; "--defaults";
                                             "--force"; "--cwd"; projectPath];
                                    cwd := projectPath; timeout := 60000 |}]) m r m'
  | Step.componentInstall =>
      marked_run projectPath k (λ acts, installer_run projectPath m acts m') m r m'
  | Step.verification => marked_run projectPath k (λ acts, acts = []) m r m'
  end.

Definition no_unlink (evs : list Event) : Prop := ∀ q, EvUnlink q ∉ evs.

(** An attempt to remove a directory tree, successful or not, and a
    trace without any. *)
Definition is_rm (ev : Event) : Prop := ∃ q, ev = EvRm q ∨ ev = EvThrown (EvRm q).

Definition no_rm (evs : list Event) : Prop := ∀ ev, ev ∈ evs → ¬ is_rm ev.

(** The events of the success epilogue: the checkpoint is unlinked, or
    the call throws. *)
Definition event_of_finish (projectPath : string) (ev : Event) : Prop :=
  ev = EvUnlink (path_join projectPath STATE_FILENAME) ∨
  ev = EvThrown (EvUnlink (path_join projectPath STATE_FILENAME)).

(** What running the steps [ks] and the epilogue guarantees: the events
    come from these steps or from the epilogue; the run never falls
    through; it exits with SUCCESS having every step of [ks] done and
    the checkpoint gone, or with FAILURE having a failed step and without
    having unlinked anything; an exception also leaves the checkpoint
    in place. *)
Definition steps_summary (projectPath : string) (ks : list Step.name) (m : Machine)
    (r : Res unit) (m' : Machine) : Prop :=
  ∃ evs,
    emitted m m' evs ∧
    Forall (λ ev, (∃ k, k ∈ ks ∧ event_of_step k ev) ∨ event_of_finish projectPath ev) evs ∧
    match r with
    | Ok _ => False
    | Exit c =>
        (c = EXIT_CODES.SUCCESS ∧
         (∀ k, k ∈ ks → status_of (m_state m') k = done) ∧
         (∀ k, k ∉ ks → status_of (m_state m') k = status_of (m_state m) k) ∧
         m_fs m' !! path_join projectPath STATE_FILENAME = None) ∨
        (c = EXIT_CODES.FAILURE ∧
         (∃ k, k ∈ ks ∧ status_of (m_state m') k = failed) ∧
         no_unlink evs)
    | Throw _ => no_unlink evs
    end.

(** ** A small runtime for examples *)

Module Demo.

Definition show_status (s : Status) : string :=
  match s with
  | pending => "pending" | running => "running" | done => "done" | failed => "failed"
  end.

(** A line-per-field rendering of the fields the pipeline changes. *)
Definition stringify (s : ScaffoldState) : string :=
  join "; " ((λ k, show_status (status_of s k)) <$> Step.all) +:+ " | " +:+
  join "," (installedComponents s) +:+ " | " +:+
  join "," (failedComponents s) +:+ " | " +:+
  default "null" (error s).

(** A parser that reads back the documents of the states in [known],
    reads [null] as the falsy value it is, and rejects every other
    document. *)
Definition parse (known : list ScaffoldState) (raw : string) : option (option ScaffoldState) :=
  if bool_decide (raw = "null") then Some None
  else match list_find (λ s, stringify s = raw) known with
       | Some (_, s) => Some (Some s)
       | None => None
       end.

Definition runtime (known : list ScaffoldState) (world : Command → FS → Z → Outcome)
  : Runtime :=
  {| JSON_stringify := stringify; JSON_parse := parse known;
     access_W_OK := λ _, true; rm_fault := λ _ _, None; spawn := world |}.

(** The same on a file system that refuses removals: [rmSync] throws
    having removed nothing. *)
Definition locked (known : list ScaffoldState) (world : Command → FS → Z → Outcome)
  : Runtime :=
  {| JSON_stringify := stringify; JSON_parse := parse known;
     access_W_OK := λ _, true;
     rm_fault := λ _ _, Some ("EACCES: permission denied", λ _, true);
     spawn := world |}.

Definition ends (code : Z) (fs : FS) (elapsed : N) : Outcome :=
  {| o_term := Closed (Some code) None; o_fs := fs; o_elapsed := elapsed |}.

(** The tree a successful bootstrap, dependency install and tool init
    leave behind. *)
Definition scaffold (projectPath : string) (fs : FS) : FS :=
  <[path_join projectPath "vite.config.ts" := File "export default {}"]>
  (<[path_join projectPath "src" := Dir]>
  (<[path_join projectPath "node_modules" := Dir]>
  (<[path_join projectPath "package.json" := File "{}"]>
  (<[projectPath := Dir]> fs)))).

(** A world in which every command succeeds after one second. *)
Definition all_succeed (projectPath : string) (c : Command) (fs : FS) (now : Z) : Outcome :=
  ends 0 (scaffold projectPath fs) 1000.


(** A world in which every command exits with code 1. *)
Definition all_fail (c : Command) (fs : FS) (now : Z) : Outcome := ends 1 fs 500.

(** A world in which a command succeeds only when started at instant
    1000: with the clock at 0 on entry, the batch install fails after
    one second, the first individual install succeeds and the later
    ones fail. *)
Definition second_only (c : Command) (fs : FS) (now : Z) : Outcome :=
  if now =? 1000 then ends 0 fs 1000 else ends 1 fs 1000.

Definition work : FS := {[ "/work" := Dir ]}.

Definition my_app : Args :=
  {| a_projectName := "my-app"; a_template := "minimal"; a_components := [];
     a_targetDir := "/work" |}.

(** A checkpoint whose bootstrap step is [first] and whose other
    steps are pending. *)
Definition checkpoint (first : Status) : ScaffoldState :=
  set_step Step.viteCreate first
    (createInitialState "my-app" "/work/my-app" "minimal"
       ["button"; "card"; "badge"; "input"] 0).

(** A project directory left by an earlier run, with its checkpoint
    and a file of the user's. *)
Definition resumable (first : Status) : FS :=
  <["/work/my-app/notes.txt" := File "keep me"]>
  (<[stateFilePath "/work/my-app" := File (stringify (checkpoint first))]>
  (<["/work/my-app/package.json" := File "{}"]>
  (<["/work/my-app" := Dir]> work))).

(** A project directory whose checkpoint file holds the document
    [null], and a file of the user's. *)
Definition nulled : FS :=
  <["/work/my-app/notes.txt" := File "keep me"]>
  (<[stateFilePath "/work/my-app" := File "null"]>
  (<["/work/my-app" := Dir]> work)).

Definition machine (s : ScaffoldState) (fs : FS) : Machine :=
  {| m_state := s; m_fs := fs; m_now := 0; m_trace := [] |}.

(** The same, late in the installer's budget. *)
Definition late_machine (s : ScaffoldState) (fs : FS) : Machine :=
  {| m_state := s; m_fs := fs; m_now := 296000; m_trace := [] |}.






(** A world in which every command hangs until its timeout ends it. *)
Definition hanging (c : Command) (fs : FS) (now : Z) : Outcome :=
  {| o_term := Closed None (Some "SIGTERM"); o_fs := fs; o_elapsed := Z.to_N (timeout c) |}.

End Demo.

(** * The rest of the program *)

(** ** lib/state.js: reading the checkpoint back *)

(** [fs.readFileSync(p, 'utf8')]; a read leaves no trace. *)
Definition readFileSync (p : string) : M string :=
  λ m, match fs_readFile (m_fs m) p with
       | inr data => (Ok data, m)
       | inl e => (Throw e, m)
       end.

Section Loading.
Context `{rt : Runtime}.

(** [loadState]: [None] is [null] (there is no file) or the falsy value
    the document stands for; the [SyntaxError] of [JSON.parse] is
    thrown on to the caller. *)
Definition loadState (projectPath : string) : M (option ScaffoldState) :=
  let filePath := stateFilePath projectPath in
  fs ← get_fs;
  if negb (existsSync fs filePath) then mret None
  else
    raw ← readFileSync filePath;
    match JSON_parse raw with
    | Some parsed => mret parsed
    | None => throw "SyntaxError: Unexpected token in JSON"
    end.

End Loading.

(** ** Vocabulary for the command wrappers of lib/executor.js *)


(** ** Vocabulary for [verifyProject] *)

(** The paths whose absence fails the verification, and the warning
    issued for a component whose file is absent. *)
Definition blocking_paths : list string :=
  ["package.json"; "node_modules"; "src"; "vite.config.ts"].

Definition component_warning (name : string) : string :=
  "Component file not found: src/components/ui/" +:+ name +:+ ".tsx".

(** ** Vocabulary for the installer *)

(** Every command ends, or is ended, within its timeout. *)
Definition honours_timeouts `{rt : Runtime} : Prop :=
  ∀ c fs now, 0 ≤ timeout c → Z.of_N (o_elapsed (spawn c fs now)) ≤ timeout c.

(** ** Vocabulary for the commands of a run *)

(** A [shadcn add] command of the project at [projectPath] installs
    names of [comps] only. *)
Definition adds_only (projectPath : string) (comps : list string) (ev : Event) : Prop :=
  ∀ c, ev = EvSpawn c → spawn_kind c = Some Step.componentInstall →
       ∃ names t, c = add_command projectPath names t ∧ names ⊆ comps.

(** ** index.js: the command line *)

(** [s.split(',')] *)
Fixpoint split_comma (s : string) : list string :=
  match s with
  | EmptyString => [""]
  | String c s' =>
      if Ascii.eqb c ","%char then "" :: split_comma s'
      else match split_comma s' with
           | x :: l => String c x :: l
           | [] => [String c ""]
           end
  end.

(** The white space and line terminators of ECMAScript among the code
    units below 256: TAB, LF, VT, FF, CR, SP and NBSP. *)
Definition is_white (c : ascii) : bool :=
  let n := nat_of_ascii c in
  ((9 <=? n) && (n <=? 13) || (n =? 32) || (n =? 160))%nat.

Fixpoint trimStart (s : string) : string :=
  match s with
  | EmptyString => ""
  | String c s' => if is_white c then trimStart s' else s
  end.

Fixpoint trimEnd (s : string) : string :=
  match s with
  | EmptyString => ""
  | String c s' =>
      match trimEnd s' with
      | EmptyString => if is_white c then "" else String c ""
      | t => String c t
      end
  end.

(** [s.trim()] *)
Definition trim (s : string) : string := trimEnd (trimStart s).

(** A character that is neither a comma nor white space. *)
Definition plain (c : ascii) : bool := negb (Ascii.eqb c ",") && negb (is_white c).

(** The options and positionals [parseArgs] returns, defaults filled in. *)
Record CLIValues := {
  cli_template : string;
  cli_components : string;
  cli_target : string;
  cli_help : bool }.

(** The list built from the value of [--components]:
    [value ? value.split(',').map(s => s.trim()).filter(Boolean) : []]. *)
Definition parse_components (value : string) : list string :=
  if bool_decide (value = "") then []
  else filter (λ s, s ≠ "") (trim <$> split_comma value).

(** [parseCLIArgs] from what [parseArgs] returns; [resolve] is
    [path.resolve] in the current working directory.  An exception of
    [parseArgs] (an unknown option, in strict mode) is the caller's. *)
Definition parseCLIArgs (resolve : string → string) (values : CLIValues)
    (positionals : list string) : Res Args :=
  if cli_help values || bool_decide (positionals = []) then
    Exit (if bool_decide (positionals = []) && negb (cli_help values)
          then EXIT_CODES.FAILURE else EXIT_CODES.SUCCESS)
  else
    Ok {| a_projectName := default "" (head positionals);
          a_template := cli_template values;
          a_components := parse_components (cli_components values);
          a_targetDir := resolve (cli_target values) |}.

(** ** index.js: the process *)



(** ** index.js: the summary *)

Definition esc : string := String (ascii_of_nat 27) "".
Definition newline : string := String (ascii_of_nat 10) "".

(** [s.repeat(n)] *)
Fixpoint str_repeat (s : string) (n : nat) : string :=
  match n with
  | O => ""
  | S n' => s +:+ str_repeat s n'
  end.

Definition stepLabels : list (Step.name * string) :=
  [ (Step.viteCreate, "Vite project creation");
    (Step.npmInstall, "npm install");
    (Step.shadcnInit, "shadcn/ui init");
    (Step.componentInstall, "Component installation");
    (Step.verification, "Project verification") ].

Definition statusIcons (s : Status) : string :=
  match s with
  | done => esc +:+ "[32m DONE " +:+ esc +:+ "[0m"
  | failed => esc +:+ "[31m FAIL " +:+ esc +:+ "[0m"
  | pending => esc +:+ "[2m SKIP " +:+ esc +:+ "[0m"
  | running => esc +:+ "[33m ABRT " +:+ esc +:+ "[0m"
  end.

(** The three headlines of the summary. *)
Definition headline (state : ScaffoldState) : string :=
  let allDone := forallb (λ k, bool_decide (status_of state k = done)) Step.all in
  if allDone && bool_decide (failedComponents state = []) then
    "  PROJECT SCAFFOLDED SUCCESSFULLY"
  else if allDone then "  PROJECT CREATED (with warnings)"
  else "  SCAFFOLDING INCOMPLETE".

(** [printSummary]: the lines it logs, one per call of [console.log]. *)
Definition printSummary (state : ScaffoldState) : list string :=
  let elapsed := updatedAt state - startedAt state in
  let hr := str_repeat "=" 55 in
  let allDone := forallb (λ k, bool_decide (status_of state k = done)) Step.all in
  [newline +:+ hr; headline state; hr;
   "  Project:    " +:+ projectName state;
   "  Path:       " +:+ projectPath state;
   "  Template:   " +:+ template state;
   "  Duration:   " +:+ formatDuration elapsed;
   "";
   "  Steps:"] ++
  ((λ kl, "    " +:+ statusIcons (status_of state kl.1) +:+ " " +:+ kl.2) <$> stepLabels) ++
  (if bool_decide (installedComponents state = []) then []
   else [""; "  Installed (" +:+ pretty (length (installedComponents state)) +:+ "):"] ++
        ((λ name, "    " +:+ esc +:+ "[32m+" +:+ esc +:+ "[0m " +:+ name) <$>
         installedComponents state)) ++
  (if bool_decide (failedComponents state = []) then []
   else [""; "  Failed (" +:+ pretty (length (failedComponents state)) +:+ "):"] ++
        ((λ name, "    " +:+ esc +:+ "[31m!" +:+ esc +:+ "[0m " +:+ name) <$>
         failedComponents state)) ++
  (match error state with
   | Some e => if bool_decide (e = "") then []
               else [""; "  " +:+ esc +:+ "[31mError: " +:+ e +:+ esc +:+ "[0m"]
   | None => []
   end) ++
  [hr] ++
  (if allDone then
     [""; "  Next steps:"; "    cd " +:+ projectName state; "    npm run dev"; "";
      "  Add more components:";
      "    npx shadcn@latest add --registry " +:+ REGISTRY_URL +:+ " [component]"; ""]
   else []).

(** The summary [main] prints before it exits: each exit of the pipeline
    comes right after [printSummary(state)]; a failed validation, an
    unexpected exception and the signal handler print none. *)
Definition printed_summary (e : RunEnd) : option (list string) :=
  match end_machine e with
  | Some m => if crashed e then None else Some (printSummary (m_state m))
  | None => None
  end.

(** ** Vocabulary for a world in which the tools work *)

(** The commands run in a trace, in order. *)
Definition commands_of (evs : list Event) : list Command :=
  omap (λ ev, match ev with EvSpawn c => Some c | _ => None end) evs.

(** The checkpoint can be written into the project directory: the
    directory is there and nothing but a file sits at the path of the
    checkpoint or of its temporary file. *)
Definition writable_checkpoint (projectPath : string) (fs : FS) : Prop :=
  fs !! projectPath = Some Dir ∧
  fs !! stateFilePath projectPath ≠ Some Dir ∧
  fs !! tmpPath projectPath ≠ Some Dir.

(** What the bootstrap creates in the project directory. *)
Definition bootstrap_paths : list string := ["package.json"; "src"; "vite.config.ts"].

(** What a command needs to find: the bootstrap, no project directory
    yet; the dependency install, the project directory with what the
    bootstrap creates; the tool init and the component installs, the
    project directory with the four blocking paths. *)
Definition ready (projectPath : string) (c : Command) (fs : FS) : Prop :=
  match spawn_kind c with
  | Some Step.viteCreate => fs !! projectPath = None
  | Some Step.npmInstall =>
      fs !! projectPath = Some Dir ∧
      ∀ rel, rel ∈ bootstrap_paths → is_Some (fs !! path_join projectPath rel)
  | _ =>
      fs !! projectPath = Some Dir ∧
      ∀ rel, rel ∈ blocking_paths → is_Some (fs !! path_join projectPath rel)
  end.

(** The tools work: a command that finds what it needs exits with code
    0; the bootstrap then leaves the project directory with its three
    paths, and the dependency install leaves [node_modules]; no command
    removes the project directory or a blocking path that is there, and
    none touches the checkpoint or its temporary file. *)
Definition cooperative `{rt : Runtime} (projectPath : string) : Prop :=
  ∀ c fs now,
    let o := spawn c fs now in
    (ready projectPath c fs → ∃ sig, o_term o = Closed (Some 0) sig) ∧
    (fs !! projectPath = Some Dir → o_fs o !! projectPath = Some Dir) ∧
    (∀ rel, rel ∈ blocking_paths → is_Some (fs !! path_join projectPath rel) →
            is_Some (o_fs o !! path_join projectPath rel)) ∧
    (spawn_kind c = Some Step.viteCreate → ready projectPath c fs →
       o_fs o !! projectPath = Some Dir ∧
       ∀ rel, rel ∈ bootstrap_paths → is_Some (o_fs o !! path_join projectPath rel)) ∧
    (spawn_kind c = Some Step.npmInstall → ready projectPath c fs →
       is_Some (o_fs o !! path_join projectPath "node_modules")) ∧
    o_fs o !! stateFilePath projectPath = fs !! stateFilePath projectPath ∧
    o_fs o !! tmpPath projectPath = fs !! tmpPath projectPath.

(** What a step leaves behind when the tools work: it returns; the
    checkpoint is on disk and can be written again; the paths [paths]
    are there; the step is done; the other statuses and the component
    list are as before, and so are the two result lists unless the step
    is the component step; [cmds] are the commands it ran. *)
Definition step_succeeds (p : string) (k : Step.name) (paths : list string)
    (cmds : list Command) (m : Machine) (r : Res unit) (m' : Machine) : Prop :=
  r = Ok tt ∧
  writable_checkpoint p (m_fs m') ∧
  (∃ d, m_fs m' !! stateFilePath p = Some (File d)) ∧
  (∀ rel, rel ∈ paths → is_Some (m_fs m' !! path_join p rel)) ∧
  status_of (m_state m') k = done ∧
  (∀ k', k' ≠ k → status_of (m_state m') k' = status_of (m_state m) k') ∧
  components (m_state m') = components (m_state m) ∧
  (k ≠ Step.componentInstall →
   installedComponents (m_state m') = installedComponents (m_state m) ∧
   failedComponents (m_state m') = failedComponents (m_state m)) ∧
  commands_of (m_trace m') = commands_of (m_trace m) ++ cmds.

(** Tools that work in stages, for the project at [projectPath]: the
    bootstrap creates the project directory with its three paths, unless
    the directory is there already; the dependency install adds
    [node_modules] to a bootstrapped project; the tool init and the
    component installs succeed in a project that has the four blocking
    paths; a command that does not find what it needs exits with code 1
    and changes nothing. *)
Definition staged_tools (projectPath : string) (c : Command) (fs : FS) (now : Z) : Outcome :=
  let has rel := existsSync fs (path_join projectPath rel) in
  match spawn_kind c with
  | Some Step.viteCreate =>
      if existsSync fs projectPath then Demo.ends 1 fs 500
      else Demo.ends 0
             (<[path_join projectPath "vite.config.ts" := File "export default {}"]>
             (<[path_join projectPath "src" := Dir]>
             (<[path_join projectPath "package.json" := File "{}"]>
             (<[projectPath := Dir]> fs)))) 1000
  | Some Step.npmInstall =>
      if isDirectory fs projectPath && forallb has bootstrap_paths then
        Demo.ends 0 (<[path_join projectPath "node_modules" := Dir]> fs) 1000
      else Demo.ends 1 fs 500
  | _ =>
      if isDirectory fs projectPath && forallb has blocking_paths then Demo.ends 0 fs 1000
      else Demo.ends 1 fs 500
  end.

(** ** Vocabulary for the time stamps *)

(** The two time stamps of the state are in order and not in the future
    of the machine's clock. *)
Definition stamps_ordered (m : Machine) : Prop :=
  startedAt (m_state m) ≤ updatedAt (m_state m) ≤ m_now m.
(** * Proofs *)

(** ** Strings and paths *)

Lemma string_app_cons (c : ascii) (s t : string) : String c s +:+ t = String c (s +:+ t).
Proof. reflexivity. Qed.

Lemma string_app_nil_l (t : string) : "" +:+ t = t.
Proof. reflexivity. Qed.

Lemma string_length_app (s t : string) :
  String.length (s +:+ t) = (String.length s + String.length t)%nat.
Proof.
  induction s as [|c s IH]; [done|].
  rewrite string_app_cons. simpl. by rewrite IH.
Qed.

Lemma string_app_ne (s t : string) : t ≠ "" → s +:+ t ≠ s.
Proof.
  intros Ht Heq. apply (f_equal String.length) in Heq.
  rewrite string_length_app in Heq.
  destruct t; [done | simpl in Heq; lia].
Qed.

Lemma string_app_nil_r (s : string) : s +:+ "" = s.
Proof. induction s as [|c s IH]; [done|]. by rewrite string_app_cons, IH. Qed.

Lemma string_app_assoc (s t u : string) : (s +:+ t) +:+ u = s +:+ (t +:+ u).
Proof. induction s as [|c s IH]; [done|]. by rewrite !string_app_cons, IH. Qed.

Lemma substring_all (s : string) : String.substring 0 (String.length s) s = s.
Proof. induction s as [|c s IH]; simpl; [done | by rewrite IH]. Qed.

Lemma parent_of_app (d f q : string) :
  parent_of f = Some q → parent_of (d +:+ f) = Some (d +:+ q).
Proof.
  intros Hf. induction d as [|c d IH]; [done|].
  rewrite !string_app_cons. simpl. by rewrite IH.
Qed.

Lemma parent_join (d f : string) : parent_of f = None → parent (path_join d f) = d.
Proof.
  intros Hf. unfold parent, path_join.
  rewrite (parent_of_app d ("/" +:+ f) "").
  - simpl. apply string_app_nil_r.
  - rewrite string_app_cons, string_app_nil_l. simpl. by rewrite Hf.
Qed.

(** ** The monad *)

Section Monad.
Context {A B : Type}.
Implicit Types (m : Machine).

Lemma wp_ret (a : A) m Q : Q (Ok a) m → wp (mret a) m Q.
Proof. done. Qed.

Lemma wp_bind (c : M A) (k : A → M B) m Q :
  wp c m (λ r m1, match r with
                  | Ok a => wp (k a) m1 Q
                  | Exit z => Q (Exit z) m1
                  | Throw e => Q (Throw e) m1
                  end) →
  wp (c ≫= k) m Q.
Proof.
  unfold wp, mbind, M_mbind, M_bind. by destruct (c m) as [[a|z|e] m1].
Qed.

Lemma wp_try_catch (c : M A) (h : string → M A) m Q :
  wp c m (λ r m1, match r with
                  | Throw e => wp (h e) m1 Q
                  | _ => Q r m1
                  end) →
  wp (try_catch c h) m Q.
Proof. unfold wp, try_catch. by destruct (c m) as [[a|z|e] m1]. Qed.

Lemma wp_conseq (c : M A) m (Q Q' : Res A → Machine → Prop) :
  wp c m Q → (∀ r m', Q r m' → Q' r m') → wp c m Q'.
Proof. unfold wp. auto. Qed.

Lemma wp_eqn (c : M A) m (Q : Res A → Machine → Prop) :
  (∀ r m', c m = (r, m') → Q r m') → wp c m Q.
Proof. intros H. unfold wp. destruct (c m) as [r m'] eqn:Heq. by apply H. Qed.

Lemma wp_exit z m (Q : Res A → Machine → Prop) : Q (Exit z) m → wp (exit z) m Q.
Proof. done. Qed.

End Monad.

Lemma wp_get_state m Q : Q (Ok (m_state m)) m → wp get_state m Q.
Proof. done. Qed.

Lemma wp_get_fs m Q : Q (Ok (m_fs m)) m → wp get_fs m Q.
Proof. done. Qed.

Lemma wp_clock m Q : Q (Ok (m_now m)) m → wp clock m Q.
Proof. done. Qed.

Lemma wp_modify_state f m Q : Q (Ok tt) (with_state f m) → wp (modify_state f) m Q.
Proof. done. Qed.

Lemma wp_syscall ev op m (Q : Res unit → Machine → Prop) :
  (∀ fs', op (m_fs m) = inr fs' →
     Q (Ok tt) {| m_state := m_state m; m_fs := fs'; m_now := m_now m;
                  m_trace := m_trace m ++ [ev] |}) →
  (∀ e, op (m_fs m) = inl e →
     Q (Throw e) {| m_state := m_state m; m_fs := m_fs m; m_now := m_now m;
                    m_trace := m_trace m ++ [EvThrown ev] |}) →
  wp (syscall ev op) m Q.
Proof. unfold wp, syscall. intros H1 H2. destruct (op (m_fs m)); eauto. Qed.

Lemma emitted_refl m : emitted m m [].
Proof. unfold emitted. by rewrite app_nil_r. Qed.

Lemma emitted_trans m1 m2 m3 e1 e2 :
  emitted m1 m2 e1 → emitted m2 m3 e2 → emitted m1 m3 (e1 ++ e2).
Proof. unfold emitted. intros H1 H2. by rewrite H2, H1, app_assoc. Qed.

(** Symbolic execution of a computation, one construct at a time. *)
Ltac wp_step :=
  lazymatch goal with
  | |- wp (mret _) _ _ => apply wp_ret
  | |- wp (mbind _ _) _ _ => apply wp_bind
  | |- wp (try_catch _ _) _ _ => apply wp_try_catch
  | |- wp get_state _ _ => apply wp_get_state
  | |- wp get_fs _ _ => apply wp_get_fs
  | |- wp clock _ _ => apply wp_clock
  | |- wp (modify_state _) _ _ => apply wp_modify_state
  | |- wp (exit _) _ _ => apply wp_exit
  | |- wp (syscall _ _) _ _ => apply wp_syscall; intros ? ?
  | |- wp (if ?b then _ else _) _ _ => destruct b eqn:?
  | |- wp (match ?x with _ => _ end) _ _ => destruct x eqn:?
  end; cbv beta iota zeta.

Ltac wp_run := repeat wp_step.

(** Projections of the machines built along the way. *)
Ltac norm :=
  unfold with_state in *; cbn [m_state m_fs m_now m_trace fst snd] in *.

(** ** The validator *)

Lemma set_of_from (seen l : list string) :
  NoDup seen →
  let r := foldl (λ seen x, if bool_decide (x ∈ seen) then seen else seen ++ [x]) seen l in
  NoDup r ∧ (∀ x, x ∈ r ↔ x ∈ seen ∨ x ∈ l) ∧
  (length r ≤ length seen + length l)%nat ∧
  (length r = (length seen + length l)%nat → NoDup l ∧ ∀ x, x ∈ l → x ∉ seen).
Proof.
  revert seen. induction l as [|y l IH]; intros seen Hnd; cbn [foldl].
  { split_and!; [done | | lia |].
    - intros x. rewrite elem_of_nil. tauto.
    - intros _. split; [constructor | by intros x ?%elem_of_nil]. }
  case_bool_decide as Hy.
  - destruct (IH seen Hnd) as (Hn & Hel & Hle & _). split_and!; [done | | simpl; lia |].
    + intros x. rewrite Hel, elem_of_cons. split; [tauto|].
      intros [?|[->|?]]; tauto.
    + simpl. lia.
  - assert (NoDup (seen ++ [y])) as Hnd'.
    { apply NoDup_app. split_and!; [done | | apply NoDup_singleton].
      intros x Hx ->%list_elem_of_singleton. done. }
    destruct (IH _ Hnd') as (Hn & Hel & Hle & Hfull).
    rewrite length_app in Hle, Hfull. simpl in *.
    split_and!; [done | | lia |].
    + intros x. rewrite Hel, elem_of_app, list_elem_of_singleton, elem_of_cons. tauto.
    + intros Hlen. destruct Hfull as [Hl Hns]; [lia|]. split.
      * constructor; [|done]. intros Hin. apply (Hns _ Hin). apply elem_of_app. right.
        by apply list_elem_of_singleton.
      * intros x [->|Hx]%elem_of_cons; [done|].
        intros Hs. apply (Hns _ Hx). apply elem_of_app. by left.
Qed.



Lemma set_of_length_eq l : length (set_of l) = length l → NoDup l.
Proof.
  destruct (set_of_from [] l) as (_ & _ & _ & Hfull); [constructor|].
  intros H. by apply Hfull.
Qed.


Section Verification.
Context `{rt : Runtime}.

Lemma tmpPath_ne p : tmpPath p ≠ stateFilePath p.
Proof. by apply string_app_ne. Qed.

Lemma parent_stateFilePath p : parent (stateFilePath p) = p.
Proof. by apply parent_join. Qed.

Lemma parent_tmpPath p : parent (tmpPath p) = p.
Proof.
  unfold tmpPath, stateFilePath, path_join. rewrite !string_app_assoc.
  by apply (parent_join p (STATE_FILENAME +:+ ".tmp")).
Qed.

Lemma partial_writes_other (fs : FS) p q data fs' :
  p ≠ q → fs' ∈ partial_writes fs p data → fs' !! q = fs !! q.
Proof.
  intros Hne [n [-> _]]%list_elem_of_fmap. by rewrite lookup_insert_ne.
Qed.

Lemma partial_writes_last (fs : FS) p data :
  last (partial_writes fs p data) = Some (<[p := File data]> fs).
Proof.
  unfold partial_writes. rewrite seq_S, fmap_app. simpl.
  by rewrite last_snoc, substring_all.
Qed.

Lemma fs_writeFile_other (fs fs' : FS) p data q :
  fs_writeFile fs p data = inr fs' → p ≠ q → fs' !! q = fs !! q.
Proof.
  unfold fs_writeFile. intros H Hne.
  repeat case_match; simplify_eq; by rewrite lookup_insert_ne.
Qed.

Lemma fs_writeFile_inr (fs fs' : FS) p data :
  fs_writeFile fs p data = inr fs' → fs' = <[p := File data]> fs ∧ fs !! parent p = Some Dir.
Proof. unfold fs_writeFile. intros H. repeat case_match; simplify_eq; done. Qed.

Lemma fs_unlink_inr (fs fs' : FS) p : fs_unlink fs p = inr fs' → fs' = delete p fs.
Proof. unfold fs_unlink. intros H. repeat case_match; by simplify_eq. Qed.

Lemma fs_rename_inr (fs fs' : FS) old new :
  fs_rename fs old new = inr fs' →
  ∃ d, fs !! old = Some (File d) ∧ fs' = <[new := File d]> (delete old fs).
Proof. unfold fs_rename. intros H. repeat case_match; simplify_eq; eauto. Qed.

Lemma fs_writeFile_tmp (fs fs' : FS) p data :
  fs_writeFile fs (tmpPath p) data = inr fs' → fs !! p = Some Dir.
Proof. intros [_ H]%fs_writeFile_inr. by rewrite parent_tmpPath in H. Qed.

Lemma saveState_saved p m : wp (saveState p) m (saved p m).
Proof.
  pose proof (tmpPath_ne p) as Hne.
  unfold saveState, writeFileSync, renameSync.
  change (stateFilePath p +:+ ".tmp") with (tmpPath p).
  wp_run; unfold saved, emitted, persist_attempt, persisted; norm.
  - apply fs_writeFile_tmp in H as Hdir.
    apply fs_writeFile_inr in H as [-> _].
    apply fs_rename_inr in H0 as (d & Hd & ->).
    rewrite lookup_insert_eq in Hd. simplify_eq.
    split_and!; try done.
    + eexists; split_and!; [by rewrite <- app_assoc | by left | done].
    + by left.
    + intros _. by rewrite lookup_insert_eq.
    + intros q Hq1 Hq2. by rewrite lookup_insert_ne, lookup_delete_ne, lookup_insert_ne.
  - apply fs_writeFile_inr in H as [-> _].
    split_and!; try done.
    + eexists; split_and!; [by rewrite <- app_assoc | by right; right | done].
    + right; eauto.
    + intros q Hq1 Hq2. by rewrite lookup_insert_ne.
  - split_and!; try done.
    + eexists; split_and!; [done | by right; left | done].
    + right; eauto.
Qed.

Lemma updateStep_saved p k v x m :
  wp (updateStep p k v x) m (saved p (with_state (assign x) (with_state (set_step k v) m))).
Proof. unfold updateStep. wp_run. apply saveState_saved. Qed.

(** A persist that does not succeed leaves the checkpoint as it was. *)
Lemma saveState_failed_keeps p m :
  (saveState p m).1 ≠ Ok tt →
  m_fs (saveState p m).2 !! stateFilePath p = m_fs m !! stateFilePath p.
Proof.
  pose proof (tmpPath_ne p) as Hne.
  unfold saveState, mbind, M_mbind, M_bind, clock, modify_state, get_state, writeFileSync,
    renameSync, syscall, with_state; cbn [fst snd m_state m_fs m_now m_trace].
  change (stateFilePath p +:+ ".tmp") with (tmpPath p).
  destruct (fs_writeFile (m_fs m) (tmpPath p) _) as [e|fs1] eqn:Hw;
    cbn [fst snd m_state m_fs m_now m_trace]; [done|].
  destruct (fs_writeFile_inr _ _ _ _ Hw) as [-> _].
  destruct (fs_rename _ (tmpPath p) (stateFilePath p)) as [e|fs2] eqn:Hr;
    cbn [fst snd m_state m_fs m_now m_trace]; [|done].
  intros _. by rewrite lookup_insert_ne.
Qed.

(** ** The executor *)

Lemma wp_runCommand c m (Q : Res RunResult → Machine → Prop) :
  (∀ r m', spawned c m m' → (∀ z, r ≠ Exit z) → Q r m') → wp (runCommand c) m Q.
Proof.
  intros H. unfold wp, runCommand.
  destruct (o_term _); apply H; unfold spawned, emitted; done.
Qed.

Ltac wp_command :=
  unfold createViteProject, npmInstall, initShadcn, try_add;
  apply wp_try_catch; apply wp_bind; apply wp_runCommand;
  intros [res|z|e] m' Hsp Hz; [|by destruct (Hz z)|];
  wp_run; eauto.

Lemma createViteProject_spawned name dir m :
  wp (createViteProject name dir) m
     (λ r m', (∃ res, r = Ok res) ∧
              spawned (vite_command name dir TIMEOUTS.viteCreate) m m').
Proof. wp_command. Qed.

Lemma npmInstall_spawned p m :
  wp (npmInstall p) m
     (λ r m', (∃ res, r = Ok res) ∧ spawned (npm_command p TIMEOUTS.npmInstall) m m').
Proof. wp_command. Qed.

Lemma initShadcn_spawned p m :
  wp (initShadcn p) m
     (λ r m', (∃ res, r = Ok res) ∧ spawned (init_command p TIMEOUTS.shadcnInit) m m').
Proof. wp_command. Qed.

Lemma try_add_spawned p names t m :
  wp (try_add p names t) m
     (λ r m', (∃ ok, r = Ok ok) ∧ spawned (add_command p names t) m m').
Proof. wp_command. Qed.

Lemma wp_rmSync p m (Q : Res unit → Machine → Prop) :
  (rm_fault (m_fs m) p = None →
   Q (Ok tt) {| m_state := m_state m; m_fs := fs_rmTree (m_fs m) p; m_now := m_now m;
                m_trace := m_trace m ++ [EvRm p] |}) →
  (∀ e kept, rm_fault (m_fs m) p = Some (e, kept) →
   Q (Throw e) {| m_state := m_state m; m_fs := fs_rmPart (m_fs m) p kept;
                  m_now := m_now m; m_trace := m_trace m ++ [EvThrown (EvRm p)] |}) →
  wp (rmSync p) m Q.
Proof.
  intros Hok Hfault. unfold wp, rmSync.
  destruct (rm_fault (m_fs m) p) as [[e kept]|]; cbn [fst snd]; auto.
Qed.

Lemma fs_rmTree_root (fs : FS) p : fs_rmTree fs p !! p = None.
Proof.
  apply map_lookup_filter_None. right. intros x _. simpl.
  unfold inside. by rewrite String.eqb_refl.
Qed.

Lemma fs_rmPart_root (fs : FS) p kept : fs_rmPart fs p kept !! p = fs !! p.
Proof.
  unfold fs_rmPart. destruct (fs !! p) as [node|] eqn:Hp.
  - apply map_lookup_filter_Some. split; [done|]. simpl. auto.
  - apply map_lookup_filter_None. by left.
Qed.

(** [cleanup] returns normally in every case: there was nothing at the
    path, or the tree has been removed, or the removal failed, its error
    was swallowed and the path is still there. *)
Lemma cleanup_removes p m :
  wp (cleanup p) m
     (λ r m', r = Ok tt ∧ m_state m' = m_state m ∧ m_now m' = m_now m ∧
              (emitted m m' [] ∧ m_fs m' = m_fs m ∧ m_fs m' !! p = None ∨
               emitted m m' [EvRm p] ∧ m_fs m' = fs_rmTree (m_fs m) p ∧
                 m_fs m' !! p = None ∨
               emitted m m' [EvThrown (EvRm p)] ∧
                 (∃ e kept, rm_fault (m_fs m) p = Some (e, kept) ∧
                            m_fs m' = fs_rmPart (m_fs m) p kept) ∧
                 is_Some (m_fs m' !! p))).
Proof.
  unfold cleanup. apply wp_try_catch, wp_bind, wp_get_fs. cbv beta iota.
  destruct (existsSync (m_fs m) p) eqn:Hex.
  - apply wp_rmSync.
    + intros _. norm. split_and!; try done. right; left.
      split_and!; [done | done | apply fs_rmTree_root].
    + intros e kept Hf. apply wp_ret. norm. split_and!; try done. right; right.
      split_and!; [done | by exists e, kept |].
      rewrite fs_rmPart_root. unfold existsSync in Hex. by destruct (m_fs m !! p).
  - apply wp_ret. split_and!; try done. left.
    split_and!; [apply emitted_refl | done |].
    unfold existsSync in Hex. by destruct (m_fs m !! p).
Qed.

Lemma try_add_outcome p names t m :
  let c := add_command p names t in
  ∃ ok m', try_add p names t m = (Ok ok, m') ∧ spawned c m m' ∧
           (ok = true ↔ ∃ sig, o_term (spawn c (m_fs m) (m_now m)) = Closed (Some 0) sig).
Proof.
  intros c. unfold try_add, try_catch, mbind, M_mbind, M_bind, runCommand. fold c.
  destruct (o_term (spawn c (m_fs m) (m_now m))) as [z sig|e] eqn:Ht; cbn [code].
  - eexists _, _. split; [reflexivity|]. split; [by unfold spawned, emitted|].
    rewrite bool_decide_eq_true. split; [intros ->; by eexists | by intros [? [= ->]]].
  - eexists _, _. split; [reflexivity|]. split; [by unfold spawned, emitted|].
    split; [done | by intros [? ?]].
Qed.

Lemma spawned_add_emitted p names t m m' :
  spawned (add_command p names t) m m' →
  ∃ evs, emitted m m' evs ∧ Forall (is_add_spawn p) evs ∧ m_state m' = m_state m.
Proof.
  intros (Hst & Hev & _). exists [EvSpawn (add_command p names t)].
  split_and!; [done | | done]. constructor; [|constructor]. by exists names, t.
Qed.

Lemma fallback_installs p T s names inst fl m :
  wp (fallback p T s names inst fl) m
     (λ r m', ∃ i f evs, r = Ok (i, f) ∧ m_state m' = m_state m ∧ emitted m m' evs ∧
                         Forall (is_add_spawn p) evs ∧ i ++ f ≡ₚ (inst ++ fl) ++ names).
Proof.
  revert inst fl m. induction names as [|name rest IH]; intros inst fl m; simpl.
  - wp_run. exists inst, fl, []. rewrite app_nil_r. split_and!; try done.
    apply emitted_refl.
  - wp_run.
    + eapply wp_conseq; [apply IH|]. intros r m' (i & f & evs & -> & ? & ? & ? & Hp).
      exists i, f, evs. split_and!; try done. rewrite Hp. solve_Permutation.
    + eapply wp_conseq; [apply try_add_spawned|].
      intros r m1 [[ok ->] Hsp].
      apply spawned_add_emitted in Hsp as (ev1 & Hev1 & Hall1 & Hst1).
      destruct ok; (eapply wp_conseq; [apply IH|]);
        intros r m' (i & f & evs & -> & Hst & Hev & Hall & Hp);
        exists i, f, (ev1 ++ evs); (split_and!;
          [done | congruence | by eapply emitted_trans | by apply Forall_app
          | rewrite Hp; solve_Permutation]).
Qed.

Lemma installComponents_installs T p comps m :
  wp (installComponents_with T p comps) m (installs p comps m).
Proof.
  unfold installComponents_with, installs. wp_step.
  { wp_run. apply bool_decide_eq_true in Heqb as ->.
    exists {| success := true; installed := []; failed_ := [] |}, [].
    split_and!; try done. apply emitted_refl. }
  apply wp_bind, wp_clock. cbv beta iota.
  apply wp_bind. eapply wp_conseq; [apply try_add_spawned|].
  intros r m1 [[ok ->] Hsp].
  apply spawned_add_emitted in Hsp as (ev1 & Hev1 & Hall1 & Hst1).
  destruct ok.
  - wp_run. exists {| success := true; installed := comps; failed_ := [] |}, ev1.
    simpl. rewrite app_nil_r. done.
  - apply wp_bind. eapply wp_conseq; [apply fallback_installs|].
    intros r m' (i & f & evs & -> & Hst & Hev & Hall & Hp). wp_run.
    eexists _, (ev1 ++ evs). simpl.
    split_and!; [done | congruence | by eapply emitted_trans | by apply Forall_app
                | by rewrite Hp | done].
Qed.

(** The individual installs of the fallback loop: [att] lists the names
    it runs a command for, each with the timeout of its command. *)
Lemma fallback_attempts p T s names inst fl m :
  wp (fallback p T s names inst fl) m
     (λ r m', ∃ i' f' (att : list (string * Z)),
        r = Ok (inst ++ i', fl ++ f') ∧ m_state m' = m_state m ∧
        sublist i' (att.*1) ∧ sublist (att.*1) names ∧ sublist f' names ∧
        emitted m m' ((λ nt, EvSpawn (add_command p [nt.1] nt.2)) <$> att) ∧
        Forall (λ nt, 5000 < nt.2 ≤ 60000) att).
Proof.
  revert inst fl m. induction names as [|name rest IH]; intros inst fl m; simpl.
  - wp_run. exists [], [], []. rewrite !app_nil_r.
    split_and!; try done. apply emitted_refl.
  - wp_run.
    + eapply wp_conseq; [apply IH|].
      intros r m' (i' & f' & att & -> & Hst & Hi & Ha & Hf & Hev & Hall).
      exists i', (name :: f'), att. rewrite <- app_assoc.
      split_and!; [done | done | done | by apply sublist_cons | by apply sublist_skip
                  | done | done].
    + apply Z.leb_gt in Heqb.
      eapply wp_conseq; [apply try_add_spawned|].
      intros r m1 [[ok ->] (Hst1 & Hev1 & _)].
      set (t := Z.min 60000 (T - (m_now m - s))) in *.
      destruct ok; (eapply wp_conseq; [apply IH|]);
        intros r m' (i' & f' & att & -> & Hst & Hi & Ha & Hf & Hev & Hall).
      * exists (name :: i'), f', ((name, t) :: att). rewrite <- app_assoc.
        split_and!; [done | congruence | by apply sublist_skip | by apply sublist_skip
                    | by apply sublist_cons
                    | by apply (emitted_trans _ _ _ [_] _ Hev1 Hev) |].
        constructor; [simpl; lia | done].
      * exists i', (name :: f'), ((name, t) :: att). rewrite <- app_assoc.
        split_and!; [done | congruence | by apply sublist_cons | by apply sublist_skip
                    | by apply sublist_skip
                    | by apply (emitted_trans _ _ _ [_] _ Hev1 Hev) |].
        constructor; [simpl; lia | done].
Qed.

(** The commands of the installer: none with nothing to install;
    otherwise the batch command and then, when it fails, the individual
    commands of the fallback. *)
Lemma installComponents_trace T p comps m :
  wp (installComponents_with T p comps) m
     (λ r m', ∃ res evs,
        r = Ok res ∧ m_state m' = m_state m ∧ emitted m m' evs ∧
        sublist (installed res) comps ∧ sublist (failed_ res) comps ∧
        (comps = [] ∧ evs = [] ∨
         comps ≠ [] ∧
         ∃ att : list (string * Z),
           evs = EvSpawn (add_command p comps T) ::
                 ((λ nt, EvSpawn (add_command p [nt.1] nt.2)) <$> att) ∧
           sublist (att.*1) comps ∧
           Forall (λ nt, 5000 < nt.2 ≤ 60000) att ∧
           (installed res = comps ∧ failed_ res = [] ∧ att = [] ∨
            sublist (installed res) (att.*1)))).
Proof.
  unfold installComponents_with. wp_step.
  { wp_run. apply bool_decide_eq_true in Heqb as ->. eexists _, []. simpl.
    split_and!; [done.. | apply emitted_refl | done | done | by left]. }
  apply bool_decide_eq_false in Heqb.
  apply wp_bind, wp_clock. cbv beta iota.
  apply wp_bind. eapply wp_conseq; [apply try_add_spawned|].
  intros r m1 [[ok ->] (Hst1 & Hev1 & _)]. destruct ok.
  - wp_run. eexists _, _. simpl.
    split_and!; [done | done | done | done | apply sublist_nil_l |].
    right. split; [done|]. exists [].
    split_and!; [done | apply sublist_nil_l | constructor | by left].
  - apply wp_bind. eapply wp_conseq; [apply fallback_attempts|].
    intros r m' (i' & f' & att & -> & Hst & Hi & Ha & Hf & Hev & Hall). wp_run.
    eexists _, _. simpl.
    split_and!; [done | congruence | by apply (emitted_trans _ _ _ [_] _ Hev1 Hev)
                | by etrans | done |].
    right. split; [done|]. exists att. split_and!; [done | done | done | by right].
Qed.

(** ** The steps *)

Lemma saved_no_exit p m z m' : saved p m (Exit z) m' → False.
Proof. intros (_ & _ & _ & [?|[? ?]] & _); done. Qed.

Ltac wp_call :=
  lazymatch goal with
  | |- wp (updateStep _ _ _ _) _ _ =>
      eapply wp_conseq; [apply updateStep_saved|];
      intros [[]|?|?] ? ?Hsaved; [| by exfalso; eapply saved_no_exit |]
  | |- wp (cleanup _) _ _ =>
      eapply wp_conseq; [apply cleanup_removes|];
      intros ? ? (-> & ?Hst & ?Hnow & ?Hcl)
  | |- wp (createViteProject _ _) _ _ =>
      eapply wp_conseq; [apply createViteProject_spawned|]; intros ? ? [[? ->] ?Hsp]
  | |- wp (npmInstall _) _ _ =>
      eapply wp_conseq; [apply npmInstall_spawned|]; intros ? ? [[? ->] ?Hsp]
  | |- wp (initShadcn _) _ _ =>
      eapply wp_conseq; [apply initShadcn_spawned|]; intros ? ? [[? ->] ?Hsp]
  | |- wp (installComponents _ _) _ _ =>
      eapply wp_conseq; [apply installComponents_installs|];
      intros ? ? (? & ? & -> & ?Hst & ?Hev & ?Hadd & ?Hperm & ?Hsucc)
  end; cbv beta iota zeta.

Ltac wp_auto := repeat (wp_step || wp_call).

Lemma persist_attempt_events p s evs k :
  persist_attempt p s evs → Forall (event_of_step k) evs.
Proof. intros [->|[->| ->]]; repeat constructor. Qed.

Lemma add_spawn_events p evs :
  Forall (is_add_spawn p) evs → Forall (event_of_step Step.componentInstall) evs.
Proof. intros H. eapply Forall_impl; [done|]. by intros ev (names & t & ->). Qed.

(** Unpack the summaries collected along a path. *)
Ltac open_facts :=
  repeat match goal with
  | H : saved _ _ _ _ |- _ =>
      destruct H as (?Hst & ?Hnow & (? & ?Hev & ?Hatt & ?Hiff) & _ & ?Hfs & ?Hfr)
  | H : spawned _ _ _ |- _ => destruct H as (?Hst & ?Hev & ?Hspfs & ?Hnow)
  | H : _ ∧ _ ∧ _ ∨ _ ∧ _ ∧ _ ∨ _ ∧ _ ∧ _ |- _ =>
      destruct H as [(?Hev & ?Hclfs & ?Hgone)|[(?Hev & ?Hclfs & ?Hgone)
                                               |(?Hev & ?Hclfs & ?Hgone)]]
  end;
  unfold emitted in *; norm.

(** Express the final state, clock or trace in terms of the initial ones. *)
Ltac back_state := repeat match goal with H : m_state _ = _ |- _ => rewrite H end.
Ltac back_now := repeat match goal with H : m_now _ = _ |- _ => rewrite H end.
Ltac back_trace :=
  repeat match goal with H : m_trace _ = _ |- _ => rewrite H end;
  rewrite <- ?app_assoc.

Ltac solve_events :=
  unfold emitted; eexists; split;
    [back_trace; first [reflexivity | symmetry; apply app_nil_r]|];
  repeat first
    [ apply Forall_nil
    | apply Forall_app; split
    | apply Forall_cons; split
    | by eapply persist_attempt_events
    | by eapply add_spawn_events; eassumption
    | done ].

(** The guard [status !== 'done'] read as a proposition. *)
Ltac read_guard :=
  repeat match goal with
  | H : negb (bool_decide _) = true |- _ =>
      apply negb_true_iff, bool_decide_eq_false in H
  | H : negb (bool_decide _) = false |- _ =>
      apply negb_false_iff, bool_decide_eq_true in H
  end.

Ltac solve_summary :=
  read_guard; open_facts; unfold step_summary; split_and!;
  first
    [ by back_state
    | by intros k' Hk'; back_state; destruct k'
    | solve_events
    | by split; [|back_state] ].

Lemma step_viteCreate_summary a p m :
  wp (step_viteCreate a p) m (step_summary Step.viteCreate m).
Proof. unfold step_viteCreate. wp_auto; norm; solve_summary. Qed.

Lemma step_npmInstall_summary p m :
  wp (step_npmInstall p) m (step_summary Step.npmInstall m).
Proof. unfold step_npmInstall. wp_auto; norm; solve_summary. Qed.

Lemma step_shadcnInit_summary p m :
  wp (step_shadcnInit p) m (step_summary Step.shadcnInit m).
Proof. unfold step_shadcnInit. wp_auto; norm; solve_summary. Qed.

Lemma step_componentInstall_summary p m :
  wp (step_componentInstall p) m (step_summary Step.componentInstall m).
Proof. unfold step_componentInstall. wp_auto; norm; solve_summary. Qed.

Lemma step_verification_summary p m :
  wp (step_verification p) m (step_summary Step.verification m).
Proof. unfold step_verification. wp_auto; norm; solve_summary. Qed.

Lemma run_step_summary a p k m : wp (run_step a p k) m (step_summary k m).
Proof.
  destruct k; simpl;
    auto using step_viteCreate_summary, step_npmInstall_summary, step_shadcnInit_summary,
      step_componentInstall_summary, step_verification_summary.
Qed.

(** ** The shape of the steps *)

Lemma saved_ok p m m' :
  saved p m (Ok tt) m' →
  m_state m' = set_updatedAt (m_now m) (m_state m) ∧
  m_now m' = m_now m ∧
  m_trace m' = m_trace m ++ persisted p (set_updatedAt (m_now m) (m_state m)).
Proof.
  intros (Hst & Hnow & (evs & Hev & _ & Hiff) & _). rewrite <- Hst.
  split_and!; [done..|]. by rewrite <- (proj1 Hiff eq_refl).
Qed.

Lemma saved_throw p m e m' :
  saved p m (Throw e) m' →
  m_state m' = set_updatedAt (m_now m) (m_state m) ∧
  m_now m' = m_now m ∧
  ∃ evs, m_trace m' = m_trace m ++ evs ∧
         persist_attempt p (set_updatedAt (m_now m) (m_state m)) evs ∧
         evs ≠ persisted p (set_updatedAt (m_now m) (m_state m)).
Proof.
  intros (Hst & Hnow & (evs & Hev & Hatt & Hiff) & _). rewrite <- Hst.
  split_and!; [done..|]. exists evs. split_and!; [done..|].
  intros Heq. by apply Hiff in Heq.
Qed.

Ltac chain_hyps :=
  repeat match goal with
  | H : m_state ?a = _, H' : context [m_state ?a] |- _ => rewrite H in H'
  | H : m_now ?a = _, H' : context [m_now ?a] |- _ => rewrite H in H'
  | H : m_trace ?a = _, H' : context [m_trace ?a] |- _ => rewrite H in H'
  end;
  rewrite <- ?app_assoc in *.

Ltac open_shape :=
  repeat match goal with
  | H : saved _ _ (Ok tt) _ |- _ => apply saved_ok in H as (?Hst & ?Hnow & ?Hev)
  | H : saved _ _ (Throw _) _ |- _ =>
      apply saved_throw in H as (?Hst & ?Hnow & ? & ?Hev & ?Hatt & ?Hne)
  | H : spawned _ _ _ |- _ => destruct H as (?Hst & ?Hev & _ & ?Hnow)
  | H : _ ∧ _ ∧ _ ∨ _ ∧ _ ∧ _ ∨ _ ∧ _ ∧ _ |- _ =>
      destruct H as [(?Hev & _)|[(?Hev & _)|(?Hev & _)]]
  end;
  unfold emitted in *; norm; cbn [assign] in *; chain_hyps.

(** The trace of the final machine, read off its equation. *)
Ltac final_trace :=
  unfold emitted; cbn [m_state m_fs m_now m_trace];
  lazymatch goal with
  | H : m_trace ?mf = _ |- m_trace ?mf = _ => etrans; [exact H|]
  end;
  cbn [app]; first [reflexivity | by rewrite app_nil_r].

Ltac final_state :=
  lazymatch goal with
  | H : m_state ?mf = _ |- context [m_state ?mf] => rewrite H
  | _ => idtac
  end.

Ltac shape_with acts cl :=
  right; exists acts; eexists; exists cl;
  split; [final_trace|];
  split_and!;
  [ done
  | first [by left; final_state | by final_state]
  | intros; first [by final_state | done]
  | first [by left | by right; left | by right; right]
  | first
      [ left; split_and!; [by final_state | done | first [by left | right; eauto]]
      | right; split_and!; [by final_state | by final_state; eexists
                           | first [by left | right; eauto]] ] ].

Ltac shape_thrown :=
  left; do 2 eexists;
  split_and!; [reflexivity | eassumption | eassumption | eassumption | done].

Lemma step_npmInstall_shape p m :
  status_of (m_state m) Step.npmInstall ≠ done →
  wp (step_npmInstall p) m
     (marked_run p Step.npmInstall
        (λ acts, acts = [EvSpawn (npm_command p TIMEOUTS.npmInstall)]) m).
Proof.
  intros Hnd. unfold step_npmInstall. wp_auto; norm; read_guard; try done.
  all: open_shape; unfold marked_run.
  all: first [ shape_thrown
             | shape_with [EvSpawn (npm_command p TIMEOUTS.npmInstall)] [EvRm p]
             | shape_with [EvSpawn (npm_command p TIMEOUTS.npmInstall)] [EvThrown (EvRm p)]
             | shape_with [EvSpawn (npm_command p TIMEOUTS.npmInstall)] (@nil Event) ].
Qed.

Lemma step_shadcnInit_shape p m :
  status_of (m_state m) Step.shadcnInit ≠ done →
  wp (step_shadcnInit p) m
     (marked_run p Step.shadcnInit
        (λ acts, acts = [EvSpawn (init_command p TIMEOUTS.shadcnInit)]) m).
Proof.
  intros Hnd. unfold step_shadcnInit. wp_auto; norm; read_guard; try done.
  all: open_shape; unfold marked_run.
  all: first [ shape_thrown
             | shape_with [EvSpawn (init_command p TIMEOUTS.shadcnInit)] [EvRm p]
             | shape_with [EvSpawn (init_command p TIMEOUTS.shadcnInit)] [EvThrown (EvRm p)]
             | shape_with [EvSpawn (init_command p TIMEOUTS.shadcnInit)] (@nil Event) ].
Qed.

Lemma step_componentInstall_shape p m :
  status_of (m_state m) Step.componentInstall ≠ done →
  wp (step_componentInstall p) m
     (λ r m', marked_run p Step.componentInstall
                (λ acts, installer_run p m acts m') m r m').
Proof.
  intros Hnd. unfold step_componentInstall.
  apply wp_bind, wp_get_state. cbv beta iota.
  rewrite bool_decide_eq_false_2 by done. cbn [negb].
  apply wp_bind, wp_eqn. intros r1 m1 Hrun1.
  pose proof (updateStep_saved p Step.componentInstall running NoExtra m) as Hsaved1.
  unfold wp in Hsaved1. rewrite Hrun1 in Hsaved1. cbn [fst snd] in Hsaved1.
  destruct r1 as [[]|z|e]; [| by exfalso; eapply saved_no_exit |].
  2:{ open_shape. unfold marked_run. shape_thrown. }
  apply wp_bind, wp_get_state. cbv beta iota.
  assert (components (m_state m1) = components (m_state m)) as Hc.
  { destruct Hsaved1 as (-> & _). done. }
  rewrite Hc.
  apply wp_bind, wp_eqn. intros r2 m2 Hrun2.
  pose proof (installComponents_trace TIMEOUTS.componentInstall p
                (components (m_state m)) m1) as Htr.
  unfold wp in Htr. fold installComponents in Htr. rewrite Hrun2 in Htr.
  cbn [fst snd] in Htr.
  destruct Htr as (res & evs & -> & Hst2 & Hev2 & _ & _ & Hcmds).
  assert (∀ m', installedComponents (m_state m') = installed res →
                failedComponents (m_state m') = failed_ res →
                installer_run p m evs m') as Hrun.
  { intros m' Hi Hf. unfold installer_run. rewrite Hrun1. cbn [snd].
    exists res, m2. split_and!; [done..| |].
    - intros Hnil. by destruct Hcmds as [[_ ?]|[? _]].
    - intros Hne. destruct Hcmds as [[? _]|(_ & att & -> & _)]; [done|]. by eexists. }
  wp_call; open_shape; unfold marked_run.
  - right. exists evs. eexists. exists []. split; [final_trace|].
    split_and!; [apply Hrun; by final_state | by left; final_state
                | intros; by final_state | by left |].
    left. split_and!; [by final_state | done | by left].
  - right. exists evs. eexists. exists []. split; [final_trace|].
    split_and!; [apply Hrun; by final_state | by final_state
                | intros; done | by left |].
    left. split_and!; [by final_state | done | right; eauto].
Qed.

Lemma step_verification_shape p m :
  status_of (m_state m) Step.verification ≠ done →
  wp (step_verification p) m (marked_run p Step.verification (λ acts, acts = []) m).
Proof.
  intros Hnd. unfold step_verification. wp_auto; norm; read_guard; try done.
  all: open_shape; unfold marked_run.
  all: first [ shape_thrown | shape_with (@nil Event) (@nil Event) ].
Qed.

Lemma step_viteCreate_shape a p m :
  status_of (m_state m) Step.viteCreate ≠ done →
  wp (step_viteCreate a p) m (bootstrap_run a p m).
Proof.
  intros Hnd. unfold step_viteCreate. wp_auto; norm; read_guard; try done.
  all: open_shape; unfold bootstrap_run; norm.
  - left. eexists. split; [final_trace|].
    split_and!; [left; by final_state | by final_state | left; split; [done | by final_state]].
  - left. eexists. split; [final_trace|].
    split_and!; [by final_state | by final_state | right; eauto].
  - right. exists []. split; [final_trace|].
    split_and!; [by left | by final_state | by final_state; eexists | done].
  - right. exists [EvRm p]. split; [final_trace|].
    split_and!; [by right; left | by final_state | by final_state; eexists | done].
  - right. exists [EvThrown (EvRm p)]. split; [final_trace|].
    split_and!; [by right; right | by final_state | by final_state; eexists | done].
Qed.

(** ** The pipeline *)

Lemma pipeline_run_steps a p : pipeline a p = run_steps a p Step.all.
Proof. reflexivity. Qed.

Lemma run_step_done a p k m :
  status_of (m_state m) k = done → run_step a p k m = (Ok tt, m).
Proof.
  intros H. destruct k; simpl;
    unfold step_viteCreate, step_npmInstall, step_shadcnInit, step_componentInstall,
      step_verification, mbind, M_mbind, M_bind, get_state;
    rewrite H; reflexivity.
Qed.

Lemma run_step_result a p k m :
  step_summary k m (run_step a p k m).1 (run_step a p k m).2.
Proof. apply run_step_summary. Qed.

Lemma run_steps_skip a p k ks m :
  status_of (m_state m) k = done →
  run_steps a p ks m = run_steps a p (filter (λ k', k' ≠ k) ks) m.
Proof.
  revert m. induction ks as [|k' ks IH]; intros m Hk; [done|].
  rewrite filter_cons. destruct (decide (k' ≠ k)) as [Hne|Heq%dec_stable].
  - simpl. unfold mbind, M_mbind, M_bind.
    pose proof (run_step_result a p k' m) as (Hother & _).
    destruct (run_step a p k' m) as [[[]|z|e] m1]; [|done..].
    apply IH. simpl in Hother. rewrite Hother; [done | congruence].
  - subst k'. rewrite <- IH by done. simpl. unfold mbind, M_mbind, M_bind.
    by rewrite run_step_done.
Qed.

Lemma no_unlink_app evs1 evs2 : no_unlink evs1 → no_unlink evs2 → no_unlink (evs1 ++ evs2).
Proof. intros H1 H2 q [?|?]%elem_of_app; [by eapply H1 | by eapply H2]. Qed.

Lemma events_no_unlink k evs : Forall (event_of_step k) evs → no_unlink evs.
Proof.
  intros H q Hin. rewrite Forall_forall in H. by apply H in Hin.
Qed.

Lemma finish_summary p m : wp (finish p) m (steps_summary p [] m).
Proof.
  unfold finish, removeState, unlinkSync, stateFilePath. wp_run; norm; unfold steps_summary.
  - apply fs_unlink_inr in H as ->.
    exists [EvUnlink (path_join p STATE_FILENAME)]. split_and!; [done | |].
    + apply Forall_singleton. right. by left.
    + left. split_and!; [done | by intros k ?%elem_of_nil | done |].
      norm. apply lookup_delete_eq.
  - exists [EvThrown (EvUnlink (path_join p STATE_FILENAME))]. split_and!; [done | |].
    + apply Forall_singleton. right. by right.
    + intros q [Hq|Hq%elem_of_nil]%elem_of_cons; done.
  - exists []. split_and!; [apply emitted_refl | constructor |].
    left. split_and!; [done | by intros k ?%elem_of_nil | done |].
    unfold existsSync in Heqb. by destruct (m_fs m !! _).
Qed.

Lemma run_steps_summary a p ks m : wp (run_steps a p ks) m (steps_summary p ks m).
Proof.
  revert m. induction ks as [|k ks IH]; intros m; [apply finish_summary|].
  simpl. apply wp_bind. eapply wp_conseq; [apply run_step_summary|].
  intros r m1 (Hother & _ & _ & (evs1 & Hev1 & Hall1) & Hres).
  assert (Forall (λ ev, (∃ k', k' ∈ k :: ks ∧ event_of_step k' ev) ∨ event_of_finish p ev) evs1)
    as Hall1'.
  { eapply Forall_impl; [done|]. intros ev ?. left. exists k. split; [left | done]. }
  destruct r as [[]|z|e].
  - eapply wp_conseq; [apply IH|].
    intros r m' (evs2 & Hev2 & Hall2 & Hres2). exists (evs1 ++ evs2).
    split_and!; [by eapply emitted_trans | |].
    { apply Forall_app. split; [done|]. eapply Forall_impl; [done|].
      intros ev [(k' & ? & ?)|?]; [left | by right]. exists k'. split; [by right | done]. }
    destruct r as [[]|z|e]; [done | |].
    + destruct Hres2 as [(-> & Hdone & Hkeep & Hfs)|(-> & (k' & Hin & Hf) & Hno)].
      * left. split_and!; [done | | | done].
        -- intros k' [->|Hin]%elem_of_cons; [|by apply Hdone].
           destruct (decide (k ∈ ks)) as [?|Hnotin]; [by apply Hdone|].
           by rewrite (Hkeep _ Hnotin).
        -- intros k' Hnotin. apply not_elem_of_cons in Hnotin as [? ?].
           rewrite Hkeep by done. by apply Hother.
      * right. split_and!; [done | |].
        -- exists k'. split; [by right | done].
        -- apply no_unlink_app; [by eapply events_no_unlink | done].
    + apply no_unlink_app; [by eapply events_no_unlink | done].
  - exists evs1. destruct Hres as [-> Hf]. split_and!; [done..|].
    right. split_and!; [done | | by eapply events_no_unlink].
    exists k. split; [by left | done].
  - exists evs1. split_and!; [done..|]. by eapply events_no_unlink.
Qed.

(** C6, as amended: every step other than the bootstrap that is not
    already done is marked running and persisted, then its action runs,
    then it is marked done, or failed with an error message, and
    persisted again.  The action is one command for the dependency
    install ([npm install]) and for the tool init ([npx shadcn@latest
    init]), nothing but file checks for the verification, and for the
    component step the Installer Strategy: the events are those of
    [installComponents] run on the components of the state, starting
    with the batch command unless there is nothing to install, and its
    two lists are stored in the state.  The bootstrap step runs its
    command first, without mark or persist, is marked done and persisted
    on success, and is marked failed with the error in memory only on
    failure. *)
Theorem steps_mark_persist_act_persist (a : Args) (p : string) (k : Step.name) (m : Machine) :
  status_of (m_state m) k ≠ done →
  wp (run_step a p k) m (step_shape a p k m).
Proof.
  intros Hnd. destruct k; simpl.
  - by apply step_viteCreate_shape.
  - by apply step_npmInstall_shape.
  - by apply step_shadcnInit_shape.
  - by apply step_componentInstall_shape.
  - by apply step_verification_shape.
Qed.

(** ** Resuming *)

Lemma emitted_inj m m' evs1 evs2 : emitted m m' evs1 → emitted m m' evs2 → evs1 = evs2.
Proof. unfold emitted. intros -> ?. by eapply app_inv_head. Qed.

Lemma steps_spawn_kind p (ks : list Step.name) evs c :
  Forall (λ ev, (∃ k, k ∈ ks ∧ event_of_step k ev) ∨ event_of_finish p ev) evs →
  EvSpawn c ∈ evs → ∃ k, k ∈ ks ∧ spawn_kind c = Some k.
Proof.
  intros Hall Hin. rewrite Forall_forall in Hall.
  destruct (Hall _ Hin) as [(k & ? & ?)|[?|?]]; [eauto | done..].
Qed.

(** C5: a step that is done in the loaded checkpoint is skipped without
    any effect on the machine, and the whole run is the run of the other
    steps; with the bootstrap done and the other steps pending, no
    bootstrap command is run and the run starts with the persist of the
    dependency-install step marked running, followed by its command. *)
Theorem done_steps_are_skipped (a : Args) (p : string) (m : Machine) :
  (∀ k, status_of (m_state m) k = done →
        run_step a p k m = (Ok tt, m) ∧
        pipeline a p m = run_steps a p (filter (λ k', k' ≠ k) Step.all) m) ∧
  (status_of (m_state m) Step.viteCreate = done →
   (∀ k, k ≠ Step.viteCreate → status_of (m_state m) k = pending) →
   let s1 := set_updatedAt (m_now m) (set_step Step.npmInstall running (m_state m)) in
   ∃ evs first rest,
     emitted m (pipeline a p m).2 evs ∧
     (∀ c, EvSpawn c ∈ evs → spawn_kind c ≠ Some Step.viteCreate) ∧
     evs = first ++ rest ∧
     persist_attempt p s1 first ∧
     (first = persisted p s1 →
      ∃ rest', rest = EvSpawn (npm_command p TIMEOUTS.npmInstall) :: rest')).
Proof.
  split.
  { intros k Hk. split; [by apply run_step_done|].
    rewrite pipeline_run_steps. by apply run_steps_skip. }
  intros Hvite Hpending s1.
  assert (pipeline a p m =
          run_steps a p [Step.npmInstall; Step.shadcnInit; Step.componentInstall;
                         Step.verification] m) as ->.
  { rewrite pipeline_run_steps. by rewrite (run_steps_skip a p Step.viteCreate). }
  set (ks := [Step.shadcnInit; Step.componentInstall; Step.verification]).
  pose proof (run_steps_summary a p (Step.npmInstall :: ks) m) as (evs & Hev & Hall & _).
  assert (wp (run_steps a p (Step.npmInstall :: ks)) m
            (λ r m', ∃ first rest, emitted m m' (first ++ rest) ∧ persist_attempt p s1 first ∧
               (first = persisted p s1 →
                ∃ rest', rest = EvSpawn (npm_command p TIMEOUTS.npmInstall) :: rest')))
    as (first & rest & Hev' & Hatt & Hfirst).
  { cbn [run_steps run_step]. apply wp_bind. eapply wp_conseq.
    { apply step_npmInstall_shape. rewrite Hpending; done. }
    intros r m1 [(e & first & -> & Hev1 & Hatt & Hne & _)
                |(acts & final & cl & Hev1 & -> & _)].
    - exists first, []. rewrite app_nil_r. done.
    - assert (∀ m', (∃ evs2, emitted m1 m' evs2) →
                ∃ first rest, emitted m m' (first ++ rest) ∧ persist_attempt p s1 first ∧
                  (first = persisted p s1 →
                   ∃ rest', rest = EvSpawn (npm_command p TIMEOUTS.npmInstall) :: rest'))
        as Hgo.
      { intros m' [evs2 Hev2]. eexists (persisted p s1), _.
        split_and!; [|by left|eauto].
        pose proof (emitted_trans _ _ _ _ _ Hev1 Hev2) as Ht.
        rewrite <- !app_assoc in Ht. exact Ht. }
      destruct r as [[]|z|e].
      + eapply wp_conseq; [apply run_steps_summary|].
        intros r m' (evs2 & ? & _). apply Hgo. eauto.
      + apply Hgo. eauto using emitted_refl.
      + apply Hgo. eauto using emitted_refl. }
  exists evs, first, rest. split_and!; [done | | by eapply emitted_inj | done..].
  intros c Hin Hk. destruct (steps_spawn_kind _ _ _ _ Hall Hin) as (k & Hkin & Hk').
  rewrite Hk in Hk'. injection Hk' as <-.
  unfold ks in Hkin. rewrite !elem_of_cons, elem_of_nil in Hkin.
  by destruct Hkin as [|[|[|[|]]]].
Qed.


(** ** The installer *)

Lemma fallback_exhausted p T start names inst fl m :
  T - (m_now m - start) ≤ 5000 →
  fallback p T start names inst fl m = (Ok (inst, fl ++ names), m).
Proof.
  intros Hrem. revert inst fl. induction names as [|name rest IH]; intros inst fl.
  - by rewrite app_nil_r.
  - cbn [fallback]. unfold mbind, M_mbind, M_bind, clock.
    rewrite (proj2 (Z.leb_le _ _) Hrem), IH. by rewrite <- app_assoc.
Qed.

(** C3: in the fallback loop, with [remaining] the total timeout minus
    the time elapsed since the installer started, an item met with
    [remaining <= 5000] is marked failed together with every item after
    it, and nothing is run.  Otherwise exactly one command is run for
    the item: [npx shadcn@latest add] with the registry, the project
    directory and the name of that one item, in the project directory,
    with the timeout [min 60000 remaining]; the item is installed when
    the command exits with code 0 and failed otherwise, and the loop goes
    on with the other items.  The loop is entered when the batch call
    fails, with the start time read before that call. *)
Theorem fallback_budget (p : string) (T start : Z) (name : string) (rest inst fl : list string)
    (m : Machine) :
  let remaining := T - (m_now m - start) in
  (remaining ≤ 5000 →
   fallback p T start (name :: rest) inst fl m = (Ok (inst, fl ++ name :: rest), m)) ∧
  (5000 < remaining →
   ∃ c ok m1,
     command c = "npx" ∧
     args c = ["shadcn@latest"; "add"; "--registry"; REGISTRY_URL; "--yes"; "--overwrite";
               "--cwd"; p; name] ∧
     cwd c = p ∧
     timeout c = Z.min 60000 remaining ∧
     emitted m m1 [EvSpawn c] ∧
     m_fs m1 = o_fs (spawn c (m_fs m) (m_now m)) ∧
     m_now m1 = m_now m + Z.of_N (o_elapsed (spawn c (m_fs m) (m_now m))) ∧
     m_state m1 = m_state m ∧
     (ok = true ↔ ∃ sig, o_term (spawn c (m_fs m) (m_now m)) = Closed (Some 0) sig) ∧
     fallback p T start (name :: rest) inst fl m =
     fallback p T start rest (if ok then inst ++ [name] else inst)
       (if ok then fl else fl ++ [name]) m1) ∧
  (∀ comps m1, comps ≠ [] → try_add p comps T m = (Ok false, m1) →
     ∃ r m', fallback p T (m_now m) comps [] [] m1 = (Ok r, m') ∧
             installComponents_with T p comps m =
             (Ok {| success := bool_decide (r.2 = []); installed := r.1; failed_ := r.2 |},
              m')).
Proof.
  intros remaining. split_and!.
  - intros Hrem. by apply fallback_exhausted.
  - intros Hrem.
    destruct (try_add_outcome p [name] (Z.min 60000 remaining) m)
      as (ok & m1 & Htry & (Hst & Hev & Hfs & Hnow) & Hok).
    exists (add_command p [name] (Z.min 60000 remaining)), ok, m1.
    split_and!; [done..|].
    cbn [fallback]. unfold mbind, M_mbind, M_bind, clock. fold remaining.
    rewrite (proj2 (Z.leb_gt _ _) Hrem), Htry. by destruct ok.
  - intros comps m1 Hne Hbatch.
    pose proof (fallback_installs p T (m_now m) comps [] [] m1) as Hfb. unfold wp in Hfb.
    destruct (fallback p T (m_now m) comps [] [] m1) as [r m'] eqn:Hrun.
    cbn [fst snd] in Hfb. destruct Hfb as (i & f & _ & -> & _). exists (i, f), m'.
    split; [done|].
    unfold installComponents_with, mbind, M_mbind, M_bind, clock.
    rewrite bool_decide_eq_false_2 by done. by rewrite Hbatch, Hrun.
Qed.

Lemma NoDup_app_disjoint (l k comps : list string) :
  l ++ k ≡ₚ comps → NoDup comps → ∀ x, x ∈ l → x ∉ k.
Proof.
  intros Hp Hnd. rewrite <- Hp in Hnd. by apply NoDup_app in Hnd as (_ & Hd & _).
Qed.

(** C4, as amended: for every list of components, the installed and the
    failed lists together are a permutation of the input, so the sum of
    their sizes is the length of the input and no item is in neither
    list; the two lists are disjoint whenever the input has no duplicate
    names.  The same holds of the two fields the component step persists
    into the checkpoint, with the component list of the state as
    input. *)
Theorem installed_failed_disjoint (p : string) (m : Machine) :
  (∀ T comps,
     wp (installComponents_with T p comps) m
        (λ r m', ∃ res, r = Ok res ∧
                        installed res ++ failed_ res ≡ₚ comps ∧
                        (length (installed res) + length (failed_ res) = length comps)%nat ∧
                        (length (installed res) + length (failed_ res) ≤ length comps)%nat ∧
                        (NoDup comps → ∀ x, x ∈ installed res → x ∉ failed_ res))) ∧
  (status_of (m_state m) Step.componentInstall ≠ done →
   wp (step_componentInstall p) m
      (λ r m', r = Ok tt →
               components (m_state m') = components (m_state m) ∧
               installedComponents (m_state m') ++ failedComponents (m_state m')
                 ≡ₚ components (m_state m') ∧
               (length (installedComponents (m_state m')) +
                length (failedComponents (m_state m')) =
                length (components (m_state m')))%nat ∧
               (NoDup (components (m_state m')) →
                ∀ x, x ∈ installedComponents (m_state m') →
                     x ∉ failedComponents (m_state m')) ∧
               m_fs m' !! stateFilePath p = Some (File (JSON_stringify (m_state m'))))).
Proof.
  split.
  - intros T comps. eapply wp_conseq; [apply installComponents_installs|].
    intros r m' (res & evs & -> & _ & _ & _ & Hp & _).
    exists res. split; [done|].
    assert (length (installed res) + length (failed_ res) = length comps)%nat as Hlen.
    { by rewrite <- Hp, length_app. }
    split_and!; [done | done | lia |]. intros Hnd. by eapply NoDup_app_disjoint.
  - intros Hst. unfold step_componentInstall. wp_auto; norm; read_guard; try done.
    open_facts. intros _.
    assert (components (m_state m'1) = components (m_state m)) as Hc by by back_state.
    repeat match goal with H : m_state _ = _ |- _ => rewrite H in Hperm end.
    cbn in Hperm.
    assert (installedComponents (m_state m'1) = installed x ∧
            failedComponents (m_state m'1) = failed_ x) as [Hi Hf] by (by back_state).
    rewrite Hc, Hi, Hf. split_and!; [done | done | | | by apply Hfs].
    + by rewrite <- Hperm, length_app.
    + intros Hnd. by eapply NoDup_app_disjoint.
Qed.

(** ** Validation of custom component lists *)





Lemma validateInputs_inr (a : Args) (fs : FS) (v : Validation) :
  validateInputs a fs = inr v →
  let pp := path_join (a_targetDir a)
              (if bool_decide (a_projectName a = "") then "unnamed" else a_projectName a) in
  ∃ e3,
    errors v = check_name (a_projectName a) ++ check_template (a_template a) ++ e3 ++
               check_target fs (a_targetDir a) ++ (check_existing fs pp).1 ∧
    valid v = bool_decide (errors v = []) ∧
    v_projectPath v = pp ∧
    existingState v = (check_existing fs pp).2 ∧
    (a_template a = "custom" ∧
       e3 = (resolve_custom (a_components a)).1 ∧
       resolvedComponents v = (resolve_custom (a_components a)).2
     ∨ a_template a ≠ "custom" ∧ e3 = [] ∧
       ((∃ t, TEMPLATES_get (a_template a) = Own t ∧ resolvedComponents v = t_components t)
        ∨ TEMPLATES_get (a_template a) = Undefined ∧ resolvedComponents v = [])).
Proof.
  intros H pp. unfold validateInputs in H. cbv zeta in H. fold pp in H.
  destruct (check_existing fs pp) as [e5 ex] eqn:Hex.
  case_bool_decide as Hc.
  - destruct (resolve_custom (a_components a)) as [e3 rc] eqn:Hr.
    injection H as <-. exists e3. cbn. split_and!; try done. by left.
  - destruct (TEMPLATES_get (a_template a)) as [t| |] eqn:Ht; [|done|];
      injection H as <-; exists []; cbn; (split_and!; try done); right;
      (split_and!; try done).
    + left. by exists t.
    + by right.
Qed.


(** ** Removals *)

Lemma no_rm_nil : no_rm [].
Proof. by intros ev ?%elem_of_nil. Qed.

Lemma no_rm_append evs1 evs2 : no_rm evs1 → no_rm evs2 → no_rm (evs1 ++ evs2).
Proof. intros H1 H2 ev [?|?]%elem_of_app; [by apply H1 | by apply H2]. Qed.


Lemma no_rm_persist p s evs : persist_attempt p s evs → no_rm evs.
Proof.
  intros [->|[->| ->]] ev Hin [q [Hq|Hq]]; subst ev;
    repeat (apply elem_of_cons in Hin as [?|Hin]; [done|]); by apply elem_of_nil in Hin.
Qed.

Lemma no_rm_spawn c : no_rm [EvSpawn c].
Proof. intros ev ->%list_elem_of_singleton [q [?|?]]; done. Qed.

Lemma no_rm_adds p evs : Forall (is_add_spawn p) evs → no_rm evs.
Proof.
  intros H ev Hin [q Hq]. rewrite Forall_forall in H.
  destruct (H _ Hin) as (names & t & ->). by destruct Hq.
Qed.

Ltac solve_no_rm' :=
  repeat apply no_rm_append;
  first [ apply no_rm_nil | by eapply no_rm_persist | apply no_rm_spawn
        | by eapply no_rm_adds ].

(** ** The signal handler *)

Lemma relabel_keys s keys k :
  status_of (foldl (λ st key, if bool_decide (status_of st key = running)
                              then set_step key failed st else st) s keys) k =
  if decide (k ∈ keys) then relabel (status_of s k) else status_of s k.
Proof.
  revert s. induction keys as [|key keys IH]; intros s.
  { case_decide as Hin; [by apply elem_of_nil in Hin | done]. }
  cbn [foldl]. rewrite IH. unfold relabel.
  destruct (decide (k = key)) as [->|Hne].
  - assert (status_of (if bool_decide (status_of s key = running)
                       then set_step key failed s else s) key
            = if decide (status_of s key = running) then failed else status_of s key) as ->.
    { case_bool_decide; destruct (decide (status_of s key = running)); try congruence.
      by destruct key. }
    destruct (decide (key ∈ key :: keys)) as [_|Hn]; [|by destruct Hn; left].
    by repeat case_decide.
  - assert (status_of (if bool_decide (status_of s key = running)
                       then set_step key failed s else s) k = status_of s k) as ->.
    { case_bool_decide; [|done]. by destruct k, key. }
    destruct (decide (k ∈ keys)) as [Hin|Hin], (decide (k ∈ key :: keys)) as [Hin'|Hin'];
      try done.
    + destruct Hin'. by right.
    + by apply elem_of_cons in Hin' as [?|?].
Qed.

Lemma relabel_running_status s k :
  status_of (relabel_running s) k = relabel (status_of s k).
Proof.
  unfold relabel_running. rewrite relabel_keys.
  case_decide as Hin; [done|]. destruct Hin. destruct k; unfold Step.all; set_solver.
Qed.


Lemma stateFilePath_ne p : p ≠ stateFilePath p.
Proof. intros H. symmetry in H. revert H. by apply string_app_ne. Qed.

Lemma tmpPath_ne_dir p : p ≠ tmpPath p.
Proof.
  unfold tmpPath, stateFilePath, path_join. rewrite string_app_assoc.
  intros H. symmetry in H. revert H. by apply string_app_ne.
Qed.

(** C9: the handler, run with the globals set, relabels every running
    step failed, attaches the interruption message, attempts one persist
    whose failure is swallowed, and exits with the failure code; it
    issues no removal, and leaves every path other than the checkpoint
    and its temporary file as it was, the project directory included,
    whatever [freshCreation] says. *)
Theorem interrupt_relabels_and_exits (sig p : string) (m : Machine) :
  p ≠ "" →
  let r := (handler sig (Some p) m).1 in
  let m' := (handler sig (Some p) m).2 in
  r = Exit EXIT_CODES.FAILURE ∧
  (∀ k, status_of (m_state m') k = relabel (status_of (m_state m) k)) ∧
  error (m_state m') = Some ("Interrupted by " +:+ sig) ∧
  freshCreation (m_state m') = freshCreation (m_state m) ∧
  (∃ evs, emitted m m' evs ∧ persist_attempt p (m_state m') evs ∧ ∀ q, EvRm q ∉ evs) ∧
  (∀ q, q ≠ stateFilePath p → q ≠ tmpPath p → m_fs m' !! q = m_fs m !! q) ∧
  m_fs m' !! p = m_fs m !! p.
Proof.
  intros Hp r m'. subst r m'.
  assert (wp (handler sig (Some p)) m
            (λ r m', r = Exit EXIT_CODES.FAILURE ∧
               (∀ k, status_of (m_state m') k = relabel (status_of (m_state m) k)) ∧
               error (m_state m') = Some ("Interrupted by " +:+ sig) ∧
               freshCreation (m_state m') = freshCreation (m_state m) ∧
               (∃ evs, emitted m m' evs ∧ persist_attempt p (m_state m') evs ∧
                       ∀ q, EvRm q ∉ evs) ∧
               (∀ q, q ≠ stateFilePath p → q ≠ tmpPath p → m_fs m' !! q = m_fs m !! q)))
    as (? & ? & ? & ? & ? & Hfr).
  { unfold handler. rewrite bool_decide_eq_false_2 by done. wp_run.
    eapply wp_conseq; [apply saveState_saved|].
    intros r m' (Hst & _ & (evs & Hev & Hatt & _) & Hr & _ & Hfr).
    unfold emitted in *. norm.
    assert ((∀ k, status_of (m_state m') k = relabel (status_of (m_state m) k)) ∧
            error (m_state m') = Some ("Interrupted by " +:+ sig) ∧
            freshCreation (m_state m') = freshCreation (m_state m) ∧
            (∃ evs, m_trace m' = m_trace m ++ evs ∧ persist_attempt p (m_state m') evs ∧
                    ∀ q, EvRm q ∉ evs) ∧
            (∀ q, q ≠ stateFilePath p → q ≠ tmpPath p → m_fs m' !! q = m_fs m !! q)) as Hgoal.
    { split_and!; [ | by rewrite Hst | | | done].
      - intros k. rewrite Hst. apply (relabel_running_status (m_state m) k).
      - rewrite Hst. cbn. unfold relabel_running, Step.all. cbn.
        by repeat case_bool_decide.
      - exists evs. split_and!; [done..|].
        intros q Hq. destruct Hatt as [->|[->| ->]];
          repeat (apply elem_of_cons in Hq as [?|Hq]; [done|]); by apply elem_of_nil in Hq. }
    destruct Hr as [->|[e ->]]; wp_run; (split; [done | exact Hgoal]). }
  split_and!; try done. apply Hfr; [apply stateFilePath_ne | apply tmpPath_ne_dir].
Qed.

(** ** The scope of the cleanup *)

Lemma no_rm_app evs1 evs2 :
  (∀ q, EvRm q ∉ evs1) → (∀ q, EvRm q ∉ evs2) → ∀ q, EvRm q ∉ evs1 ++ evs2.
Proof. intros H1 H2 q [?|?]%elem_of_app; [by eapply H1 | by eapply H2]. Qed.

Lemma persist_attempt_no_rm p s evs : persist_attempt p s evs → ∀ q, EvRm q ∉ evs.
Proof.
  intros Hatt q Hq. destruct Hatt as [->|[->| ->]];
    repeat (apply elem_of_cons in Hq as [?|Hq]; [done|]); by apply elem_of_nil in Hq.
Qed.

Lemma add_spawns_no_rm p evs : Forall (is_add_spawn p) evs → ∀ q, EvRm q ∉ evs.
Proof.
  intros H q Hin. rewrite Forall_forall in H. by destruct (H _ Hin) as (names & t & ?).
Qed.

Ltac solve_no_rm :=
  repeat apply no_rm_app;
  first
    [ by intros ? ?%elem_of_nil
    | eapply persist_attempt_no_rm; eassumption
    | eapply add_spawns_no_rm; eassumption
    | intros q Hq; repeat (apply elem_of_cons in Hq as [?|Hq]; [done|]);
      by apply elem_of_nil in Hq ].

(** The project directory survives a persist that succeeds. *)
Ltac keep_dir :=
  intros _;
  match goal with
  | H : _ → _ ∧ m_fs ?x !! ?p = Some Dir,
    H' : ∀ q, _ → _ → m_fs ?y !! q = m_fs ?x !! q |- m_fs ?y !! ?p = Some Dir =>
      rewrite H'; [by apply H | apply stateFilePath_ne | apply tmpPath_ne_dir]
  end.

(** When the dependency install, the tool init or the verification
    fails in a run that is not a fresh creation, no removal is issued,
    not even one that fails, and the project directory is still there at
    exit. *)
Theorem resumed_failure_keeps_directory (a : Args) (p : string) (k : Step.name) (m : Machine) :
  k ≠ Step.viteCreate →
  freshCreation (m_state m) = false →
  wp (run_step a p k) m
     (λ r m', (∃ evs, emitted m m' evs ∧ (∀ q, EvRm q ∉ evs) ∧ no_rm evs) ∧
              (r = Exit EXIT_CODES.FAILURE → m_fs m' !! p = Some Dir)).
Proof.
  intros Hk Hfresh.
  destruct k; [done|..]; simpl;
    unfold step_npmInstall, step_shadcnInit, step_componentInstall, step_verification;
    wp_auto; norm; read_guard; open_facts;
    try by (match goal with H : freshCreation _ = true |- _ => revert H end;
            back_state; cbn; rewrite Hfresh).
  all: split; [|try done; keep_dir].
  all: eexists; (split; [back_trace; first [reflexivity | symmetry; apply app_nil_r]|]).
  all: split; [solve_no_rm | solve_no_rm'].
Qed.

(** When the bootstrap fails, or the dependency install or the tool init
    of a fresh creation fails, the step ends with the cleanup of the
    project directory: at exit the directory is gone, unless the removal
    itself failed; then its error has been swallowed, the failed call is
    the last event and the directory is still there.  Where removals do
    not fail the directory is always gone. *)
Theorem fatal_failure_removes_directory (a : Args) (p : string) (k : Step.name) (m : Machine) :
  k = Step.viteCreate ∨
  (k = Step.npmInstall ∨ k = Step.shadcnInit) ∧ freshCreation (m_state m) = true →
  wp (run_step a p k) m
     (λ r m', r = Exit EXIT_CODES.FAILURE →
        (m_fs m' !! p = None ∨
         last (m_trace m') = Some (EvThrown (EvRm p)) ∧ is_Some (m_fs m' !! p)) ∧
        ((∀ fs, rm_fault fs p = None) → m_fs m' !! p = None)).
Proof.
  intros [->|[[->| ->] Hfresh]]; simpl;
    unfold step_viteCreate, step_npmInstall, step_shadcnInit;
    wp_auto; norm; read_guard; open_facts; try done.
  all: try by (match goal with H : freshCreation _ = false |- _ => revert H end;
               back_state; cbn; rewrite Hfresh).
  all: intros _.
  all: try (split; [by left | done]).
  all: destruct Hclfs as (e & kept & Hfault & _).
  all: (split; [right; split; [|done] | intros Hnf; by rewrite Hnf in Hfault]).
  all: match goal with
       | H : m_trace ?x = _ ++ [EvThrown _] |- last (m_trace ?x) = _ => by rewrite H, last_snoc
       end.
Qed.

(** ** Exit codes *)

Lemma elem_of_Step_all k : k ∈ Step.all.
Proof. destruct k; unfold Step.all; set_solver. Qed.





(** C1: [saveState] first sets [updatedAt] to the current time and leaves
    every other field of the state as it is; it writes the JSON document
    of the refreshed state to the temporary file, whose path is the
    checkpoint path followed by [.tmp], and only then renames the
    temporary file onto the checkpoint path.  These are its only system
    calls: the checkpoint path is never written directly.  In every state
    of the file system that can be observed during the persist, each
    partial write of the temporary file included, the checkpoint path
    holds what it held before (the previous complete checkpoint, or
    nothing), except in the last state of a persist that succeeds, where
    it holds the whole new document; when the write or the rename throws,
    the checkpoint path still holds what it held. *)
Theorem saveState_write_then_rename (p : string) (m : Machine) :
  let file := stateFilePath p in
  let tmp := file +:+ ".tmp" in
  let r := (saveState p m).1 in
  let m' := (saveState p m).2 in
  let data := JSON_stringify (m_state m') in
  updatedAt (m_state m') = m_now m ∧
  m_state m' =
    {| version := version (m_state m); projectName := projectName (m_state m);
       projectPath := projectPath (m_state m); template := template (m_state m);
       components := components (m_state m); startedAt := startedAt (m_state m);
       updatedAt := m_now m; freshCreation := freshCreation (m_state m);
       steps := steps (m_state m);
       installedComponents := installedComponents (m_state m);
       failedComponents := failedComponents (m_state m); error := error (m_state m) |} ∧
  tmp ≠ file ∧
  (∃ evs, emitted m m' evs ∧
          (evs = [EvWriteFile tmp data; EvRename tmp file] ∨
           evs = [EvThrown (EvWriteFile tmp data)] ∨
           evs = [EvWriteFile tmp data; EvThrown (EvRename tmp file)]) ∧
          (r = Ok tt ↔ evs = [EvWriteFile tmp data; EvRename tmp file])) ∧
  last (saveState_observable p m) = Some (m_fs m') ∧
  (∀ fs', fs' ∈ saveState_observable p m →
     fs' !! file = m_fs m !! file ∨
     (r = Ok tt ∧ fs' = m_fs m' ∧ fs' !! file = Some (File data))) ∧
  (r ≠ Ok tt → m_fs m' !! file = m_fs m !! file).
Proof.
  intros file tmp r m' data. subst r m' data.
  pose proof (tmpPath_ne p) as Hne. fold file in Hne.
  pose proof (saveState_failed_keeps p m) as Hkeep. fold file in Hkeep. revert Hkeep.
  unfold saveState_observable, saveState, mbind, M_mbind, M_bind, clock, modify_state,
    get_state, writeFileSync, renameSync, syscall, with_state, emitted;
    cbn [fst snd m_state m_fs m_now m_trace].
  fold file. change (file +:+ ".tmp") with (tmpPath p). subst tmp.
  change (file +:+ ".tmp") with (tmpPath p).
  set (s' := set_updatedAt (m_now m) (m_state m)).
  destruct (fs_writeFile (m_fs m) (tmpPath p) (JSON_stringify s')) as [e|fs1] eqn:Hw;
    cbn [fst snd m_state m_fs m_now m_trace]; intros Hkeep.
  - split_and!; try done.
    + eexists; split_and!; [done | by right; left | done].
    + intros fs' ->%list_elem_of_singleton. by left.
  - destruct (fs_writeFile_inr _ _ _ _ Hw) as [-> _].
    destruct (fs_rename _ (tmpPath p) file) as [e|fs2] eqn:Hr;
      cbn [fst snd m_state m_fs m_now m_trace] in *.
    + split_and!; try done.
      * eexists; split_and!; [by rewrite <- app_assoc | by right; right | done].
      * rewrite app_nil_r. rewrite last_cons, partial_writes_last. done.
      * intros fs' Hin. left. rewrite app_nil_r in Hin.
        apply elem_of_cons in Hin as [->|Hin]; [done|].
        by eapply (partial_writes_other _ (tmpPath p)).
    + apply fs_rename_inr in Hr as (d & Hd & ->).
      rewrite lookup_insert_eq in Hd. simplify_eq.
      split_and!; try done.
      * eexists; split_and!; [by rewrite <- app_assoc | by left | done].
      * by rewrite app_comm_cons, last_snoc.
      * intros fs' Hin. rewrite app_comm_cons in Hin.
        apply elem_of_app in Hin as [Hin|Hin].
        -- left. apply elem_of_cons in Hin as [->|Hin]; [done|].
           by eapply (partial_writes_other _ (tmpPath p)).
        -- apply list_elem_of_singleton in Hin as ->.
           right. by rewrite lookup_insert_eq.
Qed.

(** * Further properties of the program *)

(** ** lib/state.js *)

(** [saveState] succeeds exactly when the project directory is a
    directory and neither the checkpoint path nor the path of the
    temporary file is one; it then leaves the document at the checkpoint
    path and no temporary file; otherwise it throws, and when it is the
    rename that fails the temporary file stays behind.  No other path
    is touched. *)
Theorem saveState_succeeds_iff (p : string) (m : Machine) :
  let r := (saveState p m).1 in
  let m' := (saveState p m).2 in
  (r = Ok tt ↔
     m_fs m !! p = Some Dir ∧ m_fs m !! tmpPath p ≠ Some Dir ∧
     m_fs m !! stateFilePath p ≠ Some Dir) ∧
  (r = Ok tt →
     m_fs m' !! stateFilePath p = Some (File (JSON_stringify (m_state m'))) ∧
     m_fs m' !! tmpPath p = None) ∧
  (r ≠ Ok tt → ∃ e, r = Throw e) ∧
  (m_fs m !! p = Some Dir → m_fs m !! tmpPath p ≠ Some Dir →
   m_fs m !! stateFilePath p = Some Dir →
   m_fs m' !! tmpPath p = Some (File (JSON_stringify (m_state m')))) ∧
  (∀ q, q ≠ stateFilePath p → q ≠ tmpPath p → m_fs m' !! q = m_fs m !! q).
Proof.
  intros r m'. subst r m'.
  pose proof (tmpPath_ne p) as Hne.
  pose proof (parent_tmpPath p) as Hpt. pose proof (parent_stateFilePath p) as Hps.
  unfold saveState, mbind, M_mbind, M_bind, clock, modify_state, get_state, writeFileSync,
    renameSync, syscall, with_state; cbn [fst snd m_state m_fs m_now m_trace].
  change (stateFilePath p +:+ ".tmp") with (tmpPath p).
  set (data := JSON_stringify _).
  unfold fs_writeFile. rewrite Hpt.
  destruct (m_fs m !! tmpPath p) as [[|d0]|] eqn:Htmp;
    destruct (m_fs m !! p) as [[|d1]|] eqn:Hp; cbn [fst snd m_state m_fs m_now m_trace];
    try (split_and!; [split; [done | by intros (? & ? & ?)] | done | eauto | done | done]).
  all: unfold fs_rename; rewrite lookup_insert_eq, Hps;
    rewrite (lookup_insert_ne _ (tmpPath p) p) by (intros ?; by eapply tmpPath_ne_dir);
    rewrite (lookup_insert_ne _ (tmpPath p) (stateFilePath p)) by done; rewrite Hp;
    destruct (m_fs m !! stateFilePath p) as [[|d2]|] eqn:Hs;
    cbn [fst snd m_state m_fs m_now m_trace].
  all: split_and!.
  all: try (split; [intros ?; try done; split_and!; done | intros (? & ? & ?); done]).
  all: try (intros ?; first [done | by eauto]).
  all: try (intros _; split;
            [by rewrite lookup_insert_eq
            | by rewrite lookup_insert_ne, lookup_delete_eq by done]).
  all: try (intros _ _ ?; first [done | by rewrite lookup_insert_eq]).
  all: intros q ? ?;
    by rewrite ?lookup_insert_ne, ?lookup_delete_ne, ?lookup_insert_ne by done.
Qed.

(** Round trip: after a [saveState] that succeeds, [loadState] returns
    the state that was saved (with its refreshed [updatedAt]) and
    changes nothing, provided [JSON.parse] reads back what
    [JSON.stringify] wrote for that state. *)
Theorem saveState_loadState (p : string) (m : Machine) :
  let s' := set_updatedAt (m_now m) (m_state m) in
  (saveState p m).1 = Ok tt →
  JSON_parse (JSON_stringify s') = Some (Some s') →
  let m' := (saveState p m).2 in
  m_state m' = s' ∧ loadState p m' = (Ok (Some s'), m').
Proof.
  intros s' Hok Hparse m'.
  pose proof (saveState_saved p m) as Hs. unfold wp in Hs. fold m' in Hs.
  rewrite Hok in Hs. destruct Hs as (Hst & _ & _ & _ & Hfs & _).
  destruct (Hfs eq_refl) as [Hfile _]. fold s' in Hst. rewrite Hst in Hfile.
  split; [done|]. clearbody m' s'.
  unfold loadState, mbind, M_mbind, M_bind, get_fs, readFileSync, existsSync, fs_readFile.
  rewrite Hfile. cbn. rewrite Hfile. cbn. by rewrite Hparse.
Qed.

(** [removeState] throws exactly when the checkpoint path is a
    directory; otherwise the checkpoint path is free afterwards and no
    other path has changed, a second [removeState] does nothing, and
    [loadState] finds no checkpoint.  The state object is never
    touched. *)
Theorem removeState_removes (p : string) (m : Machine) :
  let r := (removeState p m).1 in
  let m' := (removeState p m).2 in
  m_state m' = m_state m ∧
  (r = Ok tt ↔ m_fs m !! stateFilePath p ≠ Some Dir) ∧
  (r = Ok tt →
     m_fs m' = delete (stateFilePath p) (m_fs m) ∧
     removeState p m' = (Ok tt, m') ∧
     loadState p m' = (Ok None, m')) ∧
  (r ≠ Ok tt → (∃ e, r = Throw e) ∧ m_fs m' = m_fs m).
Proof.
  intros r m'. subst r m'.
  unfold removeState, loadState, mbind, M_mbind, M_bind, get_fs, unlinkSync, syscall,
    existsSync, fs_unlink.
  cbv beta zeta.
  destruct (m_fs m !! stateFilePath p) as [[|d]|] eqn:Hs;
    cbn [fst snd m_state m_fs m_now m_trace]; rewrite ?Hs;
    cbn [fst snd m_state m_fs m_now m_trace].
  - split_and!; [done | by split | done | eauto].
  - rewrite lookup_delete_eq. split_and!; [done | by split | done | by intros []].
  - split_and!; [done | by split | | by intros []].
    intros _. split; [symmetry; by apply delete_id|].
    unfold mret, M_mret, M_ret. cbn [fst snd]. by rewrite Hs.
Qed.

(** ** lib/executor.js: the three all-or-nothing commands *)

(** One path through a command wrapper: decide its tests, then read the
    result off. *)
Ltac settle_command :=
  cbn [timedOut code fst snd m_state m_fs m_now m_trace];
  repeat (case_bool_decide; simplify_eq; cbn [andb negb]);
  try match goal with
      | |- context [existsSync ?f ?q] => destruct (existsSync f q) eqn:?
      end;
  cbn [negb]; unfold mret, M_mret, M_ret;
  do 2 eexists; (split; [reflexivity|]); (split; [done|]);
  cbn [m_fs] in *;
  (split; [intros ?; try done; first [by eexists | split; [by eexists | done]]
          | first [intros [[? ?] ?] | intros [? ?]]; first [by simplify_eq | congruence]]).

(** Each of [createViteProject], [npmInstall] and [initShadcn] runs
    exactly one command and never throws; it reports success exactly
    when the command closes with exit code 0 and, for the first two, the
    file it is expected to produce ([package.json], [node_modules])
    exists afterwards. *)
Theorem step_commands_succeed_iff (name dir p : string) (m : Machine) :
  let exit0 c := ∃ sig, o_term (spawn c (m_fs m) (m_now m)) = Closed (Some 0) sig in
  let after c := o_fs (spawn c (m_fs m) (m_now m)) in
  let vite := vite_command name dir TIMEOUTS.viteCreate in
  let npm := npm_command p TIMEOUTS.npmInstall in
  let init := init_command p TIMEOUTS.shadcnInit in
  (∃ res m', createViteProject name dir m = (Ok res, m') ∧ spawned vite m m' ∧
     (res = Success ↔
      exit0 vite ∧
      existsSync (after vite) (path_join (path_join dir name) "package.json") = true)) ∧
  (∃ res m', npmInstall p m = (Ok res, m') ∧ spawned npm m m' ∧
     (res = Success ↔
      exit0 npm ∧ existsSync (after npm) (path_join p "node_modules") = true)) ∧
  (∃ res m', initShadcn p m = (Ok res, m') ∧ spawned init m m' ∧
     (res = Success ↔ exit0 init)).
Proof.
  intros exit0 after vite npm init. subst exit0 after.
  unfold createViteProject, npmInstall, initShadcn, try_catch, mbind, M_mbind, M_bind,
    runCommand, get_fs, spawned, emitted.
  fold vite npm init. cbv beta zeta. split_and!.
  - destruct (o_term (spawn vite (m_fs m) (m_now m))) as [[z|] sig|e] eqn:Ht; settle_command.
  - destruct (o_term (spawn npm (m_fs m) (m_now m))) as [[z|] sig|e] eqn:Ht; settle_command.
  - destruct (o_term (spawn init (m_fs m) (m_now m))) as [[z|] sig|e] eqn:Ht; settle_command.
Qed.


(** ** lib/executor.js: verification *)

(** [verifyProject] is valid exactly when the four blocking paths exist
    under the project directory; [missing] lists the absent ones; the
    expected components play no part in either. *)
Theorem verifyProject_valid_iff (fs : FS) (p : string) (comps : list string) :
  let r := verifyProject fs p comps in
  (v_valid r = true ↔ ∀ rel, rel ∈ blocking_paths → is_Some (fs !! path_join p rel)) ∧
  (v_valid r = true ↔ missing r = []) ∧
  (∀ rel, rel ∈ missing r ↔ rel ∈ blocking_paths ∧ fs !! path_join p rel = None) ∧
  v_valid r = v_valid (verifyProject fs p []) ∧
  missing r = missing (verifyProject fs p []).
Proof.
  intros r. subst r. unfold verifyProject. cbn [v_valid missing].
  fold blocking_paths.
  assert (∀ rel, rel ∈ filter (λ rel, negb (existsSync fs (path_join p rel)) = true)
                         blocking_paths ↔
                 rel ∈ blocking_paths ∧ fs !! path_join p rel = None) as Hin.
  { intros rel. rewrite list_elem_of_filter. unfold existsSync.
    destruct (fs !! path_join p rel); cbn; split; intros [? ?]; done. }
  split_and!; [|apply bool_decide_eq_true|done..].
  rewrite bool_decide_eq_true. split.
  - intros Hnil rel Hrel. destruct (fs !! path_join p rel) eqn:Hl; [by eexists|].
    assert (rel ∈ @nil string) as Habs; [|by apply elem_of_nil in Habs].
    rewrite <- Hnil. apply Hin. done.
  - intros Hall. apply elem_of_nil_inv. intros rel [Hrel Hnone]%Hin.
    destruct (Hall _ Hrel) as [? ?]. congruence.
Qed.

Lemma string_app_inj_r (s s' t : string) : s +:+ t = s' +:+ t → s = s'.
Proof.
  revert s'. induction s as [|c s IH]; intros [|c' s'] H; [done|..].
  - apply (f_equal String.length) in H. rewrite !string_length_app in H. simpl in H. lia.
  - apply (f_equal String.length) in H. rewrite !string_length_app in H. simpl in H. lia.
  - rewrite !string_app_cons in H. injection H as -> H. f_equal. by apply IH.
Qed.

Lemma component_warning_inj name name' :
  component_warning name = component_warning name' → name = name'.
Proof.
  unfold component_warning. intros H%(inj (String.append _)). by apply string_app_inj_r in H.
Qed.

(** The warnings of [verifyProject] about component files: when the ui
    directory does not exist, that is reported and no component is
    checked; when it exists, there is a warning for a component exactly
    when it is expected and its file is absent.  There are at most three
    warnings besides those. *)
Theorem verifyProject_component_warnings (fs : FS) (p : string) (comps : list string) :
  let r := verifyProject fs p comps in
  let uiDir := path_join p "src/components/ui" in
  (fs !! uiDir = None →
     "Expected not found: src/components/ui" ∈ warnings r ∧
     ∀ name, component_warning name ∉ warnings r) ∧
  (is_Some (fs !! uiDir) →
     ∀ name, component_warning name ∈ warnings r ↔
             name ∈ comps ∧ fs !! path_join uiDir (name +:+ ".tsx") = None) ∧
  (length (warnings r) ≤ 3 + length comps)%nat.
Proof.
  intros r uiDir. subst r. unfold verifyProject. cbn [warnings]. fold uiDir.
  set (w1 := (λ rel, "Expected not found: " +:+ rel) <$> _).
  assert (∀ name, component_warning name ∉ w1) as Hw1.
  { intros name (rel & Heq & _)%list_elem_of_fmap. unfold component_warning in Heq.
    rewrite !string_app_cons in Heq. discriminate. }
  assert (length w1 ≤ 3)%nat as Hlen.
  { unfold w1. rewrite length_fmap. etrans; [apply length_filter|]. done. }
  split_and!.
  - intros Hnone.
    assert (existsSync fs uiDir = false) as -> by (unfold existsSync; by rewrite Hnone).
    rewrite app_nil_r. split; [|done].
    unfold w1. apply list_elem_of_fmap. exists "src/components/ui". split; [done|].
    apply list_elem_of_filter. split; [|set_solver].
    unfold existsSync. fold uiDir. by rewrite Hnone.
  - intros [node Hnode] name.
    assert (existsSync fs uiDir = true) as -> by (unfold existsSync; by rewrite Hnode).
    rewrite elem_of_app, list_elem_of_fmap. split.
    + intros [?|(name' & Heq & Hin)]; [by apply Hw1 in H|].
      apply component_warning_inj in Heq as <-.
      apply list_elem_of_filter in Hin as [Habs Hin]. split; [done|].
      unfold existsSync in Habs.
      by destruct (fs !! path_join uiDir (name +:+ ".tsx")).
    + intros [Hin Hnone]. right. exists name. split; [done|].
      apply list_elem_of_filter. split; [|done]. unfold existsSync. by rewrite Hnone.
  - rewrite length_app. destruct (existsSync fs uiDir); simpl; [|lia].
    rewrite length_fmap. pose proof (length_filter
      (λ name, existsSync fs (path_join uiDir (name +:+ ".tsx")) = false) comps). lia.
Qed.

(** ** lib/executor.js: cleanup *)

Lemma prefix_cons (c c' : ascii) (s t : string) :
  String.prefix (String c s) (String c' t) =
  if ascii_dec c c' then String.prefix s t else false.
Proof. reflexivity. Qed.

Lemma prefix_app_l (d x y : string) : String.prefix (d +:+ x) (d +:+ y) = String.prefix x y.
Proof.
  induction d as [|c d IH]; [done|]. rewrite !string_app_cons, prefix_cons.
  by destruct (ascii_dec c c).
Qed.

Lemma prefix_length (s t : string) :
  String.prefix s t = true → (String.length s ≤ String.length t)%nat.
Proof.
  revert t. induction s as [|c s IH]; intros [|c' t] H; try done; cbn [String.length]; [lia|].
  rewrite prefix_cons in H. destruct (ascii_dec c c'); [|done]. apply IH in H. lia.
Qed.

Lemma prefix_slash (n n' : string) :
  String.prefix (n +:+ "/") n' = true → is_Some (parent_of n').
Proof.
  revert n'. induction n as [|c n IH]; intros [|c' n'] H; try done.
  - rewrite string_app_nil_l, prefix_cons in H.
    destruct (ascii_dec "/" c') as [<-|]; [|done].
    cbn [parent_of]. by destruct (parent_of n').
  - rewrite string_app_cons, prefix_cons in H. destruct (ascii_dec c c'); [|done].
    apply IH in H as [d Hd]. cbn [parent_of]. rewrite Hd. by eexists.
Qed.

Lemma inside_self p : inside p p = true.
Proof. unfold inside. by rewrite String.eqb_refl. Qed.

Lemma inside_child p x : inside p (path_join p x) = true.
Proof.
  unfold inside, path_join. apply orb_true_iff. right.
  rewrite <- (string_app_assoc p "/" x), <- (string_app_nil_r (p +:+ "/")) at 1.
  rewrite prefix_app_l. by destruct x.
Qed.

Lemma inside_parent d n : inside (path_join d n) d = false.
Proof.
  unfold inside, path_join. apply orb_false_iff. split.
  - apply String.eqb_neq. intros H. symmetry in H. revert H. by apply string_app_ne.
  - destruct (String.prefix _ d) eqn:H; [|done]. apply prefix_length in H.
    rewrite !string_length_app in H. simpl in H. lia.
Qed.

Lemma inside_sibling d n n' :
  n' ≠ n → parent_of n' = None → inside (path_join d n) (path_join d n') = false.
Proof.
  intros Hne Hseg. unfold inside, path_join. apply orb_false_iff. split.
  - apply String.eqb_neq. intros H. by apply (inj (String.append _)), (inj (String.append _)) in H.
  - rewrite string_app_assoc, prefix_app_l.
    destruct (String.prefix _ _) eqn:H; [|done].
    rewrite string_app_assoc, (prefix_app_l "/") in H.
    apply prefix_slash in H as [? ?]. congruence.
Qed.

(** [cleanup] never throws and leaves the state object alone, and
    nothing outside the project path changes: not the target directory,
    and not a sibling whose name merely starts with the project's name;
    no entry is changed, entries are only removed.  When the path does
    not exist nothing happens at all.  When it exists and the removal
    goes through, the path and everything beneath it are gone, and a
    second [cleanup] is a no-op.  When the removal fails, its error is
    swallowed and the path is still there. *)
Theorem cleanup_removes_subtree (p : string) (m : Machine) :
  let m' := (cleanup p m).2 in
  (cleanup p m).1 = Ok tt ∧
  m_state m' = m_state m ∧
  (∀ q, inside p q = false → m_fs m' !! q = m_fs m !! q) ∧
  (∀ d n, p = path_join d n →
     m_fs m' !! d = m_fs m !! d ∧
     ∀ n', n' ≠ n → parent_of n' = None →
           m_fs m' !! path_join d n' = m_fs m !! path_join d n') ∧
  (∀ q, m_fs m' !! q = m_fs m !! q ∨ m_fs m' !! q = None) ∧
  (m_fs m !! p = None → m' = m) ∧
  (is_Some (m_fs m !! p) → rm_fault (m_fs m) p = None →
     m_trace m' = m_trace m ++ [EvRm p] ∧
     m_fs m' !! p = None ∧ (∀ x, m_fs m' !! path_join p x = None) ∧
     cleanup p m' = (Ok tt, m')) ∧
  (is_Some (m_fs m !! p) → is_Some (rm_fault (m_fs m) p) →
     m_trace m' = m_trace m ++ [EvThrown (EvRm p)] ∧
     m_fs m' !! p = m_fs m !! p).
Proof.
  intros m'. subst m'.
  assert (∀ q, inside p q = false → fs_rmTree (m_fs m) p !! q = m_fs m !! q) as Hout.
  { intros q Hq. unfold fs_rmTree.
    destruct (m_fs m !! q) as [node|] eqn:Hl.
    - by apply map_lookup_filter_Some.
    - apply map_lookup_filter_None. by left. }
  assert (∀ q, inside p q = true → fs_rmTree (m_fs m) p !! q = None) as Hin.
  { intros q Hq. apply map_lookup_filter_None. right. intros node _. simpl. congruence. }
  assert (∀ kept q, inside p q = false → fs_rmPart (m_fs m) p kept !! q = m_fs m !! q)
    as Hout'.
  { intros kept q Hq. unfold fs_rmPart.
    destruct (m_fs m !! q) as [node|] eqn:Hl.
    - apply map_lookup_filter_Some. split; [done|]. simpl. auto.
    - apply map_lookup_filter_None. by left. }
  assert (∀ kept q, fs_rmPart (m_fs m) p kept !! q = m_fs m !! q ∨
                    fs_rmPart (m_fs m) p kept !! q = None) as Hsub'.
  { intros kept q. destruct (fs_rmPart (m_fs m) p kept !! q) as [node|] eqn:Hl; [|by right].
    left. by apply map_lookup_filter_Some in Hl as [-> _]. }
  unfold cleanup, try_catch, mbind, M_mbind, M_bind, get_fs, rmSync, existsSync,
    mret, M_mret, M_ret.
  cbv beta zeta.
  destruct (m_fs m !! p) as [node|] eqn:Hp; cbn [fst snd m_state m_fs m_now m_trace].
  2:{ rewrite ?Hp. cbn [fst snd]. split_and!; try done. intros q. by left. }
  destruct (rm_fault (m_fs m) p) as [[e kept]|] eqn:Hfault;
    cbn [fst snd m_state m_fs m_now m_trace].
  - split_and!; try done.
    + by apply Hout'.
    + intros d n ->. split; [by apply Hout', inside_parent|].
      intros n' ? ?. by apply Hout', inside_sibling.
    + intros _ _. split; [done|]. by rewrite fs_rmPart_root.
  - rewrite (Hin p) by apply inside_self. cbn [fst snd].
    split_and!; try done.
    + intros d n ->. split; [by apply Hout, inside_parent|].
      intros n' ? ?. by apply Hout, inside_sibling.
    + intros q. destruct (inside p q) eqn:Hq; [right; by apply Hin | left; by apply Hout].
    + intros _ _. split_and!; [done | done | intros x; by apply Hin, inside_child | done].
Qed.

(** ** lib/executor.js: the installer *)

(** With nothing to install no command is run at all; when the batch
    command exits with code 0 it is the only command, and every
    component is reported installed. *)
Theorem installComponents_batch (T : Z) (p : string) (comps : list string) (m : Machine) :
  (comps = [] →
   installComponents_with T p comps m =
   (Ok {| success := true; installed := []; failed_ := [] |}, m)) ∧
  (comps ≠ [] →
   (∃ sig, o_term (spawn (add_command p comps T) (m_fs m) (m_now m)) = Closed (Some 0) sig) →
   ∃ m', installComponents_with T p comps m =
         (Ok {| success := true; installed := comps; failed_ := [] |}, m') ∧
         spawned (add_command p comps T) m m').
Proof.
  split.
  - intros ->. reflexivity.
  - intros Hne Hsig. unfold installComponents_with.
    rewrite bool_decide_eq_false_2 by done.
    destruct (try_add_outcome p comps T m) as (ok & m' & Htry & Hsp & Hok).
    apply Hok in Hsig as ->. exists m'. split; [|done].
    unfold mbind, M_mbind, M_bind, clock. by rewrite Htry.
Qed.

(** When the batch command fails and leaves no more than the reserve of
    5 seconds of the budget, no individual install is attempted: the
    batch is the only command and every component is reported failed. *)
Theorem exhausted_batch_fails_all (T : Z) (p : string) (comps : list string) (m : Machine) :
  let c := add_command p comps T in
  let o := spawn c (m_fs m) (m_now m) in
  comps ≠ [] →
  (∀ sig, o_term o ≠ Closed (Some 0) sig) →
  T - Z.of_N (o_elapsed o) ≤ 5000 →
  ∃ m', installComponents_with T p comps m =
        (Ok {| success := false; installed := []; failed_ := comps |}, m') ∧
        spawned c m m'.
Proof.
  intros c o Hne Hfail Hleft.
  destruct (try_add_outcome p comps T m) as (ok & m1 & Htry & Hsp & Hok).
  fold c o in Hsp, Hok. exists m1. split; [|done].
  assert (ok = false) as ->.
  { destruct ok; [|done]. destruct Hok as [Hok _]. destruct (Hok eq_refl) as [sig Hsig].
    by destruct (Hfail sig). }
  unfold installComponents_with. rewrite bool_decide_eq_false_2 by done.
  unfold mbind, M_mbind, M_bind, clock. rewrite Htry.
  rewrite fallback_exhausted.
  - cbn [fst snd]. by rewrite bool_decide_eq_false_2.
  - destruct Hsp as (_ & _ & _ & ->). fold o. lia.
Qed.

(** The installer keeps the order of its input: the installed and the
    failed lists are each a subsequence of the components given.  Its
    commands are the batch command first, [npx shadcn@latest add] for
    all the components with the whole budget as timeout, and then, when
    the batch fails, individual commands for a subsequence of the
    components, in their order, so at most one for each component: each
    is [npx shadcn@latest add] for that single component, with a timeout
    above 5 seconds and at most 60 seconds.  In the fallback the
    installed components are, in order, among those that have had their
    own command. *)
Theorem installer_keeps_order (T : Z) (p : string) (comps : list string) (m : Machine) :
  wp (installComponents_with T p comps) m
     (λ r m', ∃ res evs,
        r = Ok res ∧ sublist (installed res) comps ∧ sublist (failed_ res) comps ∧
        emitted m m' evs ∧
        (comps = [] ∧ evs = [] ∨
         comps ≠ [] ∧
         ∃ att : list (string * Z),
           evs =
             EvSpawn {| command := "npx";
                        args := ["shadcn@latest"; "add"; "--registry"; REGISTRY_URL;
                                 "--yes"; "--overwrite"; "--cwd"; p] ++ comps;
                        cwd := p; timeout := T |} ::
             ((λ nt, EvSpawn {| command := "npx";
                                args := ["shadcn@latest"; "add"; "--registry"; REGISTRY_URL;
                                         "--yes"; "--overwrite"; "--cwd"; p; nt.1];
                                cwd := p; timeout := nt.2 |}) <$> att) ∧
           sublist (att.*1) comps ∧
           Forall (λ nt, 5000 < nt.2 ≤ 60000) att ∧
           (installed res = comps ∧ failed_ res = [] ∧ att = [] ∨
            sublist (installed res) (att.*1)))).
Proof.
  eapply wp_conseq; [apply installComponents_trace|].
  intros r m' (res & evs & -> & _ & Hev & Hi & Hf & Hcmds).
  exists res, evs. split_and!; [done..|].
  destruct Hcmds as [?|(Hne & att & -> & Ha & Hall & Hres)]; [by left|].
  right. split; [done|]. by exists att.
Qed.

Lemma fallback_time p T s names inst fl m :
  honours_timeouts →
  wp (fallback p T s names inst fl) m
     (λ r m', m_now m ≤ m_now m' ≤ Z.max (m_now m) (s + T)).
Proof.
  intros Hh. revert inst fl m. induction names as [|name rest IH]; intros inst fl m; simpl.
  - wp_run. lia.
  - wp_run; [apply IH|].
    apply Z.leb_gt in Heqb.
    eapply wp_conseq; [apply try_add_spawned|].
    intros r m1 [[ok ->] (_ & _ & _ & Hnow)].
    pose proof (Hh (add_command p [name] (Z.min 60000 (T - (m_now m - s))))
                  (m_fs m) (m_now m)) as Hle.
    cbn [timeout add_command] in Hle.
    destruct ok; (eapply wp_conseq; [apply IH|]); intros r m' Hm'; cbv beta in Hm'; lia.
Qed.

(** When every command ends within its timeout, the installer returns
    within its budget, and the component step, which uses the budget of
    5 minutes, takes no longer than that: the budget bounds the whole
    installation, not each command. *)
Theorem installer_within_budget (T : Z) (p : string) (comps : list string) (m : Machine) :
  honours_timeouts →
  0 ≤ T →
  wp (installComponents_with T p comps) m (λ r m', m_now m ≤ m_now m' ≤ m_now m + T) ∧
  wp (step_componentInstall p) m
     (λ r m', m_now m ≤ m_now m' ≤ m_now m + TIMEOUTS.componentInstall).
Proof.
  intros Hh HT.
  assert (∀ T p comps m, 0 ≤ T →
            wp (installComponents_with T p comps) m
               (λ r m', m_now m ≤ m_now m' ≤ m_now m + T)) as Hinst.
  { clear T p comps m HT. intros T p comps m HT.
    unfold installComponents_with. wp_step; [wp_run; lia|].
    apply wp_bind, wp_clock. cbv beta iota.
    apply wp_bind. eapply wp_conseq; [apply try_add_spawned|].
    intros r m1 [[ok ->] (_ & _ & _ & Hnow)].
    pose proof (Hh (add_command p comps T) (m_fs m) (m_now m)) as Hle.
    cbn [timeout add_command] in Hle.
    destruct ok; [wp_run; lia|].
    apply wp_bind. eapply wp_conseq; [by apply fallback_time|].
    intros r m' Hm'. cbv beta in Hm'. destruct r as [[i f]|z|e]; [wp_run|..]; lia. }
  split; [by apply Hinst|].
  unfold step_componentInstall. apply wp_bind, wp_get_state. cbv beta iota.
  wp_step; [|wp_run; unfold TIMEOUTS.componentInstall; lia].
  assert (TIMEOUTS.componentInstall = 300000) as HT' by done.
  apply wp_bind. wp_call; destruct Hsaved as (_ & Hnow1 & _); norm; [|lia].
  apply wp_bind, wp_get_state. cbv beta iota.
  apply wp_bind. eapply wp_conseq; [by apply (Hinst TIMEOUTS.componentInstall)|].
  intros r m2 Hm2. cbv beta in Hm2. destruct r as [res|z|e]; [|lia..].
  wp_call; destruct Hsaved as (_ & Hnow2 & _); norm; lia.
Qed.

(** ** lib/validator.js *)

Lemma set_of_id_from (seen l : list string) :
  NoDup (seen ++ l) →
  foldl (λ seen x, if bool_decide (x ∈ seen) then seen else seen ++ [x]) seen l = seen ++ l.
Proof.
  revert seen. induction l as [|y l IH]; intros seen Hnd; cbn [foldl].
  { by rewrite app_nil_r. }
  apply NoDup_app in Hnd as Hnd'. destruct Hnd' as (_ & Hdis & _).
  rewrite bool_decide_eq_false_2 by (intros Hin; apply (Hdis _ Hin); by left).
  rewrite IH; rewrite <- app_assoc; done.
Qed.

Lemma set_of_id (l : list string) : NoDup l → set_of l = l.
Proof. intros H. by apply (set_of_id_from [] l). Qed.

Lemma check_name_nil (n : string) : check_name n = [] ↔ project_name_ok n = true.
Proof.
  unfold check_name. case_bool_decide as Hn; [by subst|].
  destruct (project_name_ok n); cbn; split; done.
Qed.

Lemma check_template_nil (t : string) :
  check_template t = [] ↔ t ∈ ["minimal"; "form"; "dashboard"; "custom"].
Proof.
  unfold check_template. change ((fst <$> TEMPLATES) ++ ["custom"])
    with ["minimal"; "form"; "dashboard"; "custom"].
  case_bool_decide; split; done.
Qed.

Lemma resolve_custom_nil (comps : list string) :
  (resolve_custom comps).1 = [] ↔
  comps ≠ [] ∧ (length comps ≤ 20)%nat ∧
  Forall (λ n, component_name_ok n = true) comps ∧ NoDup comps.
Proof.
  unfold resolve_custom. case_bool_decide as Hnil.
  { split; [done | by intros [? _]]. }
  destruct (20 <? length comps)%nat eqn:Hlen.
  { apply Nat.ltb_lt in Hlen. split; [done | intros (_ & ? & _); lia]. }
  apply Nat.ltb_ge in Hlen. cbn [fst].
  rewrite app_nil. split.
  - intros [Hbad%fmap_nil_inv Hdup]. split_and!; [done..| |].
    + apply Forall_forall. intros n Hn.
      destruct (component_name_ok n) eqn:Hok; [done|].
      assert (n ∈ filter (λ name, component_name_ok name = false) comps) as Hin
        by by apply list_elem_of_filter.
      rewrite Hbad in Hin. by apply elem_of_nil in Hin.
    + case_bool_decide as Heq; [|done]. by apply set_of_length_eq.
  - intros (_ & _ & Hall & Hnd). split.
    + assert (filter (λ name, component_name_ok name = false) comps = []) as ->; [|done].
      apply elem_of_nil_inv. intros n [Hbad Hin]%list_elem_of_filter.
      rewrite Forall_forall in Hall. apply Hall in Hin. congruence.
    + rewrite set_of_id by done. by rewrite bool_decide_eq_true_2.
Qed.



(** The parts of a validation that returns. *)
Lemma TEMPLATES_get_valid (t : string) :
  t ∈ ["minimal"; "form"; "dashboard"] →
  ∃ tpl, TEMPLATES_get t = Own tpl ∧ (t, tpl) ∈ TEMPLATES ∧
         t_components tpl ≠ [] ∧ (length (t_components tpl) ≤ 20)%nat ∧
         Forall (λ n, component_name_ok n = true) (t_components tpl) ∧
         NoDup (t_components tpl).
Proof.
  rewrite !elem_of_cons, elem_of_nil. intros [->|[->|[->|[]]]]; eexists;
    (split; [reflexivity|]); (split; [set_solver|]); (split; [done|]);
    (split; [simpl; lia|]); (split; [by repeat constructor|]);
    apply (bool_decide_unpack _); by vm_compute.
Qed.


Lemma all_chars_no_slash (ok : ascii → bool) (s : string) :
  ok "/"%char = false → all_chars ok s = true → parent_of s = None.
Proof.
  intros Hslash. induction s as [|c s IH]; [done|]. cbn [all_chars parent_of].
  intros [Hc Hs]%andb_true_iff. rewrite (IH Hs).
  destruct (Ascii.eqb c "/") eqn:Heq; [|done].
  apply Ascii.eqb_eq in Heq as ->. congruence.
Qed.

Lemma project_name_single_segment (n : string) :
  project_name_ok n = true → n ≠ "" ∧ parent_of n = None.
Proof.
  destruct n as [|c n]; [done|]. cbn [project_name_ok].
  intros [Hc Hn]%andb_true_iff. split; [done|].
  cbn [parent_of]. rewrite (all_chars_no_slash _ _ eq_refl Hn).
  destruct (Ascii.eqb c "/") eqn:Heq; [|done].
  apply Ascii.eqb_eq in Heq as ->. done.
Qed.

(** A valid run works directly under the target directory: the project
    path is the target directory joined with the project name, the name
    is a single path segment (it holds no separator, and it is neither
    [.] nor [..]), so the parent of the project path is the target
    directory. *)
Theorem valid_project_path_is_child (a : Args) (fs : FS) (v : Validation) :
  validateInputs a fs = inr v →
  valid v = true →
  v_projectPath v = path_join (a_targetDir a) (a_projectName a) ∧
  parent_of (a_projectName a) = None ∧
  (a_projectName a ∉ [""; "."; ".."]) ∧
  parent (v_projectPath v) = a_targetDir a.
Proof.
  intros Hv Hvalid.
  destruct (validateInputs_inr _ _ _ Hv) as (e3 & Herr & Hval & Hpp & _).
  rewrite Hval, bool_decide_eq_true, Herr in Hvalid.
  apply app_nil in Hvalid as [Hname%check_name_nil _].
  destruct (project_name_single_segment _ Hname) as [Hne Hseg].
  rewrite bool_decide_eq_false_2 in Hpp by done. rewrite Hpp.
  split_and!; [done..| |by apply parent_join].
  intros Hin. rewrite !elem_of_cons, elem_of_nil in Hin.
  destruct Hin as [H|[H|[H|[]]]]; rewrite H in Hname; done.
Qed.



Lemma run_steps_fixed a p ks m :
  wp (run_steps a p ks) m
     (λ r m', freshCreation (m_state m') = freshCreation (m_state m) ∧
              components (m_state m') = components (m_state m)).
Proof.
  revert m. induction ks as [|k ks IH]; intros m; cbn [run_steps].
  - unfold finish, removeState, unlinkSync. by wp_run.
  - apply wp_bind. eapply wp_conseq; [apply run_step_summary|].
    intros r m1 (_ & Hc & Hf & _). destruct r as [[]|z|e]; [|done..].
    eapply wp_conseq; [apply IH|]. intros r m' [? ?]. split; congruence.
Qed.

(** Where the state of a valid run comes from.  Validation finds a state
    to resume from exactly when the project directory holds a checkpoint
    file whose document parses to a state; it finds none exactly when
    the project path does not exist, or holds a checkpoint whose
    document is a falsy value ([null], [false], [0]).  [main] treats the
    run as a fresh creation exactly when validation has found no state,
    the second case included: the state at exit then has
    [freshCreation] true and the resolved components, while a resumed
    run has [freshCreation] false and the components of the
    checkpoint. *)
Theorem existing_state_source (a : Args) (fs : FS) (v : Validation) :
  validateInputs a fs = inr v →
  valid v = true →
  let sf := stateFilePath (v_projectPath v) in
  (∀ s, existingState v = Some s ↔
        is_Some (fs !! v_projectPath v) ∧
        ∃ raw, fs !! sf = Some (File raw) ∧ JSON_parse raw = Some (Some s)) ∧
  (existingState v = None ↔
   fs !! v_projectPath v = None ∨
   ∃ raw, fs !! sf = Some (File raw) ∧ JSON_parse raw = Some None) ∧
  (∀ now, ∃ m,
     end_machine (main a fs now) = Some m ∧
     (freshCreation (m_state m) = true ↔ existingState v = None) ∧
     components (m_state m) =
       match existingState v with
       | Some s => components s
       | None => resolvedComponents v
       end).
Proof.
  intros Hv Hvalid sf.
  assert (∀ now, ∃ m,
            end_machine (main a fs now) = Some m ∧
            (freshCreation (m_state m) = true ↔ existingState v = None) ∧
            components (m_state m) =
              match existingState v with
              | Some s => components s
              | None => resolvedComponents v
              end) as Hmain.
  { intros now. unfold main. rewrite Hv, Hvalid. cbn [negb].
    set (m0 := {| m_state := _ |}).
    pose proof (run_steps_fixed a (v_projectPath v) Step.all m0) as Hfix.
    rewrite <- pipeline_run_steps in Hfix. unfold wp in Hfix.
    destruct (pipeline a (v_projectPath v) m0) as [[[]|z|e] m] eqn:Hrun;
      cbn [fst snd end_machine] in *; exists m; destruct Hfix as [-> ->];
      unfold m0; cbn [m_state]; (split; [done|]);
      destruct (existingState v); done. }
  destruct (validateInputs_inr _ _ _ Hv) as (e3 & Herr & Hval & Hpp & Hex & _).
  rewrite Hval, bool_decide_eq_true, Herr, !app_nil in Hvalid.
  destruct Hvalid as (_ & _ & _ & _ & He5).
  rewrite <- Hpp in Hex, He5. rewrite Hex in Hmain |- *. subst sf. unfold stateFilePath.
  revert He5 Hmain. unfold check_existing, existsSync, fs_readFile.
  destruct (fs !! v_projectPath v) as [node|] eqn:Hdir; cbn [fst snd].
  2:{ intros _ Hmain. split; [|split; [split; [by left | done] | done]].
      intros s. split; [done | by intros [[? ?] _]]. }
  destruct (fs !! path_join (v_projectPath v) STATE_FILENAME) as [[|raw]|] eqn:Hsf;
    cbn [fst snd]; [done| |done].
  destruct (JSON_parse raw) as [parsed|] eqn:Hparse; cbn [fst snd]; [|done].
  intros _ Hmain. split_and!; [| |done].
  - intros s. split.
    + intros ->. split; [by eexists|]. by exists raw.
    + intros (_ & raw' & [= <-] & Hp). congruence.
  - split.
    + intros ->. right. by exists raw.
    + intros [?|(raw' & [= <-] & Hp)]; congruence.
Qed.

(** Resuming reads back what was persisted: after a [saveState] that
    succeeds, a validation of the same project (its path is the target
    directory joined with the non-empty project name) finds the state
    that was saved as its existing state, provided [JSON.parse] reads
    back what [JSON.stringify] wrote for that state. *)
Theorem saved_checkpoint_is_resumed (a : Args) (m : Machine) (v : Validation) :
  let p := path_join (a_targetDir a) (a_projectName a) in
  let s' := set_updatedAt (m_now m) (m_state m) in
  a_projectName a ≠ "" →
  (saveState p m).1 = Ok tt →
  JSON_parse (JSON_stringify s') = Some (Some s') →
  validateInputs a (m_fs (saveState p m).2) = inr v →
  v_projectPath v = p ∧ existingState v = Some s' ∧
  m_state (saveState p m).2 = s'.
Proof.
  intros p s' Hname Hok Hparse Hv.
  pose proof (saveState_saved p m) as Hs. unfold wp in Hs.
  rewrite Hok in Hs. destruct Hs as (Hst & _ & _ & _ & Hfs & Hfr).
  destruct (Hfs eq_refl) as [Hfile Hdir]. fold s' in Hst. rewrite Hst in Hfile.
  destruct (validateInputs_inr _ _ _ Hv) as (e3 & _ & _ & Hpp & Hex & _).
  rewrite bool_decide_eq_false_2 in Hpp, Hex by done. fold p in Hpp, Hex.
  split_and!; [done| |done].
  rewrite Hex. unfold check_existing, existsSync, fs_readFile.
  rewrite Hfr by first [apply stateFilePath_ne | apply tmpPath_ne_dir].
  rewrite Hdir. change (path_join p STATE_FILENAME) with (stateFilePath p).
  rewrite Hfile. cbn. by rewrite Hparse.
Qed.

(** ** index.js: runs that succeed *)

(** A run that exits with SUCCESS has gone through every step and the
    epilogue. *)
Lemma pipeline_success_inv a p m m' :
  pipeline a p m = (Exit EXIT_CODES.SUCCESS, m') →
  ∃ m1 m2 m3 m4 m5,
    step_viteCreate a p m = (Ok tt, m1) ∧
    step_npmInstall p m1 = (Ok tt, m2) ∧
    step_shadcnInit p m2 = (Ok tt, m3) ∧
    step_componentInstall p m3 = (Ok tt, m4) ∧
    step_verification p m4 = (Ok tt, m5) ∧
    finish p m5 = (Exit EXIT_CODES.SUCCESS, m').
Proof.
  unfold pipeline, mbind, M_mbind, M_bind.
  pose proof (step_viteCreate_summary a p m) as H1. unfold wp in H1.
  destruct (step_viteCreate a p m) as [[[]|z|e] m1] eqn:E1; cbn [fst snd] in H1;
    [|destruct H1 as (_ & _ & _ & _ & -> & _); done|done].
  pose proof (step_npmInstall_summary p m1) as H2. unfold wp in H2.
  destruct (step_npmInstall p m1) as [[[]|z|e] m2] eqn:E2; cbn [fst snd] in H2;
    [|destruct H2 as (_ & _ & _ & _ & -> & _); done|done].
  pose proof (step_shadcnInit_summary p m2) as H3. unfold wp in H3.
  destruct (step_shadcnInit p m2) as [[[]|z|e] m3] eqn:E3; cbn [fst snd] in H3;
    [|destruct H3 as (_ & _ & _ & _ & -> & _); done|done].
  pose proof (step_componentInstall_summary p m3) as H4. unfold wp in H4.
  destruct (step_componentInstall p m3) as [[[]|z|e] m4] eqn:E4; cbn [fst snd] in H4;
    [|destruct H4 as (_ & _ & _ & _ & -> & _); done|done].
  pose proof (step_verification_summary p m4) as H5. unfold wp in H5.
  destruct (step_verification p m4) as [[[]|z|e] m5] eqn:E5; cbn [fst snd] in H5;
    [|destruct H5 as (_ & _ & _ & _ & -> & _); done|done].
  intros Hfin. by exists m1, m2, m3, m4, m5.
Qed.

(** What [main] returns, read back as a run of the pipeline. *)
Lemma main_success_inv a fs now :
  exit_code (main a fs now) = EXIT_CODES.SUCCESS →
  ∃ v m',
    validateInputs a fs = inr v ∧ valid v = true ∧
    end_validation (main a fs now) = Some v ∧ end_machine (main a fs now) = Some m' ∧
    pipeline a (v_projectPath v)
      {| m_state := match existingState v with
                    | Some existing => set_freshCreation false existing
                    | None => createInitialState (a_projectName a) (v_projectPath v)
                                (a_template a) (resolvedComponents v) now
                    end;
         m_fs := fs; m_now := now; m_trace := [] |} = (Exit EXIT_CODES.SUCCESS, m').
Proof.
  unfold main. destruct (validateInputs a fs) as [e|v]; [done|].
  destruct (valid v) eqn:Hvalid; cbn [negb]; [|done].
  set (m0 := {| m_state := _ |}).
  pose proof (run_steps_summary a (v_projectPath v) Step.all m0) as Hsum.
  rewrite <- pipeline_run_steps in Hsum. unfold wp in Hsum.
  destruct (pipeline a (v_projectPath v) m0) as [[[]|z|e] m'] eqn:Hrun;
    cbn [fst snd exit_code end_validation end_machine] in *.
  - by destruct Hsum as (? & _ & _ & ?).
  - intros ->. by exists v, m'.
  - done.
Qed.

Lemma blocking_path_ne p rel :
  rel ∈ blocking_paths →
  path_join p rel ≠ stateFilePath p ∧ path_join p rel ≠ tmpPath p.
Proof.
  intros Hin. unfold tmpPath, stateFilePath, path_join.
  rewrite !string_app_assoc.
  split; intros H; do 2 apply (inj (String.append _)) in H; subst rel;
    unfold blocking_paths in Hin; rewrite !elem_of_cons, elem_of_nil in Hin;
    by destruct Hin as [|[|[|[|]]]].
Qed.

Lemma verify_valid_paths fs p comps rel :
  v_valid (verifyProject fs p comps) = true → rel ∈ blocking_paths →
  is_Some (fs !! path_join p rel).
Proof.
  unfold verifyProject. cbn [v_valid]. fold blocking_paths.
  intros Hnil%bool_decide_eq_true Hrel.
  destruct (fs !! path_join p rel) eqn:Hl; [by eexists|].
  assert (rel ∈ @nil string) as Habs; [|by apply elem_of_nil in Habs].
  rewrite <- Hnil. apply list_elem_of_filter. split; [|done].
  unfold existsSync. by rewrite Hl.
Qed.

Lemma step_verification_checks p m m' :
  status_of (m_state m) Step.verification ≠ done →
  step_verification p m = (Ok tt, m') →
  ∀ rel, rel ∈ blocking_paths → is_Some (m_fs m' !! path_join p rel).
Proof.
  intros Hnd Hrun rel Hrel.
  destruct (blocking_path_ne p rel Hrel) as [Hne1 Hne2].
  assert (wp (step_verification p) m
            (λ r m', r = Ok tt → is_Some (m_fs m' !! path_join p rel))) as Hwp.
  { unfold step_verification. wp_auto; norm; read_guard; try done.
    intros _. destruct Hsaved0 as (_ & _ & _ & _ & _ & Hfr).
    rewrite Hfr by done. norm. apply negb_false_iff in Heqb0.
    by eapply verify_valid_paths. }
  unfold wp in Hwp. rewrite Hrun in Hwp. by apply Hwp.
Qed.

Lemma finish_frame p m m' z :
  finish p m = (Exit z, m') →
  m_state m' = m_state m ∧ ∀ q, q ≠ stateFilePath p → m_fs m' !! q = m_fs m !! q.
Proof.
  unfold finish, removeState, mbind, M_mbind, M_bind, get_fs, unlinkSync, syscall, exit.
  destruct (existsSync (m_fs m) (stateFilePath p)).
  - destruct (fs_unlink (m_fs m) (stateFilePath p)) as [e|fs'] eqn:Hu; [done|].
    apply fs_unlink_inr in Hu as ->. intros [= _ <-]. cbn. split; [done|].
    intros q Hq. by rewrite lookup_delete_ne.
  - by intros [= _ <-].
Qed.

(** A run that exits with SUCCESS and did not start from a checkpoint
    whose verification was already done (a fresh run, for one) leaves
    the four blocking paths in the project directory: the verification
    has really been passed, and nothing after it touches them. *)
Theorem successful_run_is_verified (a : Args) (fs : FS) (now : Z) :
  let e := main a fs now in
  exit_code e = EXIT_CODES.SUCCESS →
  ∃ v m,
    end_validation e = Some v ∧ end_machine e = Some m ∧
    ((∀ s, existingState v = Some s → status_of s Step.verification ≠ done) →
     ∀ rel, rel ∈ blocking_paths → is_Some (m_fs m !! path_join (v_projectPath v) rel)).
Proof.
  intros e Hexit. subst e.
  destruct (main_success_inv _ _ _ Hexit) as (v & m' & _ & _ & Hv & Hm & Hrun).
  exists v, m'. split_and!; [done..|]. intros Hnd rel Hrel.
  apply pipeline_success_inv in Hrun as (m1 & m2 & m3 & m4 & m5 & H1 & H2 & H3 & H4 & H5 & H6).
  match type of H1 with
  | step_viteCreate _ _ ?m0 = _ =>
      pose proof (step_viteCreate_summary a (v_projectPath v) m0) as S1
  end.
  pose proof (step_npmInstall_summary (v_projectPath v) m1) as S2.
  pose proof (step_shadcnInit_summary (v_projectPath v) m2) as S3.
  pose proof (step_componentInstall_summary (v_projectPath v) m3) as S4.
  unfold wp in S1, S2, S3, S4. rewrite H1 in S1. rewrite H2 in S2. rewrite H3 in S3.
  rewrite H4 in S4.
  destruct S1 as (F1 & _), S2 as (F2 & _), S3 as (F3 & _), S4 as (F4 & _).
  cbn [fst snd] in *.
  assert (status_of (m_state m4) Step.verification ≠ done) as Hnd4.
  { rewrite F4, F3, F2, F1 by done. cbn [m_state].
    destruct (existingState v) as [s|] eqn:Hex; [|done].
    change (status_of s Step.verification ≠ done). by apply Hnd. }
  destruct (finish_frame _ _ _ _ H6) as [_ Hfr].
  destruct (blocking_path_ne (v_projectPath v) rel Hrel) as [Hne _].
  rewrite Hfr by done. by eapply step_verification_checks.
Qed.

(** ** index.js: what a run installs *)

Lemma installComponents_adds_only T p comps m :
  wp (installComponents_with T p comps) m
     (λ r m', ∃ evs, emitted m m' evs ∧ Forall (adds_only p comps) evs).
Proof.
  assert (∀ names t, names ⊆ comps → adds_only p comps (EvSpawn (add_command p names t)))
    as Hadd.
  { intros names t Hsub c [= <-] _. by exists names, t. }
  eapply wp_conseq; [apply installComponents_trace|].
  intros r m' (res & evs & -> & _ & Hev & _ & _ & Hcmds).
  exists evs. split; [done|].
  destruct Hcmds as [[_ ->]|(Hne & att & -> & Ha & _)]; [constructor|].
  constructor; [by apply Hadd|].
  apply Forall_fmap, Forall_forall. intros [name t] Hin. cbn.
  apply Hadd. intros x ->%list_elem_of_singleton.
  apply (sublist_subseteq _ _ Ha). by apply (list_elem_of_fmap_2 fst _ (name, t)).
Qed.

Lemma persist_attempt_adds_only p q comps s evs :
  persist_attempt q s evs → Forall (adds_only p comps) evs.
Proof. intros [->|[->| ->]]; repeat constructor; by intros c [=]. Qed.

Lemma step_componentInstall_adds_only p m :
  wp (step_componentInstall p) m
     (λ r m', ∃ evs, emitted m m' evs ∧
                     Forall (adds_only p (components (m_state m))) evs).
Proof.
  unfold step_componentInstall. apply wp_bind, wp_get_state. cbv beta iota.
  wp_step; [|wp_run; exists []; split; [apply emitted_refl | constructor]].
  apply wp_bind. wp_call; destruct Hsaved as (Hst1 & _ & (evs1 & Hev1 & Hatt1 & _) & _);
    norm.
  2:{ exists evs1. split; [done|]. by eapply persist_attempt_adds_only. }
  apply wp_bind, wp_get_state. cbv beta iota.
  apply wp_bind. eapply wp_conseq; [apply installComponents_adds_only|].
  intros r m2 (evs2 & Hev2 & Hall2). rewrite Hst1 in Hall2. cbn in Hall2.
  assert (∀ m3 evs3, emitted m2 m3 evs3 → Forall (adds_only p (components (m_state m))) evs3 →
            ∃ evs, emitted m m3 evs ∧ Forall (adds_only p (components (m_state m))) evs)
    as Hgo.
  { intros m3 evs3 Hev3 Hall3. exists (evs1 ++ evs2 ++ evs3). split.
    - unfold emitted in *. norm. rewrite Hev3, Hev2, Hev1. by rewrite <- !app_assoc.
    - rewrite !Forall_app. split_and!; [by eapply persist_attempt_adds_only | done..]. }
  destruct r as [res|z|e]; [|apply (Hgo _ []); [apply emitted_refl | constructor]..].
  wp_call; destruct Hsaved as (_ & _ & (evs3 & Hev3 & Hatt3 & _) & _); norm;
    (eapply Hgo; [exact Hev3 | by eapply persist_attempt_adds_only]).
Qed.

Lemma run_step_adds_only a p k m :
  wp (run_step a p k) m
     (λ r m', components (m_state m') = components (m_state m) ∧
              ∃ evs, emitted m m' evs ∧
                     Forall (adds_only p (components (m_state m))) evs).
Proof.
  pose proof (run_step_summary a p k m) as Hs.
  assert (k = Step.componentInstall ∨ k ≠ Step.componentInstall) as [->|Hk]
    by (destruct k; auto).
  - pose proof (step_componentInstall_adds_only p m) as Ha.
    unfold wp in *. cbn [run_step] in *. destruct Hs as (_ & Hc & _). done.
  - unfold wp in *. destruct Hs as (_ & Hc & _ & (evs & Hev & Hall) & _).
    split; [done|]. exists evs. split; [done|].
    eapply Forall_impl; [done|]. intros ev Hk' c -> Hkind. cbn in Hk'. congruence.
Qed.

Lemma run_steps_adds_only a p ks m :
  wp (run_steps a p ks) m
     (λ r m', ∃ evs, emitted m m' evs ∧
                     Forall (adds_only p (components (m_state m))) evs).
Proof.
  revert m. induction ks as [|k ks IH]; intros m.
  - pose proof (finish_summary p m) as Hf. unfold wp in *. cbn [run_steps].
    destruct Hf as (evs & Hev & Hall & _). exists evs. split; [done|].
    eapply Forall_impl; [done|]. intros ev [(k & Hk%elem_of_nil & _)|[->| ->]]; [done|..];
      by intros c [=].
  - cbn [run_steps]. apply wp_bind. eapply wp_conseq; [apply run_step_adds_only|].
    intros r m1 (Hc & evs1 & Hev1 & Hall1).
    destruct r as [[]|z|e]; [|by exists evs1..].
    eapply wp_conseq; [apply IH|]. intros r m' (evs2 & Hev2 & Hall2).
    exists (evs1 ++ evs2). split; [by eapply emitted_trans|].
    apply Forall_app. split; [done|]. by rewrite <- Hc.
Qed.

(** What a run installs is decided by its state, not by its command
    line: every [shadcn add] command of a resumed run installs names of
    the checkpoint's component list only, whatever template and
    components the resuming command line gives; in a fresh run the names
    come from the list the validation resolved. *)
Theorem run_installs_state_components (a : Args) (fs : FS) (now : Z) (v : Validation)
    (m : Machine) :
  end_validation (main a fs now) = Some v →
  end_machine (main a fs now) = Some m →
  Forall (adds_only (v_projectPath v)
            (match existingState v with
             | Some s => components s
             | None => resolvedComponents v
             end)) (m_trace m).
Proof.
  intros Hv Hm. unfold main in Hv, Hm.
  destruct (validateInputs a fs) as [err|v']; [done|].
  destruct (valid v'); cbn [negb] in *; [|done].
  set (m0 := {| m_state := _ |}) in *.
  pose proof (run_steps_adds_only a (v_projectPath v') Step.all m0) as Hs.
  rewrite <- pipeline_run_steps in Hs. unfold wp in Hs.
  destruct (pipeline a (v_projectPath v') m0) as [[[]|z|err] m'];
    cbn [fst snd end_validation end_machine] in *; simplify_eq;
    destruct Hs as (evs & Hev & Hall); unfold emitted in Hev; cbn in Hev; rewrite Hev;
    by destruct (existingState v).
Qed.

(** ** index.js: the value of [--components] *)

Lemma all_chars_impl (ok ok' : ascii → bool) (s : string) :
  (∀ c, ok c = true → ok' c = true) → all_chars ok s = true → all_chars ok' s = true.
Proof.
  intros Himpl. induction s as [|c s IH]; [done|]. cbn [all_chars].
  intros [Hc Hs]%andb_true_iff. apply andb_true_iff. auto.
Qed.

Lemma component_char_plain (c : ascii) :
  is_lower c || is_digit c || Ascii.eqb c "-" = true → plain c = true.
Proof. destruct c as [[] [] [] [] [] [] [] []]; by vm_compute. Qed.

Lemma component_name_plain (n : string) :
  component_name_ok n = true → n ≠ "" ∧ all_chars plain n = true.
Proof.
  destruct n as [|c n]; [done|]. cbn [component_name_ok all_chars].
  intros [Hc Hn]%andb_true_iff. split; [done|]. apply andb_true_iff. split.
  - apply component_char_plain. by rewrite Hc.
  - revert Hn. apply all_chars_impl. apply component_char_plain.
Qed.

Lemma split_comma_plain (s : string) : all_chars plain s = true → split_comma s = [s].
Proof.
  induction s as [|c s IH]; [done|]. cbn [all_chars split_comma].
  intros [Hc Hs]%andb_true_iff. rewrite (IH Hs).
  apply andb_true_iff in Hc as [Hc _]. apply negb_true_iff in Hc. by rewrite Hc.
Qed.

Lemma split_comma_app (s r : string) :
  all_chars plain s = true → split_comma (s +:+ "," +:+ r) = s :: split_comma r.
Proof.
  induction s as [|c s IH]; [done|]. cbn [all_chars].
  intros [Hc Hs]%andb_true_iff. rewrite string_app_cons. cbn [split_comma].
  rewrite (IH Hs). apply andb_true_iff in Hc as [Hc _]. apply negb_true_iff in Hc.
  by rewrite Hc.
Qed.

Lemma trimEnd_plain (s : string) : all_chars plain s = true → trimEnd s = s.
Proof.
  induction s as [|c s IH]; [done|]. cbn [all_chars trimEnd].
  intros [Hc Hs]%andb_true_iff. rewrite (IH Hs).
  apply andb_true_iff in Hc as [_ Hc]. apply negb_true_iff in Hc.
  destruct s; [by rewrite Hc | done].
Qed.

Lemma trim_plain (s : string) : all_chars plain s = true → trim s = s.
Proof.
  intros Hs. unfold trim.
  assert (trimStart s = s) as ->; [|by apply trimEnd_plain].
  destruct s as [|c s]; [done|]. cbn [all_chars trimStart] in *.
  apply andb_true_iff in Hs as [[_ Hc%negb_true_iff]%andb_true_iff _]. by rewrite Hc.
Qed.

Lemma trim_space_plain (s : string) : all_chars plain s = true → trim (" " +:+ s) = s.
Proof.
  intros Hs. unfold trim. rewrite string_app_cons, string_app_nil_l.
  change (trimStart (String " " s)) with (trimStart s). by apply trim_plain.
Qed.

Lemma join_cons_cons (sep x y : string) (l : list string) :
  join sep (x :: y :: l) = x +:+ sep +:+ join sep (y :: l).
Proof. reflexivity. Qed.

Lemma all_chars_app (ok : ascii → bool) (s t : string) :
  all_chars ok (s +:+ t) = all_chars ok s && all_chars ok t.
Proof.
  induction s as [|c s IH]; [done|]. rewrite string_app_cons. cbn [all_chars].
  by rewrite IH, andb_assoc.
Qed.

(** The names read back from a separated list, with or without a space
    in front. *)
Lemma parse_joined (sep pre : string) (l : list string) :
  (sep = "," ∨ sep = ", ") → (pre = "" ∨ pre = " ") →
  l ≠ [] → Forall (λ n, component_name_ok n = true) l →
  filter (λ s, s ≠ "") (trim <$> split_comma (pre +:+ join sep l)) = l.
Proof.
  intros Hsep Hpre Hne Hall. revert pre Hpre.
  induction Hall as [|x l Hx Hall IH]; [done|]. intros pre Hpre.
  apply component_name_plain in Hx as [Hx Hplain].
  assert (trim (pre +:+ x) = x) as Htrim.
  { destruct Hpre as [->| ->]; [by apply trim_plain | by apply trim_space_plain]. }
  destruct l as [|y l].
  - cbn [join].
    assert (split_comma (pre +:+ x) = [pre +:+ x]) as ->.
    { destruct Hpre as [->| ->]; [by apply split_comma_plain|].
      rewrite string_app_cons, string_app_nil_l. cbn [split_comma].
      by rewrite (split_comma_plain x). }
    cbn [fmap list_fmap]. rewrite Htrim, filter_cons_True by done. done.
  - rewrite join_cons_cons.
    assert (∃ pre', (pre' = "" ∨ pre' = " ") ∧
              split_comma (pre +:+ x +:+ sep +:+ join sep (y :: l)) =
              (pre +:+ x) :: split_comma (pre' +:+ join sep (y :: l))) as (pre' & Hpre' & ->).
    { destruct Hsep as [->| ->]; [exists "" | exists " "]; (split; [auto|]).
      - destruct Hpre as [->| ->].
        + by rewrite !string_app_nil_l, split_comma_app.
        + rewrite string_app_cons, !string_app_nil_l. cbn [split_comma].
          by rewrite split_comma_app.
      - change (", " +:+ join ", " (y :: l)) with ("," +:+ " " +:+ join ", " (y :: l)).
        destruct Hpre as [->| ->].
        + by rewrite !string_app_nil_l, split_comma_app.
        + rewrite string_app_cons, !string_app_nil_l. cbn [split_comma].
          by rewrite split_comma_app. }
    rewrite fmap_cons, Htrim, filter_cons_True by done.
    f_equal. by apply IH.
Qed.

(** Round trip for the value of [--components]: a list of well-formed
    component names written with commas, or with commas followed by a
    space, is read back as it was; the empty value gives the empty
    list.  With a project name and without [--help], [parseCLIArgs]
    returns these names as the components of the run. *)
Theorem components_option_round_trip (l : list string) :
  Forall (λ n, component_name_ok n = true) l →
  parse_components (join "," l) = l ∧
  parse_components (join ", " l) = l ∧
  ∀ resolve values name rest,
    cli_help values = false → cli_components values = join "," l →
    ∃ a, parseCLIArgs resolve values (name :: rest) = Ok a ∧
         a_projectName a = name ∧ a_components a = l.
Proof.
  intros Hall.
  assert (∀ sep, sep = "," ∨ sep = ", " → parse_components (join sep l) = l) as Hrt.
  { intros sep Hsep. destruct l as [|x l]; [done|].
    unfold parse_components. rewrite bool_decide_eq_false_2.
    - rewrite <- (string_app_nil_l (join sep (x :: l))). apply parse_joined; auto.
    - apply Forall_cons in Hall as [[Hx _]%component_name_plain _].
      destruct l; [done|]. rewrite join_cons_cons. by destruct x. }
  split_and!; [by apply Hrt; left | by apply Hrt; right |].
  intros resolve values name rest Hhelp Hcomps. unfold parseCLIArgs.
  rewrite Hhelp, bool_decide_eq_false_2 by done. cbn [orb].
  eexists. split; [reflexivity|]. cbn. rewrite Hcomps. split; [done|]. apply Hrt. by left.
Qed.










(** ** lib/utils.js: durations *)

(** A non-negative duration is rendered rounded to the nearest second,
    halves up: as seconds alone below one minute (that is, below
    59.5 s), and otherwise as minutes and seconds, with the seconds
    between 0 and 59. *)
Theorem formatDuration_rounds (ms : Z) :
  0 ≤ ms →
  let t := (ms + 500) / 1000 in
  1000 * t - 500 ≤ ms < 1000 * t + 500 ∧
  0 ≤ t `mod` 60 < 60 ∧
  t = 60 * (t / 60) + t `mod` 60 ∧
  (t < 60 ↔ ms < 59500) ∧
  formatDuration ms =
    if bool_decide (t < 60) then pretty t +:+ "s"
    else pretty (t / 60) +:+ "m " +:+ pretty (t `mod` 60) +:+ "s".
Proof.
  intros Hms t.
  assert (0 ≤ t) as Ht by (apply Z.div_pos; lia).
  pose proof (Z.div_mod (ms + 500) 1000 ltac:(lia)) as Hdm.
  pose proof (Z.mod_pos_bound (ms + 500) 1000 ltac:(lia)) as Hb. fold t in Hdm.
  pose proof (Z.mod_pos_bound t 60 ltac:(lia)) as Hb60.
  pose proof (Z.div_mod t 60 ltac:(lia)) as Hdm60.
  split_and!; try lia.
  unfold formatDuration. fold t. cbv zeta.
  rewrite Z.rem_mod_nonneg by lia.
  case_bool_decide as Hlt.
  - rewrite Z.div_small, Z.mod_small by lia. done.
  - assert (t / 60 ≠ 0) as Hne.
    { intros H0. rewrite H0 in Hdm60. lia. }
    by rewrite (proj2 (Z.eqb_neq _ _) Hne).
Qed.

(** ** index.js: the summary *)

Lemma headline_cases (s : ScaffoldState) :
  (all_done s ∧ failedComponents s = [] ∧ headline s = "  PROJECT SCAFFOLDED SUCCESSFULLY") ∨
  (all_done s ∧ failedComponents s ≠ [] ∧ headline s = "  PROJECT CREATED (with warnings)") ∨
  (¬ all_done s ∧ headline s = "  SCAFFOLDING INCOMPLETE").
Proof.
  unfold headline. cbv zeta.
  destruct (forallb _ Step.all) eqn:Hall.
  - assert (all_done s) as Hd.
    { intros k. rewrite forallb_forall in Hall.
      eapply bool_decide_eq_true_1, (Hall k), list_elem_of_In, elem_of_Step_all. }
    cbn [andb]. case_bool_decide; [left | right; left]; done.
  - right. right. split; [|done]. intros Hd.
    assert (forallb (λ k, bool_decide (status_of s k = done)) Step.all = true) as Hall'
      by (apply forallb_forall; intros k _; by apply bool_decide_eq_true).
    congruence.
Qed.

Lemma main_exit_all_done a fs now m :
  end_machine (main a fs now) = Some m → crashed (main a fs now) = false →
  (exit_code (main a fs now) = EXIT_CODES.SUCCESS ↔ all_done (m_state m)).
Proof.
  unfold main. destruct (validateInputs a fs) as [e|v]; [done|].
  destruct (valid v); cbn [negb]; [|done].
  set (m0 := {| m_state := _ |}).
  pose proof (run_steps_summary a (v_projectPath v) Step.all m0) as Hsum.
  rewrite <- pipeline_run_steps in Hsum. unfold wp in Hsum.
  destruct (pipeline a (v_projectPath v) m0) as [[[]|z|e] m'];
    cbn [fst snd exit_code end_machine crashed] in *; [|intros [= <-] _|done].
  { by destruct Hsum as (? & _ & _ & ?). }
  destruct Hsum as (evs & _ & _ & [(-> & Hdone & _)|(-> & (k & _ & Hk) & _)]).
  - split; [|done]. intros _ k. apply Hdone, elem_of_Step_all.
  - split; [done|]. intros Hall. specialize (Hall k). congruence.
Qed.

(** Two lines of the summary that differ in their first characters. *)
Ltac string_clash H :=
  unfold newline, esc in H; cbn [str_repeat] in H;
  rewrite ?string_app_cons, ?string_app_nil_l in H; discriminate H.

Ltac no_such_line H :=
  repeat first
    [ apply elem_of_nil in H; destruct H
    | apply elem_of_cons in H as [H|H]; [string_clash H|]
    | apply list_elem_of_fmap in H as (? & H & _); string_clash H ].

Lemma next_steps_only_when_done (s : ScaffoldState) :
  "  Next steps:" ∈ printSummary s ↔ all_done s.
Proof.
  unfold printSummary, headline. cbv zeta.
  assert (forallb (λ k, bool_decide (status_of s k = done)) Step.all = true ↔ all_done s)
    as Hall.
  { rewrite forallb_forall. split.
    - intros H k. eapply bool_decide_eq_true_1, (H k), list_elem_of_In, elem_of_Step_all.
    - intros H k _. by apply bool_decide_eq_true. }
  split.
  - intros Hin. apply Hall.
    destruct (forallb _ Step.all); [done|]. exfalso. rewrite app_nil_r in Hin.
    cbn [andb] in Hin.
    repeat (apply elem_of_app in Hin as [Hin|Hin]).
    + no_such_line Hin.
    + cbn [fmap list_fmap stepLabels] in Hin. no_such_line Hin.
    + case_bool_decide; no_such_line Hin.
    + case_bool_decide; no_such_line Hin.
    + destruct (error s) as [e|]; [case_bool_decide|]; no_such_line Hin.
    + no_such_line Hin.
  - intros Hd. apply Hall in Hd. rewrite Hd.
    rewrite !elem_of_app. do 6 right. apply elem_of_cons. right. apply elem_of_cons. by left.
Qed.

(** The summary agrees with the exit code.  When a run ends through the
    pipeline (not in a failed validation or an unexpected exception),
    the summary it prints is that of its final state; its headline, the
    second line, is [PROJECT SCAFFOLDED SUCCESSFULLY] or
    [PROJECT CREATED (with warnings)] exactly when the exit code is 0,
    the second exactly when in addition some component failed, and
    [SCAFFOLDING INCOMPLETE] otherwise; the [Next steps] block is
    printed exactly when the exit code is 0. *)
Theorem summary_matches_exit (a : Args) (fs : FS) (now : Z) (m : Machine) :
  let e := main a fs now in
  let out := printSummary (m_state m) in
  end_machine e = Some m →
  crashed e = false →
  printed_summary e = Some out ∧
  out !! 1%nat = Some (headline (m_state m)) ∧
  (exit_code e = EXIT_CODES.SUCCESS ↔ headline (m_state m) ≠ "  SCAFFOLDING INCOMPLETE") ∧
  (exit_code e = EXIT_CODES.SUCCESS ∧ failedComponents (m_state m) = [] ↔
   headline (m_state m) = "  PROJECT SCAFFOLDED SUCCESSFULLY") ∧
  (exit_code e = EXIT_CODES.SUCCESS ∧ failedComponents (m_state m) ≠ [] ↔
   headline (m_state m) = "  PROJECT CREATED (with warnings)") ∧
  (exit_code e = EXIT_CODES.SUCCESS ↔ "  Next steps:" ∈ out).
Proof.
  intros e out Hm Hc. subst e out.
  pose proof (main_exit_all_done _ _ _ _ Hm Hc) as Hexit.
  split_and!.
  - unfold printed_summary. by rewrite Hm, Hc.
  - reflexivity.
  - rewrite Hexit.
    destruct (headline_cases (m_state m)) as [(? & ? & ->)|[(? & ? & ->)|(? & ->)]];
      split; done.
  - rewrite Hexit.
    destruct (headline_cases (m_state m)) as [(? & ? & ->)|[(? & ? & ->)|(? & ->)]];
      split; try done; by intros [? ?].
  - rewrite Hexit.
    destruct (headline_cases (m_state m)) as [(? & ? & ->)|[(? & ? & ->)|(? & ->)]];
      split; try done; by intros [? ?].
  - rewrite Hexit. symmetry. apply next_steps_only_when_done.
Qed.

(** ** index.js: a run in which the tools work *)

Lemma commands_of_app evs1 evs2 :
  commands_of (evs1 ++ evs2) = commands_of evs1 ++ commands_of evs2.
Proof. apply omap_app. Qed.

Lemma saveState_ready p m :
  writable_checkpoint p (m_fs m) →
  let s' := set_updatedAt (m_now m) (m_state m) in
  let data := JSON_stringify s' in
  saveState p m =
  (Ok tt, {| m_state := s';
             m_fs := <[stateFilePath p := File data]>
                       (delete (tmpPath p) (<[tmpPath p := File data]> (m_fs m)));
             m_now := m_now m;
             m_trace := m_trace m ++ persisted p s' |}).
Proof.
  intros (Hp & Hs & Ht) s' data.
  pose proof (tmpPath_ne p) as Hne.
  unfold saveState, mbind, M_mbind, M_bind, clock, modify_state, get_state, writeFileSync,
    renameSync, syscall, with_state; cbn [fst snd m_state m_fs m_now m_trace].
  change (stateFilePath p +:+ ".tmp") with (tmpPath p). fold s' data.
  unfold fs_writeFile. rewrite parent_tmpPath, Hp.
  destruct (m_fs m !! tmpPath p) as [[|d0]|] eqn:Htmp; [done|..];
    cbn [fst snd m_state m_fs m_now m_trace];
    unfold fs_rename; rewrite lookup_insert_eq, parent_stateFilePath;
    rewrite (lookup_insert_ne _ (tmpPath p) p) by (intros ?; by eapply tmpPath_ne_dir);
    rewrite (lookup_insert_ne _ (tmpPath p) (stateFilePath p)) by done; rewrite Hp;
    destruct (m_fs m !! stateFilePath p) as [[|d2]|] eqn:Hsf; try done;
    cbn [fst snd m_state m_fs m_now m_trace]; unfold persisted; by rewrite <- app_assoc.
Qed.

(** A persist in a project directory that can take the checkpoint. *)
Lemma wp_updateStep_ready p k st x m (Q : Res unit → Machine → Prop) :
  writable_checkpoint p (m_fs m) →
  (∀ m',
     m_state m' = set_updatedAt (m_now m) (assign x (set_step k st (m_state m))) →
     m_now m' = m_now m →
     writable_checkpoint p (m_fs m') →
     (∃ d, m_fs m' !! stateFilePath p = Some (File d)) →
     (∀ q, q ≠ stateFilePath p → q ≠ tmpPath p → m_fs m' !! q = m_fs m !! q) →
     commands_of (m_trace m') = commands_of (m_trace m) →
     Q (Ok tt) m') →
  wp (updateStep p k st x) m Q.
Proof.
  intros Hw HQ. unfold updateStep. apply wp_bind, wp_modify_state. cbv beta iota.
  apply wp_bind, wp_modify_state. cbv beta iota.
  unfold wp. rewrite saveState_ready by done. cbn [fst snd].
  destruct Hw as (Hp & Hs & Ht). apply HQ; cbn [m_state m_fs m_now m_trace with_state].
  - done.
  - done.
  - split_and!.
    + rewrite lookup_insert_ne by apply not_eq_sym, stateFilePath_ne.
      rewrite lookup_delete_ne by apply not_eq_sym, tmpPath_ne_dir.
      by rewrite lookup_insert_ne by apply not_eq_sym, tmpPath_ne_dir.
    + by rewrite lookup_insert_eq.
    + rewrite lookup_insert_ne by apply not_eq_sym, tmpPath_ne.
      by rewrite lookup_delete_eq.
  - rewrite lookup_insert_eq. by eexists.
  - intros q Hq1 Hq2. by rewrite lookup_insert_ne, lookup_delete_ne, lookup_insert_ne.
  - rewrite commands_of_app. unfold persisted. cbn. by rewrite app_nil_r.
Qed.

(** A command in a world where the tools work. *)
Lemma wp_runCommand_cooperative p c m (Q : Res RunResult → Machine → Prop) :
  cooperative p →
  ready p c (m_fs m) →
  (∀ res m',
     code res = Some 0 → timedOut res = false →
     m_state m' = m_state m →
     (m_fs m !! p = Some Dir → m_fs m' !! p = Some Dir) →
     (∀ rel, rel ∈ blocking_paths → is_Some (m_fs m !! path_join p rel) →
             is_Some (m_fs m' !! path_join p rel)) →
     (spawn_kind c = Some Step.viteCreate →
        m_fs m' !! p = Some Dir ∧
        ∀ rel, rel ∈ bootstrap_paths → is_Some (m_fs m' !! path_join p rel)) →
     (spawn_kind c = Some Step.npmInstall →
        is_Some (m_fs m' !! path_join p "node_modules")) →
     m_fs m' !! stateFilePath p = m_fs m !! stateFilePath p →
     m_fs m' !! tmpPath p = m_fs m !! tmpPath p →
     commands_of (m_trace m') = commands_of (m_trace m) ++ [c] →
     Q (Ok res) m') →
  wp (runCommand c) m Q.
Proof.
  intros Hco Hready HQ. unfold wp, runCommand. cbv zeta.
  destruct (Hco c (m_fs m) (m_now m)) as (Hexit & Hp & Hb & Hv & Hn & Hs & Ht).
  destruct (Hexit Hready) as [sig Hsig].
  rewrite Hsig. cbn [fst snd]. apply HQ; cbn [code timedOut m_state m_fs m_trace]; auto.
  - rewrite (bool_decide_eq_false_2 (Some 0 = None)) by done. apply andb_false_r.
  - rewrite commands_of_app. done.
Qed.

Ltac coop :=
  lazymatch goal with
  | |- wp (updateStep _ _ _ _) _ _ =>
      apply wp_updateStep_ready; [|intros ? ?Hst ?Hnow ?Hw ?Hfile ?Hfr ?Hcmd]
  | |- wp (runCommand _) _ _ =>
      eapply wp_runCommand_cooperative;
      [eassumption| |intros ? ? ?Hcode ?Hto ?Hst ?Hdir ?Hmono ?Hboot ?Hnm ?Hsf ?Htmp ?Hcmd]
  | |- wp (mbind _ _) _ _ => apply wp_bind
  | |- wp (try_catch _ _) _ _ => apply wp_try_catch
  | |- wp get_state _ _ => apply wp_get_state
  | |- wp get_fs _ _ => apply wp_get_fs
  | |- wp clock _ _ => apply wp_clock
  | |- wp (mret _) _ _ => apply wp_ret
  | |- wp (exit _) _ _ => apply wp_exit
  end; cbv beta iota zeta.

Lemma exists_path (fs : FS) q : is_Some (fs !! q) → existsSync fs q = true.
Proof. intros [? H]. unfold existsSync. by rewrite H. Qed.

Lemma bootstrap_blocking rel : rel ∈ bootstrap_paths → rel ∈ blocking_paths.
Proof.
  unfold bootstrap_paths, blocking_paths. rewrite !elem_of_cons, !elem_of_nil. tauto.
Qed.

Lemma blocking_cases rel :
  rel ∈ blocking_paths → rel ∈ bootstrap_paths ∨ rel = "node_modules".
Proof.
  unfold bootstrap_paths, blocking_paths. rewrite !elem_of_cons, !elem_of_nil. tauto.
Qed.

(** The paths of [paths] survive a persist. *)
Lemma persist_keeps_paths p (paths : list string) (fs fs' : FS) :
  (∀ rel, rel ∈ paths → rel ∈ blocking_paths) →
  (∀ q, q ≠ stateFilePath p → q ≠ tmpPath p → fs' !! q = fs !! q) →
  (∀ rel, rel ∈ paths → is_Some (fs !! path_join p rel)) →
  ∀ rel, rel ∈ paths → is_Some (fs' !! path_join p rel).
Proof.
  intros Hsub Hfr H rel Hrel.
  destruct (blocking_path_ne p rel (Hsub _ Hrel)) as [? ?]. rewrite Hfr by done. auto.
Qed.

Ltac back_cmds :=
  repeat match goal with H : commands_of (m_trace _) = _ |- _ => rewrite H end;
  rewrite <- ?app_assoc, ?app_nil_r.

Ltac still_writable :=
  match goal with
  | Hw : writable_checkpoint ?p (m_fs ?m0), Hd : m_fs ?m0 !! ?p = Some Dir → _,
    Hs : m_fs ?m1 !! stateFilePath ?p = m_fs ?m0 !! _,
    Ht : m_fs ?m1 !! tmpPath ?p = m_fs ?m0 !! _ |- writable_checkpoint ?p (m_fs ?m1) =>
      destruct Hw as (? & ? & ?); split_and!; [by apply Hd | by rewrite Hs | by rewrite Ht]
  end.

Ltac settle_step :=
  unfold step_succeeds; split_and!;
  [ done | done | done
  | eapply persist_keeps_paths; first [eassumption | by auto using bootstrap_blocking]
  | by back_state
  | intros k' Hk'; back_state; by destruct k'
  | by back_state
  | intros ?; by back_state
  | by back_cmds ].

Lemma step_viteCreate_cooperative a p m :
  cooperative p → p = path_join (a_targetDir a) (a_projectName a) →
  m_fs m !! p = None →
  m_fs m !! stateFilePath p ≠ Some Dir → m_fs m !! tmpPath p ≠ Some Dir →
  status_of (m_state m) Step.viteCreate ≠ done →
  wp (step_viteCreate a p) m
     (step_succeeds p Step.viteCreate bootstrap_paths
        [vite_command (a_projectName a) (a_targetDir a) TIMEOUTS.viteCreate] m).
Proof.
  intros Hco Hp Hnone Hs Ht Hnd. unfold step_viteCreate. coop. coop.
  rewrite bool_decide_eq_false_2 by done. cbn [negb]. coop.
  unfold createViteProject. coop. coop. coop; [exact Hnone|].
  destruct (Hboot eq_refl) as [Hdir' Hpaths].
  rewrite Hto, Hcode, bool_decide_eq_true_2 by done. cbn [negb]. coop. coop.
  rewrite <- Hp. rewrite exists_path.
  2:{ apply Hpaths. unfold bootstrap_paths. rewrite !elem_of_cons. auto. }
  cbn [negb]. coop.
  coop; [split_and!; [done | by rewrite Hsf | by rewrite Htmp]|]. settle_step.
Qed.

Lemma step_npmInstall_cooperative p m :
  cooperative p → writable_checkpoint p (m_fs m) →
  (∀ rel, rel ∈ bootstrap_paths → is_Some (m_fs m !! path_join p rel)) →
  status_of (m_state m) Step.npmInstall ≠ done →
  wp (step_npmInstall p) m
     (step_succeeds p Step.npmInstall blocking_paths [npm_command p TIMEOUTS.npmInstall] m).
Proof.
  intros Hco Hw Hpaths Hnd. unfold step_npmInstall. coop. coop.
  rewrite bool_decide_eq_false_2 by done. cbn [negb].
  coop. coop; [done|]. coop.
  assert (∀ rel, rel ∈ bootstrap_paths → is_Some (m_fs m' !! path_join p rel)) as Hpaths1.
  { eapply persist_keeps_paths; eauto using bootstrap_blocking. }
  unfold npmInstall. coop. coop. coop.
  { split; [by destruct Hw0 | done]. }
  assert (∀ rel, rel ∈ blocking_paths → is_Some (m_fs m'0 !! path_join p rel)) as Hpaths2.
  { intros rel [Hrel| ->]%blocking_cases; [|by apply Hnm].
    apply Hmono; [by apply bootstrap_blocking | by apply Hpaths1]. }
  rewrite Hto, Hcode, bool_decide_eq_true_2 by done. cbn [negb]. coop. coop.
  rewrite exists_path by (by apply Hnm). cbn [negb]. coop.
  coop; [still_writable|]. settle_step.
Qed.

Lemma step_shadcnInit_cooperative p m :
  cooperative p → writable_checkpoint p (m_fs m) →
  (∀ rel, rel ∈ blocking_paths → is_Some (m_fs m !! path_join p rel)) →
  status_of (m_state m) Step.shadcnInit ≠ done →
  wp (step_shadcnInit p) m
     (step_succeeds p Step.shadcnInit blocking_paths
        [init_command p TIMEOUTS.shadcnInit] m).
Proof.
  intros Hco Hw Hpaths Hnd. unfold step_shadcnInit. coop. coop.
  rewrite bool_decide_eq_false_2 by done. cbn [negb].
  coop. coop; [done|]. coop.
  assert (∀ rel, rel ∈ blocking_paths → is_Some (m_fs m' !! path_join p rel)) as Hpaths1.
  { eapply persist_keeps_paths; eauto. }
  unfold initShadcn. coop. coop. coop.
  { split; [by destruct Hw0 | done]. }
  assert (∀ rel, rel ∈ blocking_paths → is_Some (m_fs m'0 !! path_join p rel)) as Hpaths2.
  { intros rel Hrel. apply Hmono; [done | by apply Hpaths1]. }
  rewrite Hto, Hcode, bool_decide_eq_true_2 by done. cbn [negb]. coop.
  coop; [still_writable|]. settle_step.
Qed.

Lemma step_verification_cooperative p m :
  writable_checkpoint p (m_fs m) →
  (∀ rel, rel ∈ blocking_paths → is_Some (m_fs m !! path_join p rel)) →
  status_of (m_state m) Step.verification ≠ done →
  wp (step_verification p) m (step_succeeds p Step.verification blocking_paths [] m).
Proof.
  intros Hw Hblk Hnd. unfold step_verification. coop. coop.
  rewrite bool_decide_eq_false_2 by done. cbn [negb].
  coop. coop; [done|]. coop. coop. coop. coop.
  assert (∀ rel, rel ∈ blocking_paths → is_Some (m_fs m' !! path_join p rel)) as Hpaths1.
  { eapply persist_keeps_paths; eauto. }
  assert (v_valid (verifyProject (m_fs m') p (installedComponents (m_state m'))) = true)
    as ->.
  { unfold verifyProject. cbn [v_valid]. apply bool_decide_eq_true.
    apply elem_of_nil_inv. intros rel [Habs Hrel]%list_elem_of_filter.
    fold blocking_paths in Hrel. rewrite exists_path in Habs; [done|]. by apply Hpaths1. }
  cbn [negb]. coop; [done|]. settle_step.
Qed.

Lemma step_componentInstall_cooperative p m :
  cooperative p → writable_checkpoint p (m_fs m) →
  (∀ rel, rel ∈ blocking_paths → is_Some (m_fs m !! path_join p rel)) →
  status_of (m_state m) Step.componentInstall ≠ done →
  let comps := components (m_state m) in
  wp (step_componentInstall p) m
     (λ r m',
        step_succeeds p Step.componentInstall blocking_paths
          (if bool_decide (comps = []) then []
           else [add_command p comps TIMEOUTS.componentInstall]) m r m' ∧
        installedComponents (m_state m') = comps ∧
        failedComponents (m_state m') = []).
Proof.
  intros Hco Hw Hblk Hnd comps. unfold step_componentInstall. coop. coop.
  rewrite bool_decide_eq_false_2 by done. cbn [negb].
  coop. coop; [done|]. coop. coop. coop.
  assert (∀ rel, rel ∈ blocking_paths → is_Some (m_fs m' !! path_join p rel)) as Hpaths1.
  { eapply persist_keeps_paths; eauto. }
  assert (components (m_state m') = comps) as -> by (by rewrite Hst).
  unfold installComponents, installComponents_with.
  case_bool_decide as Hnil.
  - coop. cbn [installed failed_]. coop; [done|].
    split; [|by back_state]. settle_step.
  - coop. coop. coop. unfold try_add. coop. coop. coop.
    { split; [by destruct Hw0 | done]. }
    assert (∀ rel, rel ∈ blocking_paths → is_Some (m_fs m'0 !! path_join p rel))
      as Hpaths2.
    { intros rel Hrel. apply Hmono; [done | by apply Hpaths1]. }
    rewrite Hcode, bool_decide_eq_true_2 by done. coop. coop.
    cbn [installed failed_]. coop; [still_writable|].
    split; [|by back_state]. settle_step.
Qed.

Lemma pipeline_cooperative a p m :
  cooperative p → p = path_join (a_targetDir a) (a_projectName a) →
  m_fs m !! p = None →
  m_fs m !! stateFilePath p ≠ Some Dir → m_fs m !! tmpPath p ≠ Some Dir →
  (∀ k, status_of (m_state m) k = pending) →
  let comps := components (m_state m) in
  wp (pipeline a p) m
     (λ r m',
        r = Exit EXIT_CODES.SUCCESS ∧
        installedComponents (m_state m') = comps ∧
        failedComponents (m_state m') = [] ∧
        commands_of (m_trace m') =
        commands_of (m_trace m) ++
        [vite_command (a_projectName a) (a_targetDir a) TIMEOUTS.viteCreate;
         npm_command p TIMEOUTS.npmInstall; init_command p TIMEOUTS.shadcnInit] ++
        (if bool_decide (comps = []) then []
         else [add_command p comps TIMEOUTS.componentInstall])).
Proof.
  intros Hco Hp Hnone Hs Ht Hpend comps. unfold pipeline.
  apply wp_bind. eapply wp_conseq.
  { apply step_viteCreate_cooperative; try done. by rewrite Hpend. }
  intros r m1 (-> & Hw1 & _ & Hb1 & _ & Ho1 & Hc1 & _ & Hcmd1).
  apply wp_bind. eapply wp_conseq.
  { apply step_npmInstall_cooperative; try done. by rewrite Ho1, Hpend. }
  intros r m2 (-> & Hw2 & _ & Hb2 & _ & Ho2 & Hc2 & _ & Hcmd2).
  apply wp_bind. eapply wp_conseq.
  { apply step_shadcnInit_cooperative; try done. by rewrite Ho2, Ho1, Hpend. }
  intros r m3 (-> & Hw3 & _ & Hb3 & _ & Ho3 & Hc3 & _ & Hcmd3).
  apply wp_bind. eapply wp_conseq.
  { apply step_componentInstall_cooperative; try done. by rewrite Ho3, Ho2, Ho1, Hpend. }
  intros r m4 ((-> & Hw4 & _ & Hb4 & _ & Ho4 & Hc4 & _ & Hcmd4) & Hi4 & Hf4).
  apply wp_bind. eapply wp_conseq.
  { apply step_verification_cooperative; try done.
    by rewrite Ho4, Ho3, Ho2, Ho1, Hpend. }
  intros r m5 (-> & Hw5 & [d Hfile5] & _ & _ & _ & _ & Hr5 & Hcmd5).
  destruct Hr5 as [Hi5 Hf5]; [done|].
  unfold finish, removeState, unlinkSync. coop. coop. coop.
  unfold existsSync. rewrite Hfile5.
  apply wp_syscall; unfold fs_unlink; rewrite Hfile5; [|done].
  intros fs' _. coop. cbn [m_state m_trace].
  split_and!; [done | | by rewrite Hf5 | ].
  - rewrite Hi5, Hi4. unfold comps. by rewrite Hc3, Hc2, Hc1.
  - rewrite commands_of_app, Hcmd5, Hcmd4, Hcmd3, Hcmd2, Hcmd1. cbn.
    rewrite Hc3, Hc2, Hc1. fold comps. by rewrite <- !app_assoc, !app_nil_r.
Qed.

Lemma valid_run_facts a fs v :
  validateInputs a fs = inr v → valid v = true →
  v_projectPath v = path_join (a_targetDir a) (a_projectName a) ∧
  resolvedComponents v ≠ [] ∧
  (fs !! stateFilePath (v_projectPath v) = None →
   existingState v = None ∧ fs !! v_projectPath v = None).
Proof.
  intros Hv Hvalid.
  destruct (validateInputs_inr _ _ _ Hv) as (e3 & Herr & Hval & Hpp & Hex & Hres).
  rewrite Hval, bool_decide_eq_true, Herr, !app_nil in Hvalid.
  destruct Hvalid as (Hname%check_name_nil & Ht%check_template_nil & He3 & _ & He5).
  destruct (project_name_single_segment _ Hname) as [Hne _].
  rewrite bool_decide_eq_false_2 in Hpp, Hex, He5 by done.
  split_and!; [done| |].
  - destruct Hres as [(Hc & -> & Hrc)|(Hc & _ & Hrc)].
    + apply resolve_custom_nil in He3 as (Hne' & Hlen & _ & Hnd).
      rewrite Hrc. unfold resolve_custom. rewrite bool_decide_eq_false_2 by done.
      rewrite (proj2 (Nat.ltb_ge _ _) Hlen). cbn [snd]. by rewrite set_of_id.
    + assert (a_template a ∈ ["minimal"; "form"; "dashboard"]) as Hin.
      { rewrite !elem_of_cons, elem_of_nil in Ht. rewrite !elem_of_cons, elem_of_nil. tauto. }
      destruct (TEMPLATES_get_valid _ Hin) as (tpl & Hget & _ & Hne' & _).
      destruct Hrc as [(t & Hget' & ->)|[Hget' _]]; [|congruence].
      rewrite Hget in Hget'. by injection Hget' as <-.
  - rewrite Hpp, Hex. unfold stateFilePath. intros Hsf.
    revert He5. unfold check_existing, existsSync. rewrite Hsf.
    destruct (fs !! path_join (a_targetDir a) (a_projectName a)); cbn [fst snd]; done.
Qed.

(** When the tools work, a valid fresh run succeeds.  If every command
    that finds what it needs exits with code 0, the bootstrap and the
    dependency install leave what they are for, and no command removes
    a project path or touches the checkpoint or its temporary file, then
    a valid run started where no checkpoint exists exits with code 0,
    having run exactly four commands, in this order: [npx
    create-vite@latest] for the project with the React and TypeScript
    template, in the target directory; [npm install] in the project
    directory; [npx shadcn@latest init] there; and one [npx
    shadcn@latest add] for all the resolved components.  Every resolved
    component is recorded as installed and none as failed. *)
Theorem cooperative_fresh_run_succeeds (a : Args) (fs : FS) (now : Z) (v : Validation) :
  let p := v_projectPath v in
  let e := main a fs now in
  validateInputs a fs = inr v →
  valid v = true →
  cooperative p →
  fs !! stateFilePath p = None →
  fs !! tmpPath p = None →
  exit_code e = EXIT_CODES.SUCCESS ∧ crashed e = false ∧
  ∃ m, end_machine e = Some m ∧
       installedComponents (m_state m) = resolvedComponents v ∧
       failedComponents (m_state m) = [] ∧
       commands_of (m_trace m) =
         [ {| command := "npx";
              args := ["create-vite@latest"; a_projectName a; "--template"; "react-ts"];
              cwd := a_targetDir a; timeout := 120000 |};
           {| command := "npm"; args := ["install"]; cwd := p; timeout := 120000 |};
           {| command := "npx";
              args := ["shadcn@latest"; "init"; "--yes"; "--defaults"; "--force";
                       "--cwd"; p];
              cwd := p; timeout := 60000 |};
           {| command := "npx";
              args := ["shadcn@latest"; "add"; "--registry"; REGISTRY_URL; "--yes";
                       "--overwrite"; "--cwd"; p] ++ resolvedComponents v;
              cwd := p; timeout := 300000 |} ].
Proof.
  intros p e Hv Hvalid Hco Hsf Htmp. subst e.
  destruct (valid_run_facts _ _ _ Hv Hvalid) as (Hp & Hne & Hex).
  destruct (Hex Hsf) as [Hex' Hnone]. unfold main. rewrite Hv, Hvalid, Hex'.
  cbn [negb]. fold p.
  set (m0 := {| m_state := _ |}).
  pose proof (pipeline_cooperative a p m0 Hco Hp) as Hrun.
  unfold wp in Hrun. cbn [m_fs m0] in Hrun. rewrite Hsf, Htmp in Hrun.
  destruct Hrun as (Hr & Hi & Hf & Hcmd); [done.. | by intros []|].
  destruct (pipeline a p m0) as [r m'] eqn:Hpipe. cbn [fst snd] in *. subst r.
  cbn [exit_code crashed end_machine]. split_and!; [done..|].
  exists m'. split_and!; [done..|].
  rewrite Hcmd. cbn. by rewrite bool_decide_eq_false_2.
Qed.

(** ** index.js: interrupting and resuming *)

(** An interrupt and the run after it.  While the project directory
    does not exist yet (the bootstrap has not created it) the handler
    cannot persist anything and leaves the file system as it is, so the
    same command starts from scratch.  Once the checkpoint can be
    written, the handler leaves on disk the state in which every running
    step is failed and no step is running, and the validation of the
    same command finds exactly that state to resume from, provided
    [JSON.parse] reads back what [JSON.stringify] wrote for it. *)
Theorem interrupt_then_resume (sig : string) (a : Args) (m : Machine) :
  let p := path_join (a_targetDir a) (a_projectName a) in
  let s' := set_updatedAt (m_now m)
              (set_error (Some ("Interrupted by " +:+ sig)) (relabel_running (m_state m))) in
  let m' := (handler sig (Some p) m).2 in
  a_projectName a ≠ "" →
  (handler sig (Some p) m).1 = Exit EXIT_CODES.FAILURE ∧
  m_state m' = s' ∧
  (∀ k, status_of s' k ≠ running) ∧
  (∀ k, status_of (m_state m) k = running → status_of s' k = failed) ∧
  (∀ k, status_of (m_state m) k ≠ running → status_of s' k = status_of (m_state m) k) ∧
  (m_fs m !! p = None → m_fs m' = m_fs m) ∧
  (writable_checkpoint p (m_fs m) →
   JSON_parse (JSON_stringify s') = Some (Some s') →
   ∀ v, validateInputs a (m_fs m') = inr v → existingState v = Some s').
Proof.
  intros p s' m' Hname. subst m'.
  assert (p ≠ "") as Hp.
  { unfold p, path_join. intros H. apply (f_equal String.length) in H.
    rewrite !string_length_app in H. simpl in H. lia. }
  assert (∀ k, status_of s' k = relabel (status_of (m_state m) k)) as Hrel.
  { intros k. apply (relabel_running_status (m_state m) k). }
  unfold handler. rewrite bool_decide_eq_false_2 by done.
  unfold mbind, M_mbind, M_bind, modify_state, try_catch, exit, with_state.
  cbn [fst snd].
  set (m1 := {| m_state := set_error _ _ |}).
  pose proof (saveState_saved p m1) as Hsaved. unfold wp in Hsaved.
  destruct (saveState p m1) as [r m2] eqn:Hsave. cbn [fst snd] in Hsaved.
  destruct Hsaved as (Hst & _ & _ & Hr & _).
  assert (m_state m2 = s') as Hst' by (by rewrite Hst).
  assert (∀ k, status_of s' k ≠ running) as H1.
  { intros k. rewrite Hrel. unfold relabel. by case_decide. }
  assert (∀ k, status_of (m_state m) k = running → status_of s' k = failed) as H2.
  { intros k Hk. rewrite Hrel. unfold relabel. by case_decide. }
  assert (∀ k, status_of (m_state m) k ≠ running →
               status_of s' k = status_of (m_state m) k) as H3.
  { intros k Hk. rewrite Hrel. unfold relabel. by case_decide. }
  assert (m_fs m !! p = None → m_fs m2 = m_fs m) as H4.
  { intros Hnone. revert Hsave.
    unfold saveState, mbind, M_mbind, M_bind, clock, modify_state, get_state, writeFileSync,
      syscall, with_state; cbn [fst snd m_state m_fs m_now m_trace].
    change (stateFilePath p +:+ ".tmp") with (tmpPath p).
    unfold fs_writeFile. rewrite parent_tmpPath. cbn [m_fs m1]. rewrite Hnone.
    destruct (m_fs m !! tmpPath p) as [[|?]|]; by intros [= _ <-]. }
  assert (writable_checkpoint p (m_fs m) →
          JSON_parse (JSON_stringify s') = Some (Some s') →
          ∀ v, validateInputs a (m_fs m2) = inr v → existingState v = Some s') as H5.
  { intros Hw Hparse v Hv.
    rewrite (saveState_ready p m1 Hw) in Hsave. injection Hsave as _ <-.
    cbn [m_fs m_state m_now m1] in *.
    destruct (validateInputs_inr _ _ _ Hv) as (e3 & _ & _ & _ & Hex & _).
    rewrite bool_decide_eq_false_2 in Hex by done. fold p in Hex.
    rewrite Hex. unfold check_existing, existsSync, fs_readFile.
    destruct Hw as (Hdir & _).
    rewrite (lookup_insert_ne _ (stateFilePath p) p) by apply not_eq_sym, stateFilePath_ne.
    rewrite (lookup_delete_ne _ (tmpPath p) p) by apply not_eq_sym, tmpPath_ne_dir.
    rewrite (lookup_insert_ne _ (tmpPath p) p) by apply not_eq_sym, tmpPath_ne_dir.
    rewrite Hdir. change (path_join p STATE_FILENAME) with (stateFilePath p).
    rewrite lookup_insert_eq. cbv beta iota. unfold s' in Hparse. by rewrite Hparse. }
  destruct Hr as [->|[e ->]]; unfold mret, M_mret, M_ret; cbn [fst snd]; done.
Qed.

(** ** index.js: the time stamps *)

Lemma fallback_clock p T s names inst fl m :
  wp (fallback p T s names inst fl) m
     (λ r m', (∃ x, r = Ok x) ∧ m_now m ≤ m_now m' ∧ m_state m' = m_state m).
Proof.
  revert inst fl m. induction names as [|name rest IH]; intros inst fl m; simpl.
  - wp_run. split_and!; [by eexists | lia | done].
  - wp_run; [apply IH|].
    eapply wp_conseq; [apply try_add_spawned|].
    intros r m1 [[ok ->] (Hst & _ & _ & Hnow)].
    destruct ok; (eapply wp_conseq; [apply IH|]); intros r m' (Hok & Hm' & Hst');
      cbv beta in *; (split_and!; [done | lia | congruence]).
Qed.

Lemma installComponents_clock T p comps m :
  wp (installComponents_with T p comps) m
     (λ r m', (∃ res, r = Ok res) ∧ m_now m ≤ m_now m' ∧ m_state m' = m_state m).
Proof.
  unfold installComponents_with. wp_step; [wp_run; split_and!; [by eexists | lia | done]|].
  apply wp_bind, wp_clock. cbv beta iota.
  apply wp_bind. eapply wp_conseq; [apply try_add_spawned|].
  intros r m1 [[ok ->] (Hst & _ & _ & Hnow)].
  destruct ok; [wp_run; split_and!; [by eexists | lia | done]|].
  apply wp_bind. eapply wp_conseq; [apply fallback_clock|].
  intros r m' ([x ->] & Hm' & Hst'). cbv beta in *.
  wp_run. split_and!; [by eexists | lia | congruence].
Qed.

(** The stamps after a step, read off the facts collected on the way. *)
Ltac settle_stamps :=
  unfold stamps_ordered in *; cbn [m_state m_now];
  repeat match goal with
         | H : m_state ?x = _ |- context [m_state ?x] => rewrite H
         end;
  cbn [startedAt updatedAt set_updatedAt set_step set_steps set_error set_results assign];
  lia.

Lemma run_step_stamps a p k m :
  stamps_ordered m →
  wp (run_step a p k) m
     (λ r m', stamps_ordered m' ∧ m_now m ≤ m_now m' ∧
              startedAt (m_state m') = startedAt (m_state m)).
Proof.
  intros Hord.
  destruct k; simpl;
    unfold step_viteCreate, step_npmInstall, step_shadcnInit, step_componentInstall,
      step_verification.
  - wp_auto; norm; open_facts; split_and!; settle_stamps.
  - wp_auto; norm; open_facts; split_and!; settle_stamps.
  - wp_auto; norm; open_facts; split_and!; settle_stamps.
  - apply wp_bind, wp_get_state. cbv beta iota.
    wp_step; [|wp_run; split_and!; [done | lia | done]].
    apply wp_bind. wp_call; open_facts; [|split_and!; settle_stamps].
    apply wp_bind, wp_get_state. cbv beta iota.
    apply wp_bind. eapply wp_conseq; [apply installComponents_clock|].
    intros r m2 ([res ->] & Hnow2 & Hst2).
    wp_call; open_facts; split_and!; settle_stamps.
  - wp_auto; norm; open_facts; split_and!; settle_stamps.
Qed.

Lemma run_steps_stamps a p ks m :
  stamps_ordered m →
  wp (run_steps a p ks) m
     (λ r m', stamps_ordered m' ∧ m_now m ≤ m_now m' ∧
              startedAt (m_state m') = startedAt (m_state m)).
Proof.
  revert m. induction ks as [|k ks IH]; intros m Hord; cbn [run_steps].
  - unfold finish, removeState, unlinkSync. wp_run; norm; split_and!; settle_stamps.
  - apply wp_bind. eapply wp_conseq; [by apply run_step_stamps|].
    intros r m1 (Hord1 & Hnow1 & Hs1). destruct r as [[]|z|e]; [|done..].
    eapply wp_conseq; [by apply IH|]. intros r m' (Hord' & Hnow' & Hs').
    cbv beta in *. split_and!; [done | lia | congruence].
Qed.

Lemma relabel_running_stamps s :
  startedAt (relabel_running s) = startedAt s ∧
  updatedAt (relabel_running s) = updatedAt s.
Proof.
  unfold relabel_running. generalize Step.all. intros ks. revert s.
  induction ks as [|k ks IH]; intros s; cbn [foldl]; [done|].
  destruct (IH (if bool_decide (status_of s k = running)
                then set_step k failed s else s)) as [-> ->].
  by case_bool_decide.
Qed.

Lemma handler_stamps sig g m :
  stamps_ordered m → wp (handler sig g) m (λ _ m', stamps_ordered m').
Proof.
  intros Hord. unfold handler. wp_step.
  destruct g as [q|]; [destruct (bool_decide (q = ""))|];
    [wp_run; exact Hord| |wp_run; exact Hord].
  wp_run. eapply wp_conseq; [apply saveState_saved|].
  intros r m' (Hst & Hnow & _ & Hr & _). norm.
  destruct (relabel_running_stamps (m_state m)) as [Hs Hu].
  assert (stamps_ordered m') as Hord'.
  { unfold stamps_ordered in *. rewrite Hst, Hnow.
    cbn [set_updatedAt set_error startedAt updatedAt]. rewrite Hs. lia. }
  destruct Hr as [->|[e ->]]; wp_run; exact Hord'.
Qed.

(** The time stamps stay in order.  In every run that enters the
    pipeline, if the state it starts from has [startedAt] no later than
    [updatedAt] and neither in the future (as the state of a fresh run
    has, both being the starting time), then so has the state it ends
    with: [startedAt] is unchanged, [updatedAt] is at most the time of
    the exit, and the duration the summary prints is not negative.  The
    signal handler keeps the stamps in order as well. *)
Theorem time_stamps_stay_ordered (a : Args) (fs : FS) (now : Z) (v : Validation)
    (m : Machine) :
  let e := main a fs now in
  end_validation e = Some v →
  end_machine e = Some m →
  (∀ s, existingState v = Some s → startedAt s ≤ updatedAt s ≤ now) →
  startedAt (m_state m) ≤ updatedAt (m_state m) ≤ m_now m ∧
  now ≤ m_now m ∧
  startedAt (m_state m) =
    match existingState v with Some s => startedAt s | None => now end ∧
  0 ≤ updatedAt (m_state m) - startedAt (m_state m) ≤ m_now m - startedAt (m_state m) ∧
  (∀ sig g m0, stamps_ordered m0 → stamps_ordered (handler sig g m0).2).
Proof.
  intros e Hv Hm Hs. subst e. unfold main in Hv, Hm.
  destruct (validateInputs a fs) as [err|v']; [done|].
  destruct (valid v'); cbn [negb] in *; [|done].
  set (m0 := {| m_state := _ |}) in *.
  assert (v' = v ∧ (pipeline a (v_projectPath v') m0).2 = m) as [-> Hm'].
  { destruct (pipeline a (v_projectPath v') m0) as [[[]|z|err] m2];
      cbn [end_validation end_machine snd] in *; by simplify_eq. }
  assert (stamps_ordered m0) as Hord.
  { unfold stamps_ordered, m0. cbn [m_state m_now].
    destruct (existingState v) as [s|] eqn:Hex; cbn; [by apply Hs | lia]. }
  pose proof (run_steps_stamps a (v_projectPath v) Step.all m0 Hord) as Hrun.
  rewrite <- pipeline_run_steps in Hrun. unfold wp in Hrun.
  rewrite Hm' in Hrun. destruct Hrun as (Hord' & Hnow & Hstart).
  unfold stamps_ordered in Hord'. cbn [m_now m_state m0] in *.
  split_and!; [lia.. | | lia | lia |].
  - rewrite Hstart. by destruct (existingState v).
  - intros sig g m1 Hord1. by apply (handler_stamps sig g m1).
Qed.
End Verification.

(** * Examples: witnesses and counterexamples on the example runtime *)

(** The budget rule at two instants: 296 s into a 300 s budget nothing
    is attempted any more; at the start the first item gets the 60 s
    cap. *)
Lemma fallback_budget_witness :
  let rt := Demo.runtime [] Demo.all_fail in
  let p := "/work/my-app" in
  let early := Demo.machine (Demo.checkpoint done) (Demo.resumable done) in
  let late := Demo.late_machine (Demo.checkpoint done) (Demo.resumable done) in
  fallback p 300000 0 ["button"; "card"] [] [] late = (Ok ([], ["button"; "card"]), late) ∧
  ∃ c ok m1,
    command c = "npx" ∧
    args c = ["shadcn@latest"; "add"; "--registry"; REGISTRY_URL; "--yes"; "--overwrite";
              "--cwd"; p; "button"] ∧
    cwd c = p ∧
    timeout c = Z.min 60000 (300000 - (m_now early - 0)) ∧
    emitted early m1 [EvSpawn c] ∧
    m_fs m1 = o_fs (spawn c (m_fs early) (m_now early)) ∧
    m_now m1 = m_now early + Z.of_N (o_elapsed (spawn c (m_fs early) (m_now early))) ∧
    m_state m1 = m_state early ∧
    (ok = true ↔ ∃ sig, o_term (spawn c (m_fs early) (m_now early)) = Closed (Some 0) sig) ∧
    fallback p 300000 0 ["button"; "card"] [] [] early =
    fallback p 300000 0 ["card"] (if ok then [] ++ ["button"] else [])
      (if ok then [] else [] ++ ["button"]) m1.
Proof.
  intros rt p early late. split.
  - apply (@fallback_budget rt p 300000 0 "button" ["card"] [] [] late). simpl. lia.
  - apply (@fallback_budget rt p 300000 0 "button" ["card"] [] [] early). simpl. lia.
Defined.

(** The installer and the component step on a list without duplicates, in
    a world where the batch install fails, the first individual install
    succeeds and the second fails. *)
Lemma installed_failed_disjoint_witness :
  let rt := Demo.runtime [] Demo.second_only in
  let p := "/work/my-app" in
  let m := Demo.machine (Demo.checkpoint done) (Demo.resumable done) in
  wp (installComponents_with 300000 p ["button"; "card"]) m
     (λ r m', ∃ res, r = Ok res ∧
                     installed res ++ failed_ res ≡ₚ ["button"; "card"] ∧
                     (length (installed res) + length (failed_ res) = 2)%nat ∧
                     (length (installed res) + length (failed_ res) ≤ 2)%nat ∧
                     (NoDup ["button"; "card"] →
                      ∀ x, x ∈ installed res → x ∉ failed_ res)) ∧
  wp (step_componentInstall p) m
     (λ r m', r = Ok tt →
              components (m_state m') = components (m_state m) ∧
              installedComponents (m_state m') ++ failedComponents (m_state m')
                ≡ₚ components (m_state m') ∧
              (length (installedComponents (m_state m')) +
               length (failedComponents (m_state m')) =
               length (components (m_state m')))%nat ∧
              (NoDup (components (m_state m')) →
               ∀ x, x ∈ installedComponents (m_state m') →
                    x ∉ failedComponents (m_state m')) ∧
              m_fs m' !! stateFilePath p = Some (File (JSON_stringify (m_state m')))).
Proof.
  intros rt p m. split.
  - apply (@installed_failed_disjoint rt p m).
  - apply (@installed_failed_disjoint rt p m). by vm_compute.
Defined.

(** C4 as stated fails on a list with a duplicate name: the first
    individual install of "button" succeeds, the second fails, and the
    name is in both lists. *)
Lemma duplicate_name_in_both_lists :
  let rt := Demo.runtime [] Demo.second_only in
  let m := Demo.machine (Demo.checkpoint done) (Demo.resumable done) in
  ∃ res, (installComponents "/work/my-app" ["button"; "button"] m).1 = Ok res ∧
         "button" ∈ installed res ∧ "button" ∈ failed_ res.
Proof.
  intros rt m. eexists. split; [by vm_compute|]. split; apply (bool_decide_unpack _); by vm_compute.
Qed.

(** A resumed run whose bootstrap is done and whose other steps are
    pending. *)
Lemma done_steps_are_skipped_witness :
  let rt := Demo.runtime [Demo.checkpoint done] (Demo.all_succeed "/work/my-app") in
  let p := "/work/my-app" in
  let m := Demo.machine (set_freshCreation false (Demo.checkpoint done)) (Demo.resumable done) in
  (run_step Demo.my_app p Step.viteCreate m = (Ok tt, m) ∧
   pipeline Demo.my_app p m =
   run_steps Demo.my_app p (filter (λ k', k' ≠ Step.viteCreate) Step.all) m) ∧
  ∃ evs first rest,
    emitted m (pipeline Demo.my_app p m).2 evs ∧
    (∀ c, EvSpawn c ∈ evs → spawn_kind c ≠ Some Step.viteCreate) ∧
    evs = first ++ rest ∧
    persist_attempt p
      (set_updatedAt (m_now m) (set_step Step.npmInstall running (m_state m))) first ∧
    (first = persisted p
               (set_updatedAt (m_now m) (set_step Step.npmInstall running (m_state m))) →
     ∃ rest', rest = EvSpawn (npm_command p TIMEOUTS.npmInstall) :: rest').
Proof.
  intros rt p m. split.
  - apply (@done_steps_are_skipped rt Demo.my_app p m). reflexivity.
  - apply (@done_steps_are_skipped rt Demo.my_app p m); [reflexivity|].
    intros k Hk. destruct k; [by destruct Hk | reflexivity..].
Defined.

(** The dependency-install step and the component step of a resumed
    run. *)
Lemma steps_mark_persist_act_persist_witness :
  let rt := Demo.runtime [Demo.checkpoint done] (Demo.all_succeed "/work/my-app") in
  let p := "/work/my-app" in
  let m := Demo.machine (set_freshCreation false (Demo.checkpoint done)) (Demo.resumable done) in
  wp (run_step Demo.my_app p Step.npmInstall) m (step_shape Demo.my_app p Step.npmInstall m) ∧
  wp (run_step Demo.my_app p Step.componentInstall) m
     (step_shape Demo.my_app p Step.componentInstall m).
Proof.
  intros rt p m. split.
  - apply (@steps_mark_persist_act_persist rt Demo.my_app p Step.npmInstall m). by vm_compute.
  - apply (@steps_mark_persist_act_persist rt Demo.my_app p Step.componentInstall m).
    by vm_compute.
Defined.

(** C6 as stated fails on the bootstrap step of a fresh run: its first
    event is the command, not a persist of the state marked running. *)
Lemma bootstrap_runs_before_any_persist :
  let rt := Demo.runtime [] (Demo.all_succeed "/work/my-app") in
  let p := "/work/my-app" in
  let m := Demo.machine
             (createInitialState "my-app" p "minimal" ["button"; "card"; "badge"; "input"] 0)
             Demo.work in
  status_of (m_state m) Step.viteCreate ≠ done ∧
  head (m_trace (run_step Demo.my_app p Step.viteCreate m).2) =
    Some (EvSpawn (vite_command "my-app" "/work" TIMEOUTS.viteCreate)) ∧
  ¬ wp (run_step Demo.my_app p Step.viteCreate) m
       (marked_run p Step.viteCreate (λ _, True) m).
Proof.
  intros rt p m. split_and!; [by vm_compute | by vm_compute |].
  unfold wp, marked_run.
  intros [(e & first & Hr & _)|(acts & final & cl & Hev & _)].
  - by vm_compute in Hr.
  - unfold emitted in Hev. by vm_compute in Hev.
Qed.



(** An interrupt while the dependency install is running. *)
Lemma interrupt_relabels_and_exits_witness :
  let rt := Demo.runtime [] Demo.all_fail in
  let p := "/work/my-app" in
  let m := Demo.machine (set_step Step.npmInstall running (Demo.checkpoint done))
             (Demo.resumable done) in
  let r := (handler "SIGINT" (Some p) m).1 in
  let m' := (handler "SIGINT" (Some p) m).2 in
  r = Exit EXIT_CODES.FAILURE ∧
  (∀ k, status_of (m_state m') k = relabel (status_of (m_state m) k)) ∧
  error (m_state m') = Some ("Interrupted by " +:+ "SIGINT") ∧
  freshCreation (m_state m') = freshCreation (m_state m) ∧
  (∃ evs, emitted m m' evs ∧ persist_attempt p (m_state m') evs ∧ ∀ q, EvRm q ∉ evs) ∧
  (∀ q, q ≠ stateFilePath p → q ≠ tmpPath p → m_fs m' !! q = m_fs m !! q) ∧
  m_fs m' !! p = m_fs m !! p.
Proof.
  intros rt p m. apply (@interrupt_relabels_and_exits rt "SIGINT" p m). by vm_compute.
Defined.


(** A resumed run whose dependency install fails: the step exits with
    code 1 and the project directory stays. *)
Lemma resumed_failure_keeps_directory_witness :
  let rt := Demo.runtime [Demo.checkpoint done] Demo.all_fail in
  let p := "/work/my-app" in
  let m := Demo.machine (set_freshCreation false (Demo.checkpoint done)) (Demo.resumable done) in
  (run_step Demo.my_app p Step.npmInstall m).1 = Exit EXIT_CODES.FAILURE ∧
  wp (run_step Demo.my_app p Step.npmInstall) m
     (λ r m', (∃ evs, emitted m m' evs ∧ (∀ q, EvRm q ∉ evs) ∧ no_rm evs) ∧
              (r = Exit EXIT_CODES.FAILURE → m_fs m' !! p = Some Dir)).
Proof.
  intros rt p m. split; [by vm_compute|].
  apply (@resumed_failure_keeps_directory rt Demo.my_app p Step.npmInstall m); by vm_compute.
Defined.

(** A fresh run whose dependency install fails, on a file system that
    lets the project directory be removed and on one that does not: the
    step exits with code 1; in the first case the directory is gone, in
    the second the failed removal is the last event and the directory is
    still there. *)
Lemma fatal_failure_removes_directory_witness :
  let p := "/work/my-app" in
  let m := Demo.machine (Demo.checkpoint done) (Demo.resumable done) in
  (let rt := Demo.runtime [] Demo.all_fail in
   (run_step Demo.my_app p Step.npmInstall m).1 = Exit EXIT_CODES.FAILURE ∧
   m_fs (run_step Demo.my_app p Step.npmInstall m).2 !! p = None) ∧
  (let rt := Demo.locked [] Demo.all_fail in
   (run_step Demo.my_app p Step.npmInstall m).1 = Exit EXIT_CODES.FAILURE ∧
   last (m_trace (run_step Demo.my_app p Step.npmInstall m).2) = Some (EvThrown (EvRm p)) ∧
   is_Some (m_fs (run_step Demo.my_app p Step.npmInstall m).2 !! p)).
Proof.
  intros p m. split.
  - intros rt. split; [by vm_compute|].
    pose proof (@fatal_failure_removes_directory rt Demo.my_app p Step.npmInstall m) as H.
    unfold wp in H. apply H; [right; split; [by left | reflexivity] | by vm_compute | done].
  - intros rt. split; [by vm_compute|].
    pose proof (@fatal_failure_removes_directory rt Demo.my_app p Step.npmInstall m) as H.
    unfold wp in H. destruct H as [[Hgone|Hkept] _];
      [right; split; [by left | reflexivity] | by vm_compute | | done].
    by vm_compute in Hgone.
Defined.


(** C7, the code at an input that breaks the claim: a run resumed
    ([freshCreation] is set to false) from a checkpoint whose bootstrap
    step is still pending, in a project directory that holds a file of
    the user's; the bootstrap command fails and the directory is
    removed. *)
Theorem resumed_bootstrap_failure_deletes_directory :
  let rt := Demo.runtime [Demo.checkpoint pending] Demo.all_fail in
  let fs := Demo.resumable pending in
  let e := @main rt Demo.my_app fs 5000 in
  fs !! "/work/my-app" = Some Dir ∧
  fs !! "/work/my-app/notes.txt" = Some (File "keep me") ∧
  exit_code e = EXIT_CODES.FAILURE ∧
  ∃ v m,
    end_validation e = Some v ∧ existingState v = Some (Demo.checkpoint pending) ∧
    end_machine e = Some m ∧
    freshCreation (m_state m) = false ∧
    m_trace m = [EvSpawn (vite_command "my-app" "/work" TIMEOUTS.viteCreate);
                 EvRm "/work/my-app"] ∧
    m_fs m !! "/work/my-app" = None ∧
    m_fs m !! "/work/my-app/notes.txt" = None.
Proof.
  intros rt fs e. split_and!; [by vm_compute..|].
  destruct (end_validation e) as [v|] eqn:Hv; [|by vm_compute in Hv].
  destruct (end_machine e) as [m|] eqn:Hm; [|by vm_compute in Hm].
  exists v, m. vm_compute in Hv, Hm. simplify_eq. by vm_compute.
Qed.

(** * Examples for the further properties *)

(** Saving the checkpoint of a resumed run and loading it back. *)
Lemma saveState_loadState_witness :
  let rt := Demo.runtime [Demo.checkpoint done] Demo.all_fail in
  let p := "/work/my-app" in
  let m := Demo.machine (Demo.checkpoint done) (Demo.resumable done) in
  let s' := set_updatedAt (m_now m) (m_state m) in
  m_state (saveState p m).2 = s' ∧
  loadState p (saveState p m).2 = (Ok (Some s'), (saveState p m).2).
Proof.
  intros rt p m s'. apply (@saveState_loadState rt p m); by vm_compute.
Defined.

(** A batch install that hangs until the budget of 5 minutes is used
    up: both components are reported failed after that one command. *)
Lemma exhausted_batch_fails_all_witness :
  let rt := Demo.runtime [] Demo.hanging in
  let p := "/work/my-app" in
  let m := Demo.machine (Demo.checkpoint done) (Demo.resumable done) in
  ∃ m', installComponents_with 300000 p ["button"; "card"] m =
        (Ok {| success := false; installed := []; failed_ := ["button"; "card"] |}, m') ∧
        spawned (add_command p ["button"; "card"] 300000) m m'.
Proof.
  intros rt p m. apply (@exhausted_batch_fails_all rt 300000 p ["button"; "card"] m).
  - done.
  - intros sig. by vm_compute.
  - by vm_compute.
Defined.

(** In the world where every command hangs until its timeout, the
    installer and the component step still end within the budget. *)
Lemma installer_within_budget_witness :
  let rt := Demo.runtime [] Demo.hanging in
  let p := "/work/my-app" in
  let m := Demo.machine (Demo.checkpoint done) (Demo.resumable done) in
  wp (installComponents_with 300000 p ["button"; "card"]) m
     (λ r m', m_now m ≤ m_now m' ≤ m_now m + 300000) ∧
  wp (step_componentInstall p) m
     (λ r m', m_now m ≤ m_now m' ≤ m_now m + TIMEOUTS.componentInstall).
Proof.
  intros rt p m. apply (@installer_within_budget rt 300000 p ["button"; "card"] m).
  - intros c fs now Hc. simpl. lia.
  - lia.
Defined.


Lemma valid_project_path_is_child_witness :
  let rt := Demo.runtime [] Demo.all_fail in
  let a := Demo.my_app in
  ∃ v, validateInputs a Demo.work = inr v ∧ valid v = true ∧
    v_projectPath v = path_join (a_targetDir a) (a_projectName a) ∧
    parent_of (a_projectName a) = None ∧
    (a_projectName a ∉ [""; "."; ".."]) ∧
    parent (v_projectPath v) = a_targetDir a.
Proof.
  intros rt a.
  destruct (validateInputs a Demo.work) as [err|v] eqn:Hv; [by vm_compute in Hv|].
  assert (valid v = true) as Hvalid by (vm_compute in Hv; by simplify_eq).
  exists v. split; [done|]. split; [done|].
  apply (@valid_project_path_is_child rt a Demo.work v Hv Hvalid).
Defined.


(** The validation of a run resumed in a directory with a checkpoint,
    and of a run in a directory whose checkpoint holds [null]: the first
    is resumed, the second is a fresh creation in a directory that
    exists. *)
Lemma existing_state_source_witness :
  let rt := Demo.runtime [Demo.checkpoint done] Demo.all_fail in
  (let fs := Demo.resumable done in
   ∃ v m, validateInputs Demo.my_app fs = inr v ∧ valid v = true ∧
     existingState v = Some (Demo.checkpoint done) ∧
     end_machine (main Demo.my_app fs 0) = Some m ∧
     freshCreation (m_state m) = false) ∧
  (let fs := Demo.nulled in
   ∃ v m, validateInputs Demo.my_app fs = inr v ∧ valid v = true ∧
     existingState v = None ∧
     fs !! v_projectPath v = Some Dir ∧
     fs !! stateFilePath (v_projectPath v) = Some (File "null") ∧
     end_machine (main Demo.my_app fs 0) = Some m ∧
     freshCreation (m_state m) = true ∧
     components (m_state m) = ["button"; "card"; "badge"; "input"]).
Proof.
  intros rt. split.
  - intros fs.
    destruct (validateInputs Demo.my_app fs) as [err|v] eqn:Hv; [by vm_compute in Hv|].
    assert (valid v = true ∧ existingState v = Some (Demo.checkpoint done)) as [Hvalid Hex]
      by (vm_compute in Hv; by simplify_eq).
    destruct (@existing_state_source rt Demo.my_app fs v Hv Hvalid) as (_ & _ & Hmain).
    destruct (Hmain 0) as (m & Hm & Hfresh & _).
    exists v, m. split_and!; [done..|].
    destruct (freshCreation (m_state m)); [|done].
    destruct Hfresh as [Hfresh _]. rewrite Hex in Hfresh. by specialize (Hfresh eq_refl).
  - intros fs.
    destruct (validateInputs Demo.my_app fs) as [err|v] eqn:Hv; [by vm_compute in Hv|].
    assert (valid v = true ∧ v_projectPath v = "/work/my-app" ∧
            resolvedComponents v = ["button"; "card"; "badge"; "input"])
      as (Hvalid & Hp & Hrc) by (vm_compute in Hv; by simplify_eq).
    destruct (@existing_state_source rt Demo.my_app fs v Hv Hvalid) as (_ & Hnone & Hmain).
    destruct (Hmain 0) as (m & Hm & Hfresh & Hcomps).
    assert (existingState v = None) as Hex.
    { apply Hnone. right. exists "null". rewrite Hp. split; by vm_compute. }
    exists v, m. rewrite Hex in Hcomps. rewrite Hp.
    split_and!; [done | done | done | by vm_compute | by vm_compute | done
                | by apply Hfresh | by rewrite Hcomps].
Defined.

(** Saving the state of a run and validating the same command again. *)
Lemma saved_checkpoint_is_resumed_witness :
  let rt := Demo.runtime [Demo.checkpoint done] Demo.all_fail in
  let a := Demo.my_app in
  let m := Demo.machine (Demo.checkpoint done) (Demo.resumable done) in
  let p := path_join (a_targetDir a) (a_projectName a) in
  let s' := set_updatedAt (m_now m) (m_state m) in
  ∃ v, validateInputs a (m_fs (saveState p m).2) = inr v ∧
       v_projectPath v = p ∧ existingState v = Some s' ∧ m_state (saveState p m).2 = s'.
Proof.
  intros rt a m p s'.
  destruct (validateInputs a (m_fs (saveState p m).2)) as [err|v] eqn:Hv;
    [by vm_compute in Hv|].
  exists v. split; [done|].
  apply (@saved_checkpoint_is_resumed rt a m v); [done | by vm_compute | by vm_compute | done].
Defined.

(** The fresh run in the world where every command succeeds. *)
Lemma successful_run_is_verified_witness :
  let rt := Demo.runtime [] (Demo.all_succeed "/work/my-app") in
  let e := main Demo.my_app Demo.work 0 in
  ∃ v m,
    end_validation e = Some v ∧ end_machine e = Some m ∧
    ((∀ s, existingState v = Some s → status_of s Step.verification ≠ done) →
     ∀ rel, rel ∈ blocking_paths → is_Some (m_fs m !! path_join (v_projectPath v) rel)).
Proof.
  intros rt e. apply (@successful_run_is_verified rt Demo.my_app Demo.work 0). by vm_compute.
Defined.

(** A run resumed with another template on the command line: what it
    installs are the four components of the checkpoint. *)
Lemma run_installs_state_components_witness :
  let rt := Demo.runtime [Demo.checkpoint done] (Demo.all_succeed "/work/my-app") in
  let a := {| a_projectName := "my-app"; a_template := "custom"; a_components := ["tabs"];
              a_targetDir := "/work" |} in
  let e := main a (Demo.resumable done) 0 in
  ∃ v m,
    end_validation e = Some v ∧ end_machine e = Some m ∧
    resolvedComponents v = ["tabs"] ∧
    EvSpawn (add_command "/work/my-app" ["button"; "card"; "badge"; "input"] 300000)
      ∈ m_trace m ∧
    Forall (adds_only (v_projectPath v) ["button"; "card"; "badge"; "input"]) (m_trace m).
Proof.
  intros rt a e.
  destruct (end_validation e) as [v|] eqn:Hv; [|by vm_compute in Hv].
  destruct (end_machine e) as [m|] eqn:Hm; [|by vm_compute in Hm].
  exists v, m. split; [done|]. split; [done|].
  pose proof (@run_installs_state_components rt a (Demo.resumable done) 0 v m Hv Hm) as H.
  vm_compute in Hv, Hm. simplify_eq. split; [done|]. split; [|exact H].
  apply (bool_decide_unpack _). by vm_compute.
Defined.

Lemma components_option_round_trip_witness :
  let l := ["button"; "dropdown-menu"; "card"] in
  parse_components (join "," l) = l ∧
  parse_components (join ", " l) = l ∧
  ∀ resolve values name rest,
    cli_help values = false → cli_components values = join "," l →
    ∃ a, parseCLIArgs resolve values (name :: rest) = Ok a ∧
         a_projectName a = name ∧ a_components a = l.
Proof.
  intros l. apply (components_option_round_trip l). by repeat constructor.
Defined.

Lemma formatDuration_rounds_witness :
  let ms := 90499 in
  let t := (ms + 500) / 1000 in
  1000 * t - 500 ≤ ms < 1000 * t + 500 ∧
  0 ≤ t `mod` 60 < 60 ∧
  t = 60 * (t / 60) + t `mod` 60 ∧
  (t < 60 ↔ ms < 59500) ∧
  formatDuration ms =
    if bool_decide (t < 60) then pretty t +:+ "s"
    else pretty (t / 60) +:+ "m " +:+ pretty (t `mod` 60) +:+ "s".
Proof. intros ms t. apply (formatDuration_rounds ms). lia. Defined.

(** The summary of the fresh run that succeeds. *)
Lemma summary_matches_exit_witness :
  let rt := Demo.runtime [] (Demo.all_succeed "/work/my-app") in
  let e := main Demo.my_app Demo.work 0 in
  ∃ m, end_machine e = Some m ∧
    let out := printSummary (m_state m) in
    printed_summary e = Some out ∧
    out !! 1%nat = Some (headline (m_state m)) ∧
    (exit_code e = EXIT_CODES.SUCCESS ↔ headline (m_state m) ≠ "  SCAFFOLDING INCOMPLETE") ∧
    (exit_code e = EXIT_CODES.SUCCESS ∧ failedComponents (m_state m) = [] ↔
     headline (m_state m) = "  PROJECT SCAFFOLDED SUCCESSFULLY") ∧
    (exit_code e = EXIT_CODES.SUCCESS ∧ failedComponents (m_state m) ≠ [] ↔
     headline (m_state m) = "  PROJECT CREATED (with warnings)") ∧
    (exit_code e = EXIT_CODES.SUCCESS ↔ "  Next steps:" ∈ out).
Proof.
  intros rt e.
  destruct (end_machine e) as [m|] eqn:Hm; [|by vm_compute in Hm].
  exists m. split; [done|].
  apply (@summary_matches_exit rt Demo.my_app Demo.work 0 m Hm). by vm_compute.
Defined.

Lemma insert_keeps (fs : FS) (q q' : string) (node : Node) :
  is_Some (fs !! q') → is_Some (<[q := node]> fs !! q').
Proof. intros H. apply lookup_insert_is_Some'. by right. Qed.

Lemma forallb_exists (fs : FS) (p : string) (paths : list string) :
  (∀ rel, rel ∈ paths → is_Some (fs !! path_join p rel)) →
  forallb (λ rel, existsSync fs (path_join p rel)) paths = true.
Proof.
  intros H. apply forallb_forall. intros rel Hrel%list_elem_of_In.
  unfold existsSync. by destruct (H rel Hrel) as [? ->].
Qed.

(** The staged tools work, for the project they are for. *)
Lemma staged_tools_cooperative known :
  @cooperative (Demo.runtime known (staged_tools "/work/my-app")) "/work/my-app".
Proof.
  intros c fs now. cbn [spawn Demo.runtime]. unfold staged_tools, ready.
  assert (∀ fs' : FS, fs' !! "/work/my-app" = Some Dir →
            (∀ rel, rel ∈ blocking_paths → is_Some (fs' !! path_join "/work/my-app" rel)) →
            isDirectory fs' "/work/my-app" &&
            forallb (λ rel, existsSync fs' (path_join "/work/my-app" rel)) blocking_paths
            = true) as Hall.
  { intros fs' Hd Hb. unfold isDirectory. rewrite Hd. by apply forallb_exists. }
  destruct (spawn_kind c) as [[]|] eqn:Hk.
  - unfold existsSync. destruct (fs !! "/work/my-app") as [node|] eqn:Hp;
      cbn [Demo.ends o_term o_fs]; rewrite ?Hp; split_and!; try done.
    + intros _. by eexists.
    + intros rel _ H. by do 4 apply insert_keeps.
    + intros _ _. split.
      * rewrite !lookup_insert_ne by (by vm_compute). apply lookup_insert_eq.
      * intros rel Hrel. unfold bootstrap_paths in Hrel.
        rewrite !elem_of_cons, elem_of_nil in Hrel.
        destruct Hrel as [->|[->|[->|[]]]].
        -- do 2 apply insert_keeps. rewrite lookup_insert_eq. by eexists.
        -- apply insert_keeps. rewrite lookup_insert_eq. by eexists.
        -- rewrite lookup_insert_eq. by eexists.
    + by rewrite !lookup_insert_ne by (by vm_compute).
    + by rewrite !lookup_insert_ne by (by vm_compute).
  - assert (fs !! "/work/my-app" = Some Dir ∧
            (∀ rel, rel ∈ bootstrap_paths → is_Some (fs !! path_join "/work/my-app" rel)) →
            isDirectory fs "/work/my-app" &&
            forallb (λ rel, existsSync fs (path_join "/work/my-app" rel)) bootstrap_paths
            = true) as Hready.
    { intros [Hd Hb]. unfold isDirectory. rewrite Hd. by apply forallb_exists. }
    destruct (isDirectory fs "/work/my-app" && _) eqn:Hc;
      cbn [Demo.ends o_term o_fs]; split_and!; try done.
    + intros _. by eexists.
    + intros Hd. by rewrite lookup_insert_ne by (by vm_compute).
    + intros rel _ H. by apply insert_keeps.
    + intros _ _. rewrite lookup_insert_eq. by eexists.
    + by rewrite lookup_insert_ne by (by vm_compute).
    + by rewrite lookup_insert_ne by (by vm_compute).
    + intros Hr. apply Hready in Hr. congruence.
    + intros _ Hr. apply Hready in Hr. congruence.
  - destruct (isDirectory fs "/work/my-app" && _) eqn:Hc;
      cbn [Demo.ends o_term o_fs]; split_and!; try done.
    + intros _. by eexists.
    + intros [Hd Hb]. pose proof (Hall fs Hd Hb). congruence.
  - destruct (isDirectory fs "/work/my-app" && _) eqn:Hc;
      cbn [Demo.ends o_term o_fs]; split_and!; try done.
    + intros _. by eexists.
    + intros [Hd Hb]. pose proof (Hall fs Hd Hb). congruence.
  - destruct (isDirectory fs "/work/my-app" && _) eqn:Hc;
      cbn [Demo.ends o_term o_fs]; split_and!; try done.
    + intros _. by eexists.
    + intros [Hd Hb]. pose proof (Hall fs Hd Hb). congruence.
  - destruct (isDirectory fs "/work/my-app" && _) eqn:Hc;
      cbn [Demo.ends o_term o_fs]; split_and!; try done.
    + intros _. by eexists.
    + intros [Hd Hb]. pose proof (Hall fs Hd Hb). congruence.
Qed.

(** The fresh run of [my-app] with the staged tools. *)
Lemma cooperative_fresh_run_succeeds_witness :
  let rt := Demo.runtime [] (staged_tools "/work/my-app") in
  let e := main Demo.my_app Demo.work 0 in
  let p := "/work/my-app" in
  exit_code e = EXIT_CODES.SUCCESS ∧ crashed e = false ∧
  ∃ m, end_machine e = Some m ∧
       installedComponents (m_state m) = ["button"; "card"; "badge"; "input"] ∧
       failedComponents (m_state m) = [] ∧
       commands_of (m_trace m) =
         [ {| command := "npx";
              args := ["create-vite@latest"; "my-app"; "--template"; "react-ts"];
              cwd := "/work"; timeout := 120000 |};
           {| command := "npm"; args := ["install"]; cwd := p; timeout := 120000 |};
           {| command := "npx";
              args := ["shadcn@latest"; "init"; "--yes"; "--defaults"; "--force";
                       "--cwd"; p];
              cwd := p; timeout := 60000 |};
           {| command := "npx";
              args := ["shadcn@latest"; "add"; "--registry"; REGISTRY_URL; "--yes";
                       "--overwrite"; "--cwd"; p] ++ ["button"; "card"; "badge"; "input"];
              cwd := p; timeout := 300000 |} ].
Proof.
  intros rt e p.
  destruct (validateInputs Demo.my_app Demo.work) as [err|v] eqn:Hv; [by vm_compute in Hv|].
  assert (valid v = true ∧ v_projectPath v = p ∧
          resolvedComponents v = ["button"; "card"; "badge"; "input"]) as (Hvalid & Hp & Hrc)
    by (vm_compute in Hv; by simplify_eq).
  rewrite <- Hrc, <- Hp.
  apply (@cooperative_fresh_run_succeeds rt Demo.my_app Demo.work 0 v Hv Hvalid).
  - rewrite Hp. apply staged_tools_cooperative.
  - rewrite Hp. by vm_compute.
  - rewrite Hp. by vm_compute.
Defined.

(** An interrupt while the dependency install of [my-app] is running. *)
Lemma interrupt_then_resume_witness :
  let interrupted :=
    set_updatedAt 0 (set_error (Some "Interrupted by SIGINT")
                       (set_step Step.npmInstall failed (Demo.checkpoint done))) in
  let rt := Demo.runtime [interrupted] Demo.all_fail in
  let a := Demo.my_app in
  let m := Demo.machine (set_step Step.npmInstall running (Demo.checkpoint done))
             (Demo.resumable done) in
  let p := path_join (a_targetDir a) (a_projectName a) in
  let s' := set_updatedAt (m_now m)
              (set_error (Some ("Interrupted by " +:+ "SIGINT"))
                 (relabel_running (m_state m))) in
  let m' := (handler "SIGINT" (Some p) m).2 in
  (handler "SIGINT" (Some p) m).1 = Exit EXIT_CODES.FAILURE ∧
  m_state m' = s' ∧
  (∀ k, status_of s' k ≠ running) ∧
  (∀ k, status_of (m_state m) k = running → status_of s' k = failed) ∧
  (∀ k, status_of (m_state m) k ≠ running → status_of s' k = status_of (m_state m) k) ∧
  (m_fs m !! p = None → m_fs m' = m_fs m) ∧
  (writable_checkpoint p (m_fs m) →
   JSON_parse (JSON_stringify s') = Some (Some s') →
   ∀ v, validateInputs a (m_fs m') = inr v → existingState v = Some s').
Proof.
  intros interrupted rt a m p s' m'. by apply (@interrupt_then_resume rt "SIGINT" a m).
Defined.

(** The stamps of a run resumed at instant 5000 from a checkpoint
    written at instant 0. *)
Lemma time_stamps_stay_ordered_witness :
  let rt := Demo.runtime [Demo.checkpoint done] (Demo.all_succeed "/work/my-app") in
  let e := main Demo.my_app (Demo.resumable done) 5000 in
  ∃ v m,
    end_validation e = Some v ∧ end_machine e = Some m ∧
    existingState v = Some (Demo.checkpoint done) ∧
    startedAt (m_state m) ≤ updatedAt (m_state m) ≤ m_now m ∧
    5000 ≤ m_now m ∧
    startedAt (m_state m) =
      match existingState v with Some s => startedAt s | None => 5000 end ∧
    0 ≤ updatedAt (m_state m) - startedAt (m_state m) ≤ m_now m - startedAt (m_state m) ∧
    (∀ sig g m0, stamps_ordered m0 → stamps_ordered (handler sig g m0).2).
Proof.
  intros rt e.
  destruct (end_validation e) as [v|] eqn:Hv; [|by vm_compute in Hv].
  destruct (end_machine e) as [m|] eqn:Hm; [|by vm_compute in Hm].
  exists v, m. split; [done|]. split; [done|].
  pose proof (@time_stamps_stay_ordered rt Demo.my_app (Demo.resumable done) 5000 v m Hv Hm)
    as H.
  clear Hm. vm_compute in Hv. injection Hv as <-.
  split; [by vm_compute|]. apply H.
  intros s Hs. injection Hs as <-. by vm_compute.
Defined.
